(** * Doxa ORM core: record cache, join resolver, query builder and
      computed-field engine, embedded in Rocq.

    Source files embedded here (package [models]):
    - the record cache            ([cache], [cacheRef] and their methods),
    - the table joins             ([tableJoin], [tableJoin.sqlString]),
    - the query builder           ([Query.predicateSQLClause],
                                   [Query.generateTableJoins], [Query.tablesSQL]),
    - the many-to-many declaration ([Many2ManyField.DeclareField]),
    - the computed-field engine   ([computeFieldValues], [updateStoredFields],
                                   [processInverseMethods]).

    Conventions of the embedding:
    - a Go [*Model] is the model's name, resolved through the registry each
      time it is dereferenced (a name absent from the registry is a nil
      pointer); a [*Field] is the field record itself;
    - [interface{}] is the inductive [value]; a failed type assertion, a
      [log.Panic] and a nil dereference are [Panic];
    - [int64] ids are [Z] (no arithmetic is ever done on them);
    - Go maps are [gmap]s; where the source ranges over a map, the
      embedding ranges in the order of [map_to_list], which is one of the
      orders Go may pick; statements are about membership, not order;
    - recursion that Go does not bound is bounded by a fuel argument, and
      running out of fuel is the separate outcome [OutOfFuel]. *)

From Stdlib Require Import ZArith String Ascii List Lia.
From stdpp Require Import base tactics option list gmap fin_maps fin_sets strings pretty.

Local Open Scope string_scope.
Local Open Scope list_scope.
Set Warnings "-register-all".

(** ** Outcomes of a Go call *)

Inductive result (A : Type) : Type :=
  | Ok (a : A)
  | Panic (msg : string)
  | OutOfFuel.
Arguments Ok {A} a.
Arguments Panic {A} msg.
Arguments OutOfFuel {A}.

#[global] Instance result_ret : MRet result := fun A a => Ok a.
#[global] Instance result_bind : MBind result := fun A B k r =>
  match r with
  | Ok a => k a
  | Panic msg => Panic msg
  | OutOfFuel => OutOfFuel
  end.

Definition isOk {A} (r : result A) : Prop :=
  match r with Ok _ => True | _ => False end.

Definition isPanic {A} (r : result A) : Prop :=
  match r with Panic _ => True | _ => False end.

(** [foldM f a l] is [for _, x := range l { a = f(a, x) }] where the body
    may panic. *)
Fixpoint foldM {A B} (f : A -> B -> result A) (a : A) (l : list B) : result A :=
  match l with
  | [] => Ok a
  | x :: l' => a' ← f a x; foldM f a' l'
  end.

(** ** Values held in an [interface{}] *)

Inductive value : Type :=
  | VNil
  | VBool (b : bool)
  | VInt64 (n : Z)
  | VInt (n : Z)
  | VString (s : string)
  | VIds (ids : list Z)
  | VRecordSet (model : string) (ids : list Z).

#[global] Instance value_eq_dec : EqDecision value.
Proof. solve_decision. Defined.

(** [FieldMap] is [map[string]interface{}]. *)
Abbreviation FieldMap := (gmap string value).

(** [cacheRef]: the key of a record in a cache, a model and an id. *)
Abbreviation cacheRef := (string * Z)%type.

(** [SQLParams]: the parameters passed to the database with a query. *)
Abbreviation SQLParams := (list value).

(** ** Field types (package [fieldtype]) *)

Module fieldtype.

Inductive FieldType : Type :=
  | NoType | Binary | Boolean | Char | Date | DateTime | Float | HTML
  | Integer | Many2Many | Many2One | One2Many | One2One | Rev2One
  | Selection | Text.

#[global] Instance FieldType_eq_dec : EqDecision FieldType.
Proof. solve_decision. Defined.

(** Modelled from the spec: [Type.IsFKRelationType] is declared in package
    [fieldtype], which is not part of the sources at hand. The foreign-key
    relation types are the two that store a foreign-key column on the
    current table: many-to-one and one-to-one. *)
Definition IsFKRelationType (t : FieldType) : bool :=
  match t with
  | Many2One | One2One => true
  | _ => false
  end.

End fieldtype.
Import fieldtype.

(** ** Operators of predicates (package [operator]) *)

Module operator.

(** Modelled from the spec: package [operator] is not part of the sources
    at hand. Operators are an enumeration in which equality and inequality
    are two distinct members. *)
Inductive Operator : Type :=
  | Equals | NotEquals | Greater | GreaterOrEqual | Lower | LowerOrEqual
  | Like | Contains | NotContains | IContains | NotIContains | ILike
  | In | NotIn | ChildOf.

#[global] Instance Operator_eq_dec : EqDecision Operator.
Proof. solve_decision. Defined.

End operator.

(** ** Schema: fields, models, registry *)

(** The attributes of [Field] that the embedded functions read. Pointers
    to models ([model], [relatedModel], [m2mRelModel]) are model names;
    [m2mOurField] and [m2mTheirField] are the names of the two fields of
    the link model (the source only ever reads their [name]). *)
Record Field : Type := mkField {
  model : string;
  name : string;
  json : string;
  fieldType : FieldType;
  stored : bool;
  required : bool;
  compute : string;
  inverse : string;
  relatedModelName : string;
  reverseFK : string;
  jsonReverseFK : string;
  m2mRelModel : string;
  m2mOurField : string;
  m2mTheirField : string
}.

Record Model : Type := mkModel {
  modelName : string;
  tableName : string;
  fields : list Field
}.

(** Modelled from the spec: the constant [ExprSep] is declared outside the
    sources at hand. Field paths are dotted: the separator of their
    segments is the dot. *)
Definition ExprSep : string := ".".

(** [strings.Split(s, ExprSep)]: never empty, [Split "" = [""]]. *)
Fixpoint Split (s : string) : list string :=
  match s with
  | EmptyString => [EmptyString]
  | String c s' =>
      if Ascii.eqb c "."%char then EmptyString :: Split s'
      else match Split s' with
           | h :: t => String c h :: t
           | [] => [String c EmptyString]
           end
  end.

(** [strings.Join(l, ExprSep)]. *)
Definition Join (l : list string) : string := String.concat ExprSep l.

Section Schema.

(** The model registry, frozen after bootstrap. *)
Variable Registry : gmap string Model.

(** Dereferencing a [*Model]. *)
Definition deref (mi : string) : result Model :=
  match Registry !! mi with
  | Some m => Ok m
  | None => Panic "nil Model"
  end.

(** Modelled from the spec: [FieldsCollection.Get] is not part of the
    sources at hand. A field is found by its name or by its JSON (column)
    name, the name first: the query builder documents that an expression
    points at a field "either as names or columns (e.g. 'User.Name' or
    'user_id.name')". *)
Definition fields_Get (fs : list Field) (n : string) : option Field :=
  match find (fun f => bool_decide (name f = n)) fs with
  | Some f => Some f
  | None => find (fun f => bool_decide (json f = n)) fs
  end.

(** [FieldsCollection.MustGet]: [Get], or a panic. *)
Definition MustGet (mi : string) (n : string) : result Field :=
  m ← deref mi;
  match fields_Get (fields m) n with
  | Some f => Ok f
  | None => Panic "Unknown field in model"
  end.

(** [fi.relatedModel]: the pointer set at bootstrap from
    [relatedModelName]; nil when the registry has no such model. *)
Definition relatedModel (fi : Field) : option string :=
  match Registry !! relatedModelName fi with
  | Some _ => Some (relatedModelName fi)
  | None => None
  end.

(** Modelled from the spec: [jsonizeExpr] is not part of the sources at
    hand. It replaces each segment of a path by the JSON name of the field
    it resolves to, walking the relations from the given model
    ([User Profile Name] becomes [user_id profile_id name]); a segment
    that does not resolve, or a non-relation field in the middle of the
    path, is a schema error. *)
Fixpoint jsonizeExpr (mi : string) (exprs : list string) : result (list string) :=
  match exprs with
  | [] => Ok []
  | e :: rest =>
      fi ← MustGet mi e;
      match rest with
      | [] => Ok [json fi]
      | _ =>
          match relatedModel fi with
          | Some rm => r ← jsonizeExpr rm rest; Ok (json fi :: r)
          | None => Panic "Field is not a relation"
          end
      end
  end.

(** [jsonizePath]: [jsonizeExpr] on a dotted path. *)
Definition jsonizePath (mi : string) (path : string) : result string :=
  r ← jsonizeExpr mi (Split path); Ok (Join r).

(** Modelled from the spec: [Model.getRelatedModelInfo] is not part of the
    sources at hand. On a single segment it is the model the field points
    to, and the model itself for a non-relation field. *)
Definition getRelatedModelInfo (mi : string) (e : string) : result string :=
  fi ← MustGet mi e;
  Ok (default mi (relatedModel fi)).

(** ** The record cache *)

(** [cache]: [data] is [map[cacheRef]FieldMap]; [m2mLinks] is
    [map[*Model]map[[2]int64]bool], whose inner map is only ever given the
    value [true] and only ever ranged over by key: a set of pairs. *)
Record cache : Type := mkCache {
  data : gmap cacheRef FieldMap;
  m2mLinks : gmap string (gset (Z * Z))
}.

(** [newCache]. *)
Definition newCache : cache := mkCache ∅ ∅.

(** [strings.Compare]: -1, 0 or 1. *)
Definition Compare (a b : string) : Z :=
  match String.compare a b with
  | Lt => (-1)%Z
  | Eq => 0%Z
  | Gt => 1%Z
  end.

(** [(strings.Compare(fi.m2mOurField.name, fi.m2mTheirField.name) + 1) / 2]
    with Go's truncating division. *)
Definition ourIndex (fi : Field) : Z :=
  Z.quot (Compare (m2mOurField fi) (m2mTheirField fi) + 1) 2.

(** [(ourIndex + 1) % 2]. *)
Definition theirIndex (fi : Field) : Z := Z.rem (ourIndex fi + 1) 2.

(** [link[i]] on a [[2]int64]; an index outside 0..1 cannot be produced
    by [ourIndex] and [theirIndex]. *)
Definition linkAt (link : Z * Z) (i : Z) : Z :=
  if (i =? 0)%Z then link.1 else link.2.

(** [newLink[i] = v]. *)
Definition linkSet (link : Z * Z) (i : Z) (v : Z) : Z * Z :=
  if (i =? 0)%Z then (v, link.2) else (link.1, v).

(** [cache.removeM2MLinks]. *)
Definition removeM2MLinks (c : cache) (fi : Field) (id : Z) : cache :=
  match m2mLinks c !! m2mRelModel fi with
  | None => c
  | Some links =>
      let index := ourIndex fi in
      mkCache (data c)
        (<[m2mRelModel fi := filter (fun link => linkAt link index ≠ id) links]>
           (m2mLinks c))
  end.

(** The link that [addM2MLink] builds for the value [val]: a zero
    [newLink] whose two cells are then assigned. *)
Definition newLinkOf (fi : Field) (id val : Z) : Z * Z :=
  linkSet (linkSet (0, 0)%Z (ourIndex fi) id) (theirIndex fi) val.

(** [cache.addM2MLink]. *)
Definition addM2MLink (c : cache) (fi : Field) (id : Z) (values : list Z) : cache :=
  let links := default ∅ (m2mLinks c !! m2mRelModel fi) in
  let newLinks :=
    foldl (fun (acc : gset (Z * Z)) val => {[newLinkOf fi id val]} ∪ acc)
          links values in
  mkCache (data c) (<[m2mRelModel fi := newLinks]> (m2mLinks c)).

(** [cache.getM2MLinks]. *)
Definition getM2MLinks (c : cache) (fi : Field) (id : Z) : list Z :=
  match m2mLinks c !! m2mRelModel fi with
  | None => []
  | Some links =>
      omap (fun link =>
              if bool_decide (linkAt link (ourIndex fi) = id)
              then Some (linkAt link (theirIndex fi)) else None)
           (elements links)
  end.

(** The [switch fi.fieldType] of [cache.get], once the path is resolved to
    a [cacheRef] and a field name. *)
Definition getByRef (c : cache) (ref : cacheRef) (fName : string) : result value :=
  fi ← MustGet ref.1 fName;
  match fieldType fi with
  | One2Many =>
      Ok (VIds (omap (fun '(cRef, cVal) =>
                        if bool_decide (Some (cRef.1 : string) = relatedModel fi
                                        ∧ (cVal : FieldMap) !! jsonReverseFK fi = Some (VInt64 ref.2))
                        then Some (cRef.2 : Z) else None)
                     (map_to_list (data c))))
  | Rev2One =>
      Ok (match omap (fun '(cRef, cVal) =>
                        if bool_decide (Some (cRef.1 : string) = relatedModel fi
                                        ∧ (cVal : FieldMap) !! jsonReverseFK fi = Some (VInt64 ref.2))
                        then Some (cRef.2 : Z) else None)
                     (map_to_list (data c)) with
          | i :: _ => VInt64 i
          | [] => VNil
          end)
  | Many2Many => Ok (VIds (getM2MLinks c fi ref.2))
  | _ => Ok (default VNil (data c !! ref ≫= fun fm => fm !! fName))
  end.

(** [cache.getRelatedRef]; [None] is the error "requested value not in
    cache". The call of [c.get] on the first segment is the call of
    [getRelatedRef] with one fuel less followed by [getByRef]. *)
Fixpoint getRelatedRef (fuel : nat) (c : cache) (mi : string) (id : Z) (path : string)
  : result (option (cacheRef * string)) :=
  match fuel with
  | O => OutOfFuel
  | S fuel' =>
      exprs ← jsonizeExpr mi (Split path);
      match exprs with
      | [] => Panic "index out of range"
      | [e] => Ok (Some ((mi, id), e))
      | e :: rest =>
          relMI ← getRelatedModelInfo mi e;
          r ← getRelatedRef fuel' c mi id e;
          v ← match r with
              | None => Ok VNil
              | Some (ref, fName) => getByRef c ref fName
              end;
          match v with
          | VInt64 fkID => getRelatedRef fuel' c relMI fkID (Join rest)
          | _ => Ok None
          end
      end
  end.

(** [cache.get]. *)
Definition get (fuel : nat) (c : cache) (mi : string) (id : Z) (fieldName : string)
  : result value :=
  r ← getRelatedRef fuel c mi id fieldName;
  match r with
  | None => Ok VNil
  | Some (ref, fName) => getByRef c ref fName
  end.

(** [cache.checkIfInCache]. *)
Definition checkIfInCache (fuel : nat) (c : cache) (mi : string) (ids : list Z)
    (fieldNames : list string) : result bool :=
  match ids with
  | [] => Ok false
  | _ =>
      foldM (fun (acc : bool) '(id, fName) =>
               if acc then
                 r ← getRelatedRef fuel c mi id fName;
                 match r with
                 | None => Ok false
                 | Some (ref, path) =>
                     Ok (bool_decide (is_Some (data c !! ref ≫= fun fm => fm !! path)))
                 end
               else Ok false)
            true
            (id ← ids; fName ← fieldNames; [(id, fName)])
  end.

(** [c.data[ref][k] = v]; assigning into an absent (nil) inner map is a
    run-time panic in Go. *)
Definition setEntry (c : cache) (ref : cacheRef) (k : string) (v : value) : result cache :=
  match data c !! ref with
  | Some fm => Ok (mkCache (<[ref := <[k := v]> fm]> (data c)) (m2mLinks c))
  | None => Panic "assignment to entry in nil map"
  end.

(** The first statement of [cache.updateEntryByRef]: the entry of [ref] is
    created, with its id, when the cache has none. *)
Definition ensureEntry (c : cache) (ref : cacheRef) : cache :=
  match data c !! ref with
  | Some _ => c
  | None => mkCache (<[ref := {["id" := VInt64 ref.2]}]> (data c)) (m2mLinks c)
  end.

(** [c.updateEntry(fi.relatedModel, id, fieldName, val)] as called from
    [updateEntryByRef], whose recursive call is [rec]: the model is a
    pointer that may be nil, and the error that [updateEntry] returns is
    dropped. *)
Definition updateEntryVia (fuel : nat)
    (rec : cache -> cacheRef -> string -> value -> result cache)
    (c : cache) (mi : option string) (id : Z) (fieldName : string) (val : value)
  : result cache :=
  match mi with
  | None => Panic "nil Model"
  | Some mi =>
      r ← getRelatedRef fuel c mi id fieldName;
      match r with
      | None => Ok c
      | Some (ref', fName) => rec c ref' fName val
      end
  end.

(** [cache.updateEntryByRef]. *)
Fixpoint updateEntryByRef (fuel : nat) (c : cache) (ref : cacheRef) (jsonName : string)
    (val : value) : result cache :=
  match fuel with
  | O => OutOfFuel
  | S fuel' =>
      let c := ensureEntry c ref in
      let updateEntry := updateEntryVia fuel' (updateEntryByRef fuel') in
      fi ← MustGet ref.1 jsonName;
      match fieldType fi with
      | One2Many =>
          match val with
          | VIds ids =>
              c ← foldM (fun c id =>
                           updateEntry c (relatedModel fi) id (jsonReverseFK fi) (VInt64 ref.2))
                        c ids;
              setEntry c ref jsonName (VBool true)
          | _ => Panic "interface conversion: interface {} is not []int64"
          end
      | Rev2One =>
          match val with
          | VInt64 id =>
              c ← updateEntry c (relatedModel fi) id (jsonReverseFK fi) (VInt64 ref.2);
              setEntry c ref jsonName (VBool true)
          | _ => Panic "interface conversion: interface {} is not int64"
          end
      | Many2Many =>
          match val with
          | VIds ids =>
              let c := removeM2MLinks c fi ref.2 in
              let c := addM2MLink c fi ref.2 ids in
              setEntry c ref jsonName (VBool true)
          | _ => Panic "interface conversion: interface {} is not []int64"
          end
      | _ => setEntry c ref jsonName val
      end
  end.

(** [cache.updateEntry]; the boolean is true when an error is returned. *)
Definition updateEntry (fuel : nat) (c : cache) (mi : string) (id : Z)
    (fieldName : string) (val : value) : result (cache * bool) :=
  r ← getRelatedRef fuel c mi id fieldName;
  match r with
  | None => Ok (c, true)
  | Some (ref, fName) => c' ← updateEntryByRef fuel c ref fName val; Ok (c', false)
  end.

(** [cache.addRecord]: the keys of [fMap] are grouped by the number of
    segments of the path and added shortest first; the error returned by
    [updateEntry] is dropped. *)
Definition addRecord (fuel : nat) (c : cache) (mi : string) (id : Z) (fMap : FieldMap)
  : result cache :=
  let keys := (map_to_list fMap).*1 in
  let maxLen := foldr (fun path acc => Nat.max (length (Split path)) acc) O keys in
  foldM (fun c i =>
           foldM (fun c path =>
                    r ← updateEntry fuel c mi id path (default VNil (fMap !! path));
                    Ok r.1)
                 c
                 (filter (fun path => length (Split path) = i) keys))
        c (seq 0 (S maxLen)).

(** The loop of [invalidateRecord] over the fields of the model. *)
Definition purgeLinks (id : Z) (c : cache) (fs : list Field) : cache :=
  foldl (fun c fi =>
           if bool_decide (fieldType fi = Many2Many) then removeM2MLinks c fi id else c)
        c fs.

(** [cache.invalidateRecord]. *)
Definition invalidateRecord (c : cache) (mi : string) (id : Z) : result cache :=
  let c := mkCache (delete (mi, id) (data c)) (m2mLinks c) in
  m ← deref mi;
  Ok (purgeLinks id c (fields m)).

(** *** Statements about a cache *)

(** No link of the link model [rel] has [id] in the cell [index]. *)
Definition noLink (rel : string) (index id : Z) (c : cache) : Prop :=
  forall links link,
    m2mLinks c !! rel = Some links -> link ∈ links -> linkAt link index ≠ id.

(** Every entry of the cache binds the key "id" to the id of its
    [cacheRef]. *)
Definition cacheInv (c : cache) : Prop :=
  forall (ref : cacheRef) (fm : FieldMap),
    data c !! ref = Some fm -> fm !! "id" = Some (VInt64 ref.2).

(** Writing [v] under the field name [fName] of the entry of [ref] leaves
    the id of the entry alone: the name is not "id", or the value written
    is the id of [ref] itself, on a field whose value is stored as it
    is. *)
Definition keepsId (ref : cacheRef) (fName : string) (v : value) : Prop :=
  fName ≠ "id"
  \/ (v = VInt64 ref.2
      /\ forall fi, MustGet ref.1 fName = Ok fi ->
            fieldType fi ≠ One2Many /\ fieldType fi ≠ Rev2One /\ fieldType fi ≠ Many2Many).

(** The reverse foreign key of a one-to-many or reverse-one-to-one field
    is a name of one segment that does not resolve to the id column of the
    related model. *)
Definition reverseFKOk (fi : Field) : bool :=
  if bool_decide (fieldType fi = One2Many \/ fieldType fi = Rev2One) then
    bool_decide (Split (jsonReverseFK fi) = [jsonReverseFK fi])
    && match relatedModel fi with
       | Some rm =>
           match MustGet rm (jsonReverseFK fi) with
           | Ok f' => bool_decide (json f' ≠ "id")
           | _ => true
           end
       | None => true
       end
  else true.

(** [reverseFKOk] for every field of every model of the registry. *)
Definition schemaOk : bool :=
  forallb (fun '(_, m) => forallb reverseFKOk (fields m)) (map_to_list Registry).

(** [cache.removeEntry]. *)
Definition removeEntry (fuel : nat) (c : cache) (mi : string) (id : Z) (fieldName : string)
  : result cache :=
  inCache ← checkIfInCache fuel c mi [id] [fieldName];
  if inCache : bool then
    let c :=
      match data c !! (mi, id) with
      | Some fm => mkCache (<[(mi, id) := delete fieldName fm]> (data c)) (m2mLinks c)
      | None => c
      end in
    fi ← MustGet mi fieldName;
    Ok (if bool_decide (fieldType fi = Many2Many) then removeM2MLinks c fi id else c)
  else Ok c.

(** ** Table joins *)

(** [tableJoin]: a join in a SQL query; [otherTable] is the pointer to
    the join this one hangs on (nil for the root table). *)
Inductive tableJoin : Type := mkTableJoin {
  tj_tableName : string;
  tj_joined : bool;
  tj_innerJoin : bool;
  tj_field : string;
  tj_otherTable : option tableJoin;
  tj_otherField : string;
  tj_alias : string;
  tj_expr : string
}.

(** [tableJoin.sqlString]. *)
Definition sqlString (t : tableJoin) : result string :=
  if negb (tj_joined t) then
    Ok (tj_tableName t +:+ " " +:+ tj_alias t +:+ " ")
  else
    let joinType := if tj_innerJoin t then "INNER " else "LEFT " in
    let joinStr := joinType +:+ "JOIN " in
    match tj_otherTable t with
    | None => Panic "nil tableJoin"
    | Some o =>
        Ok (joinStr +:+ tj_tableName t +:+ " " +:+ tj_alias t +:+ " ON "
            +:+ tj_alias o +:+ "." +:+ tj_otherField t +:+ "="
            +:+ tj_alias t +:+ "." +:+ tj_field t +:+ " ")
    end.

(** ** Query builder *)

(** The database adapter's identifier quoting and the separator used in
    join aliases are declared outside the sources at hand. *)
Variable quoteTableName : string -> string.
Variable sqlSep : string.

(** The expression of the join appended for a segment followed by [rest],
    in the one-to-many, reverse-one-to-one and many-to-many cases: the
    next segment, or "id" when there is none. *)
Definition exprAfter (rest : list string) : string :=
  if bool_decide (hd "" rest = "") then "id" else hd "" rest.

(** The join to the link table of a many-to-many field that
    [generateTableJoins] appends: [rel] is the link model, [ourCol] and
    [theirCol] its two columns, [curTJ] and [alias] the current join and
    alias chain. *)
Definition linkJoin (rel : Model) (ourCol theirCol : string) (curTJ : tableJoin)
    (alias : string) : tableJoin :=
  {| tj_tableName := quoteTableName (tableName rel);
     tj_joined := true;
     tj_innerJoin := false;
     tj_field := ourCol;
     tj_otherTable := Some curTJ;
     tj_otherField := "id";
     tj_alias := quoteTableName (alias +:+ sqlSep +:+ tableName rel);
     tj_expr := theirCol |}.

(** The join to the related table that [generateTableJoins] appends
    ([nextTJ]): [relM] is the related model. *)
Definition nextJoin (relM : Model) (innerJoin : bool) (field : string)
    (curTJ : tableJoin) (otherField : string) (alias : string) (tjExpr : string)
  : tableJoin :=
  {| tj_tableName := quoteTableName (tableName relM);
     tj_joined := true;
     tj_innerJoin := innerJoin;
     tj_field := field;
     tj_otherTable := Some curTJ;
     tj_otherField := otherField;
     tj_alias := quoteTableName (alias +:+ sqlSep +:+ tableName relM);
     tj_expr := tjExpr |}.

(** The body of the loop of [Query.generateTableJoins] on the remaining
    segments: [curMI], [curTJ] and [alias] are the loop's variables; the
    result is what the loop appends to [joins]. *)
Fixpoint joinsLoop (curMI : string) (curTJ : tableJoin) (alias : string)
    (fieldExprs : list string) : result (list tableJoin) :=
  match fieldExprs with
  | [] => Ok []
  | expr :: rest =>
      m ← deref curMI;
      match fields_Get (fields m) expr with
      | None => Panic "Unparsable Expression"
      | Some fi =>
          match relatedModel fi with
          | None => Ok []
          | Some rm =>
              if bool_decide (rest = []) && IsFKRelationType (fieldType fi) then Ok []
              else
                let innerJoin := required fi in
                let tjExpr := hd "" rest in
                '(pre, curTJ, alias, field, otherField, tjExpr) ←
                  match fieldType fi with
                  | Many2One | One2One =>
                      Ok (@nil tableJoin, curTJ, alias, "id", expr, tjExpr)
                  | One2Many | Rev2One =>
                      field ← jsonizePath rm (reverseFK fi);
                      Ok (@nil tableJoin, curTJ, alias, field, "id",
                          if bool_decide (tjExpr = "") then "id" else tjExpr)
                  | Many2Many =>
                      rel ← deref (m2mRelModel fi);
                      ourCol ← jsonizePath (m2mRelModel fi) (m2mOurField fi);
                      theirCol ← jsonizePath (m2mRelModel fi) (m2mTheirField fi);
                      let tj := linkJoin rel ourCol theirCol curTJ alias in
                      Ok ([tj], tj, alias +:+ sqlSep +:+ tableName rel, "id", theirCol,
                          if bool_decide (tjExpr = "") then "id" else tjExpr)
                  | _ => Ok (@nil tableJoin, curTJ, alias, "", "", tjExpr)
                  end;
                relM ← deref rm;
                let nextTJ := nextJoin relM innerJoin field curTJ otherField alias tjExpr in
                r ← joinsLoop rm nextTJ (alias +:+ sqlSep +:+ tableName relM) rest;
                Ok (pre ++ nextTJ :: r)
          end
      end
  end.

(** The join of the current table, with which [generateTableJoins]
    starts. *)
Definition rootJoin (m : Model) (fieldExprs : list string) : tableJoin :=
  let currentTableName := quoteTableName (tableName m) in
  {| tj_tableName := currentTableName;
     tj_joined := false;
     tj_innerJoin := false;
     tj_field := "";
     tj_otherTable := None;
     tj_otherField := "";
     tj_alias := currentTableName;
     tj_expr := hd "" fieldExprs |}.

(** [Query.generateTableJoins], for a query on the model [mi]
    ([q.recordSet.model]). *)
Definition generateTableJoins (mi : string) (fieldExprs : list string)
  : result (list tableJoin) :=
  m ← deref mi;
  let curTJ := rootJoin m fieldExprs in
  r ← joinsLoop mi curTJ (tableName m) fieldExprs;
  Ok (curTJ :: r).

(** [Query.joinedFieldExpression]; [withAlias] is the optional argument. *)
Definition joinedFieldExpression (mi : string) (exprs : list string) (withAlias : bool)
  : result string :=
  joins ← generateTableJoins mi exprs;
  match last joins with
  | None => Panic "index out of range"
  | Some lastJoin =>
      if withAlias then
        Ok (tj_alias lastJoin +:+ "." +:+ tj_expr lastJoin +:+ " AS "
            +:+ String.concat sqlSep exprs)
      else Ok (tj_alias lastJoin +:+ "." +:+ tj_expr lastJoin)
  end.

(** The variables of the loop of [Query.tablesSQL]. *)
Record tablesState : Type := mkTablesState {
  ts_res : string;
  ts_joinsMap : gmap string string;
  ts_aliasIndex : nat
}.

(** The body of the inner loop of [Query.tablesSQL], on the join [j]. *)
Definition tablesStep (st : tablesState) (j : tableJoin) : result tablesState :=
  match ts_joinsMap st !! tj_alias j with
  | Some _ => Ok st
  | None =>
      let joinsMap :=
        <[tj_alias j := quoteTableName ("T" +:+ pretty (ts_aliasIndex st))]> (ts_joinsMap st) in
      let joinsMap :=
        if bool_decide (ts_aliasIndex st = O)
        then <[tj_alias j := tj_alias j]> joinsMap else joinsMap in
      s ← sqlString j;
      Ok (mkTablesState (ts_res st +:+ s) joinsMap (S (ts_aliasIndex st)))
  end.

(** The loops of [Query.tablesSQL] from a given state. *)
Definition tablesLoop (mi : string) (st : tablesState) (fExprs : list (list string))
  : result tablesState :=
  foldM (fun st f => tJoins ← generateTableJoins mi f; foldM tablesStep st tJoins)
        st fExprs.

(** *** Statements about the FROM clause *)

(** The clauses [strs] appended one after the other, as [res += ...]
    does. *)
Definition fromClause (strs : list string) : string := foldl String.append "" strs.

(** The alias given to the join that is the [k]-th to enter the FROM
    clause: its own alias for the first one, "T" followed by [k] for the
    others. *)
Definition aliasFor (k : nat) (j : tableJoin) : string :=
  if bool_decide (k = O) then tj_alias j else quoteTableName ("T" +:+ pretty k).

(** The state of the loop of [tablesSQL] when the joins [js], whose
    clauses are [strs], have entered the FROM clause. *)
Definition tablesInv (st : tablesState) (js : list tableJoin) (strs : list string) : Prop :=
  ts_aliasIndex st = length js
  /\ Forall2 (fun j s => sqlString j = Ok s) js strs
  /\ ts_res st = fromClause strs
  /\ NoDup (tj_alias <$> js)
  /\ (forall a, is_Some (ts_joinsMap st !! a) <-> a ∈ tj_alias <$> js)
  /\ (forall k j, js !! k = Some j -> ts_joinsMap st !! tj_alias j = Some (aliasFor k j)).

(** [Query.tablesSQL]: the FROM clause and the map from the aliases of
    the joins to the aliases used in the query. *)
Definition tablesSQL (mi : string) (fExprs : list (list string))
  : result (string * gmap string string) :=
  st ← tablesLoop mi (mkTablesState "" ∅ O) fExprs;
  Ok (ts_res st, ts_joinsMap st).

(** [predicate] and [Condition]: a predicate is a leaf (path, operator,
    argument) or, when [isCond] is set, a nested condition. *)
Inductive predicate : Type := mkPredicate {
  p_exprs : list string;
  p_operator : operator.Operator;
  p_arg : value;
  p_cond : option Condition;
  p_isOr : bool;
  p_isNot : bool;
  p_isCond : bool
}
with Condition : Type := mkCondition {
  predicates : list predicate
}.

(** Declared outside the sources at hand: the emptiness test of a
    condition, the adapter's rendering of an operator with its argument,
    and the cast of an argument to an integer (which fails on a value that
    is not a number). *)
Variable IsEmpty : Condition -> bool.
Variable operatorSQL : operator.Operator -> value -> string * value.
Variable CastToInteger : value -> option Z.

(** Modelled from the spec: [Model.getRelatedFieldInfo] is not part of the
    sources at hand. The schema registry resolves a field path to its
    field descriptor, following the relations of the segments before the
    last. *)
Fixpoint getRelatedFieldInfoExprs (mi : string) (exprs : list string) : result Field :=
  match exprs with
  | [] => Panic "index out of range"
  | e :: rest =>
      fi ← MustGet mi e;
      match rest with
      | [] => Ok fi
      | _ =>
          match relatedModel fi with
          | Some rm => getRelatedFieldInfoExprs rm rest
          | None => Panic "Field is not a relation"
          end
      end
  end.

Definition getRelatedFieldInfo (mi : string) (path : string) : result Field :=
  getRelatedFieldInfoExprs mi (Split path).

(** The loop of [Query.conditionSQLClause] over the predicates of a
    condition; [rec] renders one predicate. *)
Definition conditionLoop (rec : predicate -> result (string * SQLParams))
  : list predicate -> bool -> string -> SQLParams -> result (string * SQLParams) :=
  fix loop (ps : list predicate) (first : bool) (sql : string) (args : SQLParams) :=
    match ps with
    | [] => Ok (sql, args)
    | p :: ps' =>
        let op := if p_isOr p then "OR" else "AND" in
        let op := if p_isNot p then op +:+ " NOT" else op in
        '(vSQL, vArgs) ← rec p;
        let sql :=
          if first then (if p_isNot p then "NOT " +:+ vSQL else vSQL)
          else if p_isCond p then "(" +:+ sql +:+ ") " +:+ op +:+ " (" +:+ vSQL +:+ ")"
          else sql +:+ " " +:+ op +:+ " " +:+ vSQL in
        loop ps' false sql (args ++ vArgs)
    end.

(** [Query.predicateSQLClause], for a query on the model [mi]. *)
Fixpoint predicateSQLClause (mi : string) (p : predicate) {struct p}
  : result (string * SQLParams) :=
  if p_isCond p then
    match p_cond p with
    | None => Panic "nil Condition"
    | Some c =>
        if IsEmpty c then Ok ("", [])
        else conditionLoop (predicateSQLClause mi) (predicates c) true "" []
    end
  else
    exprs ← jsonizeExpr mi (p_exprs p);
    fi ← getRelatedFieldInfo mi (Join exprs);
    let arg :=
      if IsFKRelationType (fieldType fi)
         && bool_decide (CastToInteger (p_arg p) = Some 0%Z)
      then VNil else p_arg p in
    field ← joinedFieldExpression mi exprs false;
    match arg with
    | VNil =>
        match p_operator p with
        | operator.Equals => Ok (field +:+ " IS NULL", [])
        | operator.NotEquals => Ok (field +:+ " IS NOT NULL", [])
        | _ => Panic "Null argument can only be used with = and != operators"
        end
    | _ =>
        let '(opSql, arg') := operatorSQL (p_operator p) arg in
        Ok (field +:+ " " +:+ opSql, [arg'])
    end.

(** [Query.conditionSQLClause]. *)
Definition conditionSQLClause (mi : string) (c : Condition) : result (string * SQLParams) :=
  if IsEmpty c then Ok ("", [])
  else conditionLoop (predicateSQLClause mi) (predicates c) true "" [].

(** ** Declaration of a many-to-many field *)

(** The attributes of [Many2ManyField] that end up in the attributes of
    [Field] kept here; a [Methoder] is the name of the method, if any. *)
Record Many2ManyField : Type := mkMany2ManyField {
  mf_JSON : string;
  mf_Stored : bool;
  mf_Required : bool;
  mf_Compute : option string;
  mf_Inverse : option string;
  mf_RelationModel : string;
  mf_M2MLinkModelName : string;
  mf_M2MOurField : string;
  mf_M2MTheirField : string
}.

(** [sort.Strings] on a slice of two strings. *)
Definition sortStrings2 (a b : string) : string * string :=
  match String.compare a b with
  | Gt => (b, a)
  | _ => (a, b)
  end.

(** The name of the link model that [Many2ManyField.DeclareField] computes
    from the two endpoint names. *)
Definition m2mRelModName (linkModelName our their : string) : string :=
  let modelNames := sortStrings2 our their in
  if bool_decide (linkModelName = "") then modelNames.1 +:+ modelNames.2 +:+ "Rel"
  else linkModelName.

(** Modelled from the spec: [createM2MRelModelInfo] is not part of the
    sources at hand. It yields the link model of the relation and its two
    endpoint fields, the first pointing to our model and the second to the
    other one; here the link model is its name and the two fields are
    their names. *)
Definition createM2MRelModelInfo (relModelName model1 model2 field1 field2 : string)
  : string * string * string :=
  (relModelName, field1, field2).

(** The default JSON name of a field is computed outside the sources at
    hand. *)
Variable snakeCaseFieldName : string -> FieldType -> string.

(** [getJSONAndString], JSON part. *)
Definition getJSON (name : string) (typ : FieldType) (json : string) : string :=
  if bool_decide (json = "") then snakeCaseFieldName name typ else json.

(** The names of the two endpoints of the relation in
    [Many2ManyField.DeclareField]: the names given, or else the names of
    the declaring model and of the related model. *)
Definition ourName (mf : Many2ManyField) (fcModel : string) : string :=
  if bool_decide (mf_M2MOurField mf = "") then fcModel else mf_M2MOurField mf.

Definition theirName (mf : Many2ManyField) : string :=
  if bool_decide (mf_M2MTheirField mf = "") then mf_RelationModel mf
  else mf_M2MTheirField mf.

(** [Many2ManyField.DeclareField] on the fields collection of the model
    [fcModel]. *)
Definition DeclareField (mf : Many2ManyField) (fcModel : string) (name : string)
  : result Field :=
  let our := ourName mf fcModel in
  let their := theirName mf in
  if bool_decide (our = their) then
    Panic "Many2many relation must have different 'M2MOurField' and 'M2MTheirField'"
  else
    let relName := m2mRelModName (mf_M2MLinkModelName mf) our their in
    let '(m2mRelModel, m2mOurField, m2mTheirField) :=
      createM2MRelModelInfo relName fcModel (mf_RelationModel mf) our their in
    Ok {| model := fcModel;
          name := name;
          json := getJSON name Float (mf_JSON mf);
          fieldType := Many2Many;
          stored := mf_Stored mf;
          required := mf_Required mf;
          compute := default "" (mf_Compute mf);
          inverse := default "" (mf_Inverse mf);
          relatedModelName := mf_RelationModel mf;
          reverseFK := "";
          jsonReverseFK := "";
          m2mRelModel := m2mRelModel;
          m2mOurField := m2mOurField;
          m2mTheirField := m2mTheirField |}.

(** ** Computed fields: reading *)

(** [security.Permission] and its constants. *)
Definition Permission : Type := Z.
Definition Read : Permission := Z.shiftl 1 0.
Definition Write : Permission := Z.shiftl 1 1.
Definition Unlink : Permission := Z.shiftl 1 2.
Definition All : Permission := Z.lor (Z.lor Read Write) Unlink.

(** Collaborators of [computeFieldValues] declared outside the sources at
    hand: the list of the computed fields of a model among the given
    names, the permission oracle, and the call of a compute method on the
    record [(model, id)], which yields the field map of the values it
    computed. *)
Variable getComputedFields : string -> list string -> list Field.
Variable checkFieldPermission : Field -> Z -> Permission -> bool.
Variable callCompute : string -> Z -> string -> FieldMap.

(** What [computeFieldValues] reads and writes: the field map [params]
    it is given, the cache of the environment, and (for the statements
    only) the compute methods invoked so far. *)
Record cfState : Type := mkCfState {
  cf_params : FieldMap;
  cf_cache : cache;
  cf_calls : list string
}.

(** The body of the loop of [computeFieldValues] on the field [fInfo] of
    the record [(mi, id)], for the user [uid]. *)
Definition computeFieldStep (fuel : nat) (uid : Z) (mi : string) (id : Z)
    (st : cfState) (fInfo : Field) : result cfState :=
  if negb (checkFieldPermission fInfo uid Read) then Ok st
  else if bool_decide (is_Some (cf_params st !! name fInfo)) then Ok st
  else
    inCache ← checkIfInCache fuel (cf_cache st) mi [id] [name fInfo];
    if inCache : bool then
      v ← get fuel (cf_cache st) mi id (name fInfo);
      Ok (mkCfState (<[json fInfo := v]> (cf_params st)) (cf_cache st) (cf_calls st))
    else
      let newParams := callCompute mi id (compute fInfo) in
      foldM (fun st '(k, v) =>
               m ← deref mi;
               match fields_Get (fields m) k with
               | None => Panic "nil Field"
               | Some key =>
                   r ← updateEntry fuel (cf_cache st) mi id (name fInfo) v;
                   Ok (mkCfState (<[json key := v]> (cf_params st)) r.1 (cf_calls st))
               end)
            (mkCfState (cf_params st) (cf_cache st) (cf_calls st ++ [compute fInfo]))
            (map_to_list newParams).

(** [RecordCollection.computeFieldValues] on the collection of the model
    [mi] with the given ids. *)
Definition computeFieldValues (fuel : nat) (uid : Z) (mi : string) (ids : list Z)
    (st : cfState) (fieldNames : list string) : result cfState :=
  match ids with
  | [id] => foldM (computeFieldStep fuel uid mi id) st (getComputedFields mi fieldNames)
  | _ => Panic "Expected singleton"
  end.

(** ** Computed fields: inverse methods *)

(** The context of the environment and its two lookups, the lookup of a
    field in a field map by its JSON name, and the zero test of a value
    are declared outside the sources at hand. *)
Variable Context : Type.
Variable HasKey : Context -> string -> bool.
Variable GetBool : Context -> string -> bool.
Variable FieldMap_Get : FieldMap -> string -> string -> option value.
Variable IsZero : value -> bool.

(** Modelled from the spec: [Field.isComputedField] is not part of the
    sources at hand. A computed field is one that has a compute
    function. *)
Definition isComputedField (fi : Field) : bool := bool_decide (compute fi ≠ "").

(** The body of the loop of [processInverseMethods] on the key
    [fieldName]; [log] is the list of the calls [rc.CallMulti(method, val)]
    made so far. *)
Definition processInverseStep (ctx : Context) (mi : string) (fMap : FieldMap)
    (log : list (string * value)) (fieldName : string) : result (list (string * value)) :=
  fi ← getRelatedFieldInfo mi fieldName;
  if negb (isComputedField fi) || HasKey ctx "doxa_force_compute_write" then Ok log
  else
    match FieldMap_Get fMap (json fi) (model fi) with
    | None => Ok log
    | Some val =>
        if bool_decide (inverse fi = "") then
          if GetBool ctx "doxa_allow_without_inverse" then Ok log
          else if IsZero val then Ok log
          else Panic "Trying to write a computed field without inverse method"
        else Ok (log ++ [(inverse fi, val)])
    end.

(** [RecordCollection.processInverseMethods]. *)
Definition processInverseMethods (ctx : Context) (mi : string) (fMap : FieldMap)
  : result (list (string * value)) :=
  foldM (processInverseStep ctx mi fMap) [] (map_to_list fMap).*1.

(** ** Computed fields: recomputation of stored fields *)

(** The store behind the records (database and environment), the read of
    a field of a record, the call of a compute method followed by
    [FieldMap(fieldsToReset...)], and the [Write] method are declared
    outside the sources at hand. *)
Variable Store : Type.
Variable recGet : Store -> string -> Z -> string -> value.
Variable computeVals : Store -> string -> Z -> string -> list string -> FieldMap.
Variable recWrite : Store -> string -> Z -> FieldMap -> list string -> result Store.

(** Modelled from the spec: [RecordCollection.Equals] is not part of the
    sources at hand. Two collections are equal when their underlying id
    collections are equal as sets. *)
Definition Equals (ids1 ids2 : list Z) : bool :=
  bool_decide ((list_to_set ids1 : gset Z) = list_to_set ids2).

(** [a != b] on two [interface{}]: two values of the same slice type are
    not comparable, which is a run-time panic. *)
Definition ifaceNeq (a b : value) : result bool :=
  match a, b with
  | VIds _, VIds _ => Panic "comparing uncomparable type []int64"
  | _, _ => Ok (bool_decide (a ≠ b))
  end.

(** The loop "Check if the values actually changed" of
    [updateStoredFields], on the entries of [vals] in the order [l];
    [cur f] is [rec.Get(f)]. *)
Fixpoint checkChanged (cur : string -> value) (l : list (string * value)) : result bool :=
  match l with
  | [] => Ok false
  | (f, v) :: l' =>
      if bool_decide (f = "write_date") then checkChanged cur l'
      else
        match cur f with
        | VRecordSet _ ids =>
            match v with
            | VRecordSet _ ids' =>
                if negb (Equals ids ids') then Ok true else checkChanged cur l'
            | _ => Panic "interface conversion: interface {} is not RecordSet"
            end
        | c =>
            b ← ifaceNeq c v;
            if b : bool then Ok true else checkChanged cur l'
        end
  end.

(** What [updateStoredFields] did: the calls of the compute method and
    the writes, in order. *)
Inductive event : Type :=
  | Computed (id : Z) (method : string)
  | Written (id : Z) (vals : FieldMap).

(** *** Statements about the comparison of [updateStoredFields] *)

(** The comparison of the current value with the computed value that the
    loop makes on one entry: true when they differ, [None] when the
    comparison panics. *)
Definition compareEntry (cur v : value) : option bool :=
  match cur with
  | VRecordSet _ ids =>
      match v with
      | VRecordSet _ ids' => Some (negb (Equals ids ids'))
      | _ => None
      end
  | c => match ifaceNeq c v with Ok b => Some b | _ => None end
  end.

(** The computed value [v] is the same as the current value [cur]: equal
    values, and for two record sets the same set of ids. *)
Definition sameValue (cur v : value) : Prop :=
  match cur, v with
  | VRecordSet _ ids, VRecordSet _ ids' => (list_to_set ids : gset Z) = list_to_set ids'
  | VRecordSet _ _, _ => False
  | VIds _, VIds _ => False
  | _, _ => cur = v
  end.

(** The computed value [v] differs from the current value [cur]. *)
Definition changedValue (cur v : value) : Prop :=
  match cur, v with
  | VRecordSet _ ids, VRecordSet _ ids' => (list_to_set ids : gset Z) ≠ list_to_set ids'
  | VRecordSet _ _, _ => False
  | VIds _, VIds _ => False
  | _, _ => cur ≠ v
  end.

(** The two values can be compared without a panic: a record set is
    compared with a record set, and no two slices are compared. *)
Definition comparable (cur v : value) : Prop :=
  match cur, v with
  | VRecordSet _ _, VRecordSet _ _ => True
  | VRecordSet _ _, _ => False
  | VIds _, VIds _ => False
  | _, _ => True
  end.

(** The records on which the compute method was called, in order. *)
Definition computedRecords (trace : list event) : list Z :=
  omap (fun e => match e with Computed id _ => Some id | Written _ _ => None end) trace.

(** The records that were written, in order. *)
Definition writtenRecords (trace : list event) : list Z :=
  omap (fun e => match e with Written id _ => Some id | Computed _ _ => None end) trace.

(** The body of the loop of [updateStoredFields] on the record [rec] of
    the model [mi]. *)
Definition updateStoredStep (mi : string) (computeMethod : string)
    (fieldsToReset : list string) (st : Store * list event) (rec : Z)
  : result (Store * list event) :=
  let '(s, trace) := st in
  let vals := computeVals s mi rec computeMethod fieldsToReset in
  let trace := trace ++ [Computed rec computeMethod] in
  doUpdate ← checkChanged (recGet s mi rec) (map_to_list vals);
  if doUpdate : bool then
    s' ← recWrite s mi rec vals fieldsToReset;
    Ok (s', trace ++ [Written rec vals])
  else Ok (s, trace).

(** [updateStoredFields] on the records [recs] of the model [mi]. *)
Definition updateStoredFields (mi : string) (recs : list Z) (computeMethod : string)
    (fieldsToReset : list string) (st : Store * list event)
  : result (Store * list event) :=
  foldM (updateStoredStep mi computeMethod fieldsToReset) st recs.

End Schema.

(** ** A small schema used to run the definitions *)

Module Demo.

Definition field (mi name json : string) (t : FieldType) : Field :=
  {| model := mi; name := name; json := json; fieldType := t;
     stored := true; required := false; compute := ""; inverse := "";
     relatedModelName := ""; reverseFK := ""; jsonReverseFK := "";
     m2mRelModel := ""; m2mOurField := ""; m2mTheirField := "" |}.

Definition relField (mi name json : string) (t : FieldType) (req : bool)
    (rel rfk jrfk : string) : Field :=
  {| model := mi; name := name; json := json; fieldType := t;
     stored := true; required := req; compute := ""; inverse := "";
     relatedModelName := rel; reverseFK := rfk; jsonReverseFK := jrfk;
     m2mRelModel := ""; m2mOurField := ""; m2mTheirField := "" |}.

Definition m2mField (mi name json rel link our their : string) : Field :=
  {| model := mi; name := name; json := json; fieldType := Many2Many;
     stored := true; required := false; compute := ""; inverse := "";
     relatedModelName := rel; reverseFK := ""; jsonReverseFK := "";
     m2mRelModel := link; m2mOurField := our; m2mTheirField := their |}.

Definition computedField (mi name json : string) (t : FieldType)
    (compute inverse : string) : Field :=
  {| model := mi; name := name; json := json; fieldType := t;
     stored := false; required := false; compute := compute; inverse := inverse;
     relatedModelName := ""; reverseFK := ""; jsonReverseFK := "";
     m2mRelModel := ""; m2mOurField := ""; m2mTheirField := "" |}.

Definition Post_Tags : Field :=
  m2mField "Post" "Tags" "tags_ids" "Tag" "PostTagRel" "Post" "Tag".

Definition Tag_Posts : Field :=
  m2mField "Tag" "Posts" "posts_ids" "Post" "PostTagRel" "Tag" "Post".

Definition User_Posts : Field :=
  relField "User" "Posts" "posts_ids" One2Many false "Post" "User" "user_id".

Definition Post_User : Field :=
  relField "Post" "User" "user_id" Many2One true "User" "" "".

Definition User : Model :=
  {| modelName := "User"; tableName := "user";
     fields :=
       [ field "User" "ID" "id" Integer;
         field "User" "Name" "name" Char;
         relField "User" "Profile" "profile_id" Many2One false "Profile" "" "";
         User_Posts;
         computedField "User" "Age" "age" Integer "ComputeAge" "InverseSetAge";
         computedField "User" "DecoratedName" "decorated_name" Char "ComputeDecoratedName" "";
         computedField "User" "DisplayName" "display_name" Char "ComputeDecoratedName" "" ] |}.

Definition Profile : Model :=
  {| modelName := "Profile"; tableName := "profile";
     fields :=
       [ field "Profile" "ID" "id" Integer;
         field "Profile" "City" "city" Char ] |}.

Definition Post : Model :=
  {| modelName := "Post"; tableName := "post";
     fields :=
       [ field "Post" "ID" "id" Integer;
         field "Post" "Title" "title" Char;
         Post_User;
         Post_Tags ] |}.

Definition Tag : Model :=
  {| modelName := "Tag"; tableName := "tag";
     fields :=
       [ field "Tag" "ID" "id" Integer;
         field "Tag" "Name" "name" Char;
         Tag_Posts ] |}.

Definition PostTagRel : Model :=
  {| modelName := "PostTagRel"; tableName := "post_tag_rel";
     fields :=
       [ field "PostTagRel" "ID" "id" Integer;
         relField "PostTagRel" "Post" "post_id" Many2One true "Post" "" "";
         relField "PostTagRel" "Tag" "tag_id" Many2One true "Tag" "" "" ] |}.

Definition Registry : gmap string Model :=
  list_to_map
    [ ("User", User); ("Profile", Profile); ("Post", Post); ("Tag", Tag);
      ("PostTagRel", PostTagRel) ].

(** The quoting of the PostgreSQL adapter: the name between double
    quotes. *)
Definition dq : string := String (Ascii.ascii_of_nat 34) EmptyString.
Definition quoteTableName (s : string) : string := dq +:+ s +:+ dq.

Definition sqlSep : string := "__".

(** Integers cast to themselves; nothing else is a number here. *)
Definition CastToInteger (v : value) : option Z :=
  match v with
  | VInt64 n | VInt n => Some n
  | _ => None
  end.

Definition IsEmpty (c : Condition) : bool :=
  match predicates c with [] => true | _ => false end.

Definition operatorSQL (op : operator.Operator) (arg : value) : string * value :=
  (match op with
   | operator.Equals => "= ?"
   | operator.NotEquals => "!= ?"
   | operator.Greater => "> ?"
   | operator.Lower => "< ?"
   | _ => "LIKE ?"
   end, arg).

(** The computed fields that are not stored, among the given names or
    all of them. *)
Definition getComputedFields (mi : string) (names : list string) : list Field :=
  match Registry !! mi with
  | None => []
  | Some m =>
      filter (fun fi =>
                compute fi ≠ "" /\ stored fi = false
                /\ (names = [] \/ name fi ∈ names \/ json fi ∈ names))
             (fields m)
  end.

(** Everybody may read every field but [DisplayName]. *)
Definition checkFieldPermission (fi : Field) (uid : Z) (perm : Permission) : bool :=
  negb (bool_decide (name fi = "DisplayName")).

(** [ComputeDecoratedName] computes the two name fields at once. *)
Definition callCompute (mi : string) (id : Z) (method : string) : FieldMap :=
  if bool_decide (method = "ComputeDecoratedName") then
    {[ "decorated_name" := VString "Dr Ann"; "display_name" := VString "Ann" ]}
  else if bool_decide (method = "ComputeAge") then {[ "age" := VInt 30 ]}
  else ∅.

(** A context is a map from keys to values. *)
Definition HasKey (ctx : gmap string value) (k : string) : bool :=
  bool_decide (is_Some (ctx !! k)).

Definition GetBool (ctx : gmap string value) (k : string) : bool :=
  match ctx !! k with
  | Some (VBool b) => b
  | _ => false
  end.

(** The value of a field in a field map, under its JSON name. *)
Definition FieldMap_Get (fMap : FieldMap) (json : string) (mi : string) : option value :=
  fMap !! json.

Definition IsZero (v : value) : bool :=
  match v with
  | VNil | VBool false | VInt64 0 | VInt 0 | VString "" | VIds [] => true
  | _ => false
  end.

(** A store in which each record holds a field map, and a write that
    merges the values written. *)
Definition recGet (s : gmap cacheRef FieldMap) (mi : string) (id : Z) (f : string) : value :=
  default VNil (s !! (mi, id) ≫= fun fm : FieldMap => fm !! f).

Definition recWrite (s : gmap cacheRef FieldMap) (mi : string) (id : Z) (vals : FieldMap)
    (fieldsToReset : list string) : result (gmap cacheRef FieldMap) :=
  Ok (<[(mi, id) := vals ∪ default ∅ (s !! (mi, id))]> s).

(** The total of an invoice is recomputed as 25, and stamped with a
    write date. *)
Definition computeVals (s : gmap cacheRef FieldMap) (mi : string) (id : Z)
    (method : string) (fieldsToReset : list string) : FieldMap :=
  {[ "total" := VInt 25; "write_date" := VString "2018-01-01" ]}.

(** The declarations of the tags of a post and of the posts of a tag,
    with the default names of the link model and of its fields. *)
Definition TagsDecl : Many2ManyField :=
  {| mf_JSON := "tags_ids"; mf_Stored := true; mf_Required := false;
     mf_Compute := None; mf_Inverse := None; mf_RelationModel := "Tag";
     mf_M2MLinkModelName := ""; mf_M2MOurField := ""; mf_M2MTheirField := "" |}.

Definition PostsDecl : Many2ManyField :=
  {| mf_JSON := "posts_ids"; mf_Stored := true; mf_Required := false;
     mf_Compute := None; mf_Inverse := None; mf_RelationModel := "Post";
     mf_M2MLinkModelName := ""; mf_M2MOurField := ""; mf_M2MTheirField := "" |}.

Definition snakeCaseFieldName (name : string) (typ : FieldType) : string := name.

(** A leaf predicate. *)
Definition leaf (exprs : list string) (op : operator.Operator) (arg : value) : predicate :=
  {| p_exprs := exprs; p_operator := op; p_arg := arg; p_cond := None;
     p_isOr := false; p_isNot := false; p_isCond := false |}.

End Demo.

(** * More of the embedding

    The rest of the record cache ([cache.getRecord]), the clauses and the
    statements of the query builder ([Query.sqlWhereClause],
    [Query.sqlLimitOffsetClause], [Query.sqlOrderByClause],
    [Query.sqlGroupByClause], [Query.getOrderByExpressions],
    [Query.deleteQuery], [Query.insertQuery], [Query.updateQuery],
    [Query.isEmpty], [Query.sideDataIsEmpty]) and the security groups of
    package [security] ([GroupCollection] and its methods). *)

(** ** The record cache: a whole record *)

Section CacheRecord.

Variable Registry : gmap string Model.

(** [cache.getRecord]: each key of the entry of the record (no key when
    the cache has no entry) is read through [cache.get]. *)
Definition getRecord (fuel : nat) (c : cache) (mi : string) (id : Z) : result FieldMap :=
  foldM (fun (res : FieldMap) fName =>
           v ← get Registry fuel c mi id fName;
           Ok (<[fName := v]> res))
        ∅
        (map_to_list (default ∅ (data c !! (mi, id)))).*1.

(** The body of the loops of [cache.checkIfInCache] on the id and the
    field name of [p]; [acc] is false once the answer is known to be
    no. *)
Definition checkIfInCacheStep (fuel : nat) (c : cache) (mi : string) (acc : bool)
    (p : Z * string) : result bool :=
  let '(id, fName) := p in
  if acc then
    r ← getRelatedRef Registry fuel c mi id fName;
    match r with
    | None => Ok false
    | Some (ref, path) =>
        Ok (bool_decide (is_Some (data c !! ref ≫= fun fm : FieldMap => fm !! path)))
    end
  else Ok false.

End CacheRecord.

(** *** Statements about a cell of the cache *)

(** The cache [c] in which the cell [k] of the entry of [ref] holds [v],
    the entry being created with its id when the cache has none. *)
Definition writeCell (c : cache) (ref : cacheRef) (k : string) (v : value) : cache :=
  mkCache (<[ref := <[k := v]> (default {["id" := VInt64 ref.2]} (data c !! ref))]> (data c))
          (m2mLinks c).

(** The value that the cache holds in the cell [k] of the entry of [ref],
    if any. *)
Definition cell (c : cache) (ref : cacheRef) (k : string) : option value :=
  data c !! ref ≫= fun fm : FieldMap => fm !! k.

(** A field whose value is stored in its own cell of the cache: neither
    one-to-many, nor reverse-one-to-one, nor many-to-many. *)
Definition storedInCell (fi : Field) : Prop :=
  fieldType fi ≠ One2Many /\ fieldType fi ≠ Rev2One /\ fieldType fi ≠ Many2Many.

(** ** Query builder: the clauses of a query *)

(** [for i, x := range l { res[i] = f(x) }] where the body may panic. *)
Fixpoint mapM {A B} (f : A -> result B) (l : list A) : result (list B) :=
  match l with
  | [] => Ok []
  | x :: l' => y ← f x; r ← mapM f l'; Ok (y :: r)
  end.

(** [strings.Split(s, sep)] for a separator of one byte: never empty. *)
Fixpoint SplitOn (sep : ascii) (s : string) : list string :=
  match s with
  | EmptyString => [EmptyString]
  | String c s' =>
      if Ascii.eqb c sep then EmptyString :: SplitOn sep s'
      else match SplitOn sep s' with
           | h :: t => String c h :: t
           | [] => [String c EmptyString]
           end
  end.

(** [strings.Repeat(s, count)], which panics on a negative count. *)
Definition Repeat (s : string) (count : Z) : result string :=
  if (count <? 0)%Z then Panic "strings: negative Repeat count"
  else Ok (String.concat "" (replicate (Z.to_nat count) s)).

(** [Query]: the part of a query that comes after the FROM keyword. The
    record set is kept as its model ([q.recordSet.model]), the only
    attribute of it that the functions embedded here read. *)
Record Query : Type := mkQuery {
  q_model : string;
  q_cond : Condition;
  q_fetchAll : bool;
  q_limit : Z;
  q_offset : Z;
  q_noDistinct : bool;
  q_groups : list string;
  q_orders : list string
}.

(** The values of the field map given to [insertQuery]: besides the
    values of [value], a value of dynamic type [*interface{}], which is
    how a null foreign key is passed. *)
Inductive dataValue : Type :=
  | DPointer
  | DValue (v : value).

Section QueryClauses.

Variable Registry : gmap string Model.
Variable quoteTableName : string -> string.
Variable sqlSep : string.
Variable IsEmpty : Condition -> bool.
Variable operatorSQL : operator.Operator -> value -> string * value.
Variable CastToInteger : value -> option Z.

(** Declared outside the sources at hand: [strings.TrimSpace], and the
    evaluation of the arguments of a condition that are functions, against
    the record set of the query ([Condition.evaluateArgFunctions]), which
    yields the condition that replaces [q.cond]. *)
Variable TrimSpace : string -> string.
Variable evaluateArgFunctions : Condition -> result Condition.

(** [Query.sqlWhereClause]. *)
Definition sqlWhereClause (q : Query) : result (string * SQLParams) :=
  c ← evaluateArgFunctions (q_cond q);
  '(sql, args) ← conditionSQLClause Registry quoteTableName sqlSep IsEmpty operatorSQL
                   CastToInteger (q_model q) c;
  Ok (if bool_decide (sql = "") then sql else "WHERE " +:+ sql, args).

(** [Query.sqlLimitOffsetClause]. *)
Definition sqlLimitOffsetClause (q : Query) : string :=
  let res := if (0 <? q_limit q)%Z then "LIMIT " +:+ pretty (q_limit q) +:+ " " else "" in
  if (0 <? q_offset q)%Z then res +:+ "OFFSET " +:+ pretty (q_offset q) else res.

(** The body of the first loop of [Query.sqlOrderByClause] on one order:
    the expressions of the field and the direction, if any. *)
Definition orderExprs (mi : string) (order : string) : result (list string * string) :=
  let fieldOrder := SplitOn " " (TrimSpace order) in
  oExprs ← jsonizeExpr Registry mi (Split (hd "" fieldOrder));
  Ok (oExprs, match fieldOrder with _ :: direction :: _ => direction | _ => "" end).

(** [Query.sqlOrderByClause]. *)
Definition sqlOrderByClause (q : Query) : result string :=
  l ← mapM (orderExprs (q_model q)) (q_orders q);
  resSlice ← mapM (fun '(field, direction) =>
                     s ← joinedFieldExpression Registry quoteTableName sqlSep
                           (q_model q) field false;
                     Ok (s +:+ " " +:+ direction))
                  l;
  if bool_decide (length resSlice = 0%nat) then Ok ""
  else Ok ("ORDER BY " +:+ String.concat ", " resSlice).

(** [Query.getOrderByExpressions]. *)
Definition getOrderByExpressions (q : Query) : result (list (list string)) :=
  mapM (fun order =>
          jsonizeExpr Registry (q_model q)
            (Split (hd "" (SplitOn " " (TrimSpace order)))))
       (q_orders q).

(** [Query.sqlGroupByClause]. *)
Definition sqlGroupByClause (q : Query) : result string :=
  fExprs ← mapM (fun group => jsonizeExpr Registry (q_model q) (Split group)) (q_groups q);
  resSlice ← mapM (fun field =>
                     joinedFieldExpression Registry quoteTableName sqlSep
                       (q_model q) field false)
                  fExprs;
  Ok ("GROUP BY " +:+ String.concat ", " resSlice).

(** [Query.deleteQuery]. *)
Definition deleteQuery (q : Query) : result (string * SQLParams) :=
  '(sql, args) ← sqlWhereClause q;
  m ← deref Registry (q_model q);
  Ok ("DELETE FROM " +:+ quoteTableName (tableName m) +:+ " " +:+ sql, args).

(** The body of the loop of [Query.insertQuery] on the entry [kv] of the
    data: [cols], [vals] and the counter [i]. *)
Definition insertStep (mi : string) (st : list string * list dataValue * Z)
    (kv : string * dataValue) : result (list string * list dataValue * Z) :=
  let '(cols, vals, i) := st in
  fi ← MustGet Registry mi kv.1;
  let isPointer := match kv.2 with DPointer => true | DValue _ => false end in
  if IsFKRelationType (fieldType fi) && negb (required fi) && isPointer then Ok st
  else Ok (cols ++ [json fi], vals ++ [kv.2], (i + 1)%Z).

(** [Query.insertQuery], for a query on the model [mi]. *)
Definition insertQuery (mi : string) (data : gmap string dataValue)
  : result (string * list dataValue) :=
  if bool_decide (size data = 0%nat) then Panic "No data given for insert"
  else
    '(cols, vals, i) ← foldM (insertStep mi) ([], [], 0%Z) (map_to_list data);
    m ← deref Registry mi;
    let tableName := quoteTableName (tableName m) in
    let fields := String.concat ", " cols in
    r ← Repeat ", ?" (i - 1);
    let values := "?" +:+ r in
    Ok ("INSERT INTO " +:+ tableName +:+ " (" +:+ fields +:+ ") VALUES (" +:+ values
        +:+ ") RETURNING id", vals).

(** The body of the loop of [Query.updateQuery]: the cells [cols[i]] and
    [vals[i]] are filled in the order of the range over the data. *)
Definition updateStep (mi : string) (st : list string * SQLParams) (kv : string * value)
  : result (list string * SQLParams) :=
  let '(cols, vals) := st in
  fi ← MustGet Registry mi kv.1;
  Ok (cols ++ [json fi +:+ " = ?"], vals ++ [kv.2]).

(** [Query.updateQuery]. *)
Definition updateQuery (q : Query) (data : FieldMap) : result (string * SQLParams) :=
  if bool_decide (size data = 0%nat) then Panic "No data given for update"
  else
    '(cols, vals) ← foldM (updateStep (q_model q)) ([], []) (map_to_list data);
    m ← deref Registry (q_model q);
    let tableName := quoteTableName (tableName m) in
    let updates := String.concat ", " cols in
    '(whereSQL, args) ← sqlWhereClause q;
    Ok ("UPDATE " +:+ tableName +:+ " SET " +:+ updates +:+ " " +:+ whereSQL, vals ++ args).

(** [Query.sideDataIsEmpty]. *)
Definition sideDataIsEmpty (q : Query) : bool :=
  if q_fetchAll q then false
  else if bool_decide (q_limit q ≠ 0%Z) then false
  else if bool_decide (q_offset q ≠ 0%Z) then false
  else if bool_decide (0 < length (q_groups q))%nat then false
  else if bool_decide (0 < length (q_orders q))%nat then false
  else true.

(** [Query.isEmpty]. *)
Definition isEmpty (q : Query) : bool :=
  if negb (IsEmpty (q_cond q)) then false else sideDataIsEmpty q.

(** *** Statements about the INSERT statement *)

(** The entry [kv] of the data is left out of the INSERT statement: a
    pointer given for a foreign key that is not required. *)
Definition skipped (mi : string) (kv : string * dataValue) : Prop :=
  exists fi, MustGet Registry mi kv.1 = Ok fi
             /\ IsFKRelationType (fieldType fi) = true /\ required fi = false
             /\ kv.2 = DPointer.

(** The entry [kv] of the data gives the column [col] of the INSERT
    statement, with its value. *)
Definition inserted (mi : string) (col : string) (kv : string * dataValue) : Prop :=
  exists fi, MustGet Registry mi kv.1 = Ok fi /\ col = json fi
             /\ ~ (IsFKRelationType (fieldType fi) = true /\ required fi = false
                   /\ kv.2 = DPointer).

(** *** Statements about the joins of a path *)

(** The [switch fi.fieldType] of the loop of [generateTableJoins] on the
    field [fi] of the segment [expr], whose related model is [rm]: the
    joins appended before the join to the related table, and the values
    of [curTJ], [alias], [field], [otherField] and [tjExpr] after it. *)
Definition joinPrelude (fi : Field) (rm : string) (expr : string) (curTJ : tableJoin)
    (alias : string) (tjExpr : string)
  : result (list tableJoin * tableJoin * string * string * string * string) :=
  match fieldType fi with
  | Many2One | One2One =>
      Ok (@nil tableJoin, curTJ, alias, "id", expr, tjExpr)
  | One2Many | Rev2One =>
      field ← jsonizePath Registry rm (reverseFK fi);
      Ok (@nil tableJoin, curTJ, alias, field, "id",
          if bool_decide (tjExpr = "") then "id" else tjExpr)
  | Many2Many =>
      rel ← deref Registry (m2mRelModel fi);
      ourCol ← jsonizePath Registry (m2mRelModel fi) (m2mOurField fi);
      theirCol ← jsonizePath Registry (m2mRelModel fi) (m2mTheirField fi);
      let tj := linkJoin quoteTableName sqlSep rel ourCol theirCol curTJ alias in
      Ok ([tj], tj, alias +:+ sqlSep +:+ tableName rel, "id", theirCol,
          if bool_decide (tjExpr = "") then "id" else tjExpr)
  | _ => Ok (@nil tableJoin, curTJ, alias, "", "", tjExpr)
  end.

End QueryClauses.

(** Every join of the list but the first is a joined table that hangs on
    the join just before it in the list. *)
Definition hangsOn (l : list tableJoin) : Prop :=
  forall (k : nat) (j : tableJoin),
    l !! S k = Some j -> tj_joined j = true /\ tj_otherTable j = l !! k.

(** ** Security groups (package [security]) *)

Module security.

(** [*Group]: the address of a group in memory, [None] for nil. *)
Abbreviation groupPtr := (option positive).

(** [Group]. *)
Record Group : Type := mkGroup {
  ID : string;
  Name : string;
  Inherits : list groupPtr
}.

(** [InheritanceInfo] and the constants of the block it is declared in:
    [iota] is the rank of the specification in the block, and three
    constants come before [NativeGroup]. *)
Definition InheritanceInfo : Type := Z.
Definition SuperUserID : Z := 1%Z.
Definition NativeGroup : InheritanceInfo := 3%Z.
Definition InheritedGroup : InheritanceInfo := 4%Z.

(** [GroupCollection]: [groups] is [map[string]*Group] and [memberships]
    is [map[int64]map[*Group]InheritanceInfo]. *)
Record GroupCollection : Type := mkGroupCollection {
  groups : gmap string groupPtr;
  memberships : gmap Z (gmap groupPtr InheritanceInfo)
}.

(** [NewGroupCollection]. *)
Definition NewGroupCollection : GroupCollection := mkGroupCollection ∅ ∅.

Section Groups.

(** The groups in memory, which the functions embedded here only read,
    and the two package variables [GroupAdmin] and [GroupEveryone]. *)
Variable heap : gmap positive Group.
Variable GroupAdmin : groupPtr.
Variable GroupEveryone : groupPtr.

(** Dereferencing a [*Group]. *)
Definition derefGroup (p : groupPtr) : result Group :=
  match p ≫= fun a => heap !! a with
  | Some g => Ok g
  | None => Panic "nil Group"
  end.

(** [GroupCollection.RegisterGroup]. *)
Definition RegisterGroup (gc : GroupCollection) (group : groupPtr) : result GroupCollection :=
  g ← derefGroup group;
  match groups gc !! ID g with
  | Some _ => Panic "Trying register a new group with an existing ID"
  | None => Ok (mkGroupCollection (<[ID g := group]> (groups gc)) (memberships gc))
  end.

(** [GroupCollection.GetGroup]: nil when the id is not found. *)
Definition GetGroup (gc : GroupCollection) (groupID : string) : groupPtr :=
  default None (groups gc !! groupID).

(** [GroupCollection.inheritedBy]: the parents of the group are appended
    to the slice [res] ([*result]), each followed by its own parents. *)
Fixpoint inheritedBy (fuel : nat) (group : groupPtr) (res : list groupPtr)
  : result (list groupPtr) :=
  match fuel with
  | O => OutOfFuel
  | S fuel' =>
      g ← derefGroup group;
      foldM (fun res parent => inheritedBy fuel' parent (res ++ [parent]))
            res (Inherits g)
  end.

(** [gc.memberships[uid][group] = mode], the inner map being created
    when the user has none. *)
Definition setMembership (gc : GroupCollection) (uid : Z) (group : groupPtr)
    (mode : InheritanceInfo) : GroupCollection :=
  mkGroupCollection (groups gc)
    (<[uid := <[group := mode]> (default ∅ (memberships gc !! uid))]> (memberships gc)).

(** [GroupCollection.AddMembership]; [inherit] is the optional
    argument. *)
Fixpoint AddMembership (fuel : nat) (gc : GroupCollection) (uid : Z) (group : groupPtr)
    (inherit : bool) : result GroupCollection :=
  match fuel with
  | O => OutOfFuel
  | S fuel' =>
      inheritingGroups ← inheritedBy fuel group [];
      gc ← foldM (fun gc grp => AddMembership fuel' gc uid grp true) gc inheritingGroups;
      let mode := if inherit then InheritedGroup else NativeGroup in
      Ok (setMembership gc uid group mode)
  end.

(** [GroupCollection.doRemoveAllMembershipsForUser]. *)
Definition doRemoveAllMembershipsForUser (gc : GroupCollection) (uid : Z) : GroupCollection :=
  mkGroupCollection (groups gc) (delete uid (memberships gc)).

(** [GroupCollection.RemoveAllMembershipsForUser]. *)
Definition RemoveAllMembershipsForUser (fuel : nat) (gc : GroupCollection) (uid : Z)
  : result GroupCollection :=
  let gc := doRemoveAllMembershipsForUser gc uid in
  if bool_decide (uid = SuperUserID) then AddMembership fuel gc SuperUserID GroupAdmin false
  else Ok gc.

(** [gc.memberships[uid][group]], if any. *)
Definition membership (gc : GroupCollection) (uid : Z) (group : groupPtr)
  : option InheritanceInfo :=
  memberships gc !! uid ≫= fun m : gmap groupPtr InheritanceInfo => m !! group.

(** [GroupCollection.HasMembership]. *)
Definition HasMembership (gc : GroupCollection) (uid : Z) (group : groupPtr) : bool :=
  if bool_decide (group = GroupEveryone) then true
  else bool_decide (is_Some (membership gc uid group)).

(** [GroupCollection.UserGroups]. *)
Definition UserGroups (gc : GroupCollection) (uid : Z) : gmap groupPtr InheritanceInfo :=
  <[GroupEveryone := NativeGroup]> (default ∅ (memberships gc !! uid)).

End Groups.

End security.

(** ** More of the small schema used to run the definitions *)

Module DemoMore.

(** White space of one byte trimmed at both ends. *)
Definition isSpace (c : ascii) : bool :=
  let n := Ascii.nat_of_ascii c in
  (Nat.leb 9 n && Nat.leb n 13) || Nat.eqb n 32.

Fixpoint TrimRight (s : string) : string :=
  match s with
  | EmptyString => EmptyString
  | String c s' =>
      match TrimRight s' with
      | EmptyString => if isSpace c then EmptyString else String c EmptyString
      | r => String c r
      end
  end.

Fixpoint TrimLeft (s : string) : string :=
  match s with
  | EmptyString => EmptyString
  | String c s' => if isSpace c then TrimLeft s' else s
  end.

Definition TrimSpace (s : string) : string := TrimRight (TrimLeft s).

(** No argument of the conditions used here is a function. *)
Definition evaluateArgFunctions (c : Condition) : result Condition := Ok c.

(** The posts of the user 7. *)
Definition postsOfUser : Query :=
  {| q_model := "Post";
     q_cond := mkCondition [Demo.leaf ["User"] operator.Equals (VInt64 7)];
     q_fetchAll := false; q_limit := 0; q_offset := 0; q_noDistinct := false;
     q_groups := []; q_orders := [] |}.

(** All the posts. *)
Definition allPosts : Query :=
  {| q_model := "Post"; q_cond := mkCondition [];
     q_fetchAll := false; q_limit := 0; q_offset := 0; q_noDistinct := false;
     q_groups := []; q_orders := [] |}.

(** Three groups in memory, the admins inheriting from the managers and
    the managers from the users, and the group of everyone. *)
Definition heap : gmap positive security.Group :=
  list_to_map
    [ (1%positive, security.mkGroup "user" "Users" []);
      (2%positive, security.mkGroup "manager" "Managers" [Some 1%positive]);
      (3%positive, security.mkGroup "admin" "Admins" [Some 2%positive]);
      (4%positive, security.mkGroup "everyone" "Everyone" []) ].

Definition GroupAdmin : security.groupPtr := Some 3%positive.
Definition GroupEveryone : security.groupPtr := Some 4%positive.

End DemoMore.

(** * Properties *)

(** ** Schema lookups *)

Section SchemaFacts.

Variable R : gmap string Model.

Lemma fields_Get_elem (fs : list Field) (n : string) (f : Field) :
  fields_Get fs n = Some f -> f ∈ fs.
Proof.
  unfold fields_Get. intros H.
  destruct (find _ fs) as [g|] eqn:E.
  - inversion H; subst. apply find_some in E as [E _]. by apply list_elem_of_In.
  - apply find_some in H as [H _]. by apply list_elem_of_In.
Qed.

Lemma MustGet_elem (mi n : string) (f : Field) :
  MustGet R mi n = Ok f -> exists m, R !! mi = Some m /\ f ∈ fields m.
Proof.
  unfold MustGet, deref. destruct (R !! mi) as [m|]; simpl; [|done].
  destruct (fields_Get (fields m) n) as [g|] eqn:E; [|done].
  intros [= <-]. exists m. split; [done|]. by eapply fields_Get_elem.
Qed.

(** A path of one segment resolves to the record itself and the JSON name
    of the field, whatever the cache holds. *)
Lemma getRelatedRef_single (fuel : nat) (c : cache) (mi : string) (id : Z)
    (f : string) (fi : Field) :
  Split f = [f] -> MustGet R mi f = Ok fi ->
  getRelatedRef R (S fuel) c mi id f = Ok (Some ((mi, id), json fi)).
Proof.
  intros HS HG. simpl. rewrite HS. simpl. rewrite HG. reflexivity.
Qed.

End SchemaFacts.

(** ** Many-to-many links of the cache *)

Section LinkFacts.

Lemma Compare_cases (a b : string) :
  (Compare a b = (-1)%Z \/ Compare a b = 0%Z \/ Compare a b = 1%Z).
Proof. unfold Compare. destruct (String.compare a b); auto. Qed.

Lemma Compare_eq (a b : string) : Compare a b = 0%Z <-> a = b.
Proof.
  unfold Compare. split.
  - destruct (String.compare a b) eqn:E; intros H; try discriminate H.
    by apply String.compare_eq_iff.
  - intros ->. pose proof (String.compare_antisym b b) as H.
    destruct (String.compare b b); done.
Qed.

Lemma Compare_antisym (a b : string) : Compare b a = (- Compare a b)%Z.
Proof.
  unfold Compare. rewrite (String.compare_antisym a b).
  destruct (String.compare b a); reflexivity.
Qed.

(** The two indexes are 0 and 1, in one order or the other. *)
Lemma index_cases (fi : Field) :
  (ourIndex fi = 0%Z /\ theirIndex fi = 1%Z) \/ (ourIndex fi = 1%Z /\ theirIndex fi = 0%Z).
Proof.
  unfold theirIndex, ourIndex.
  destruct (Compare_cases (m2mOurField fi) (m2mTheirField fi)) as [-> | [-> | ->]];
    vm_compute; auto.
Qed.

Lemma newLinkOf_our (fi : Field) (id val : Z) :
  linkAt (newLinkOf fi id val) (ourIndex fi) = id.
Proof.
  unfold newLinkOf. destruct (index_cases fi) as [[-> ->] | [-> ->]]; reflexivity.
Qed.

Lemma newLinkOf_their (fi : Field) (id val : Z) :
  linkAt (newLinkOf fi id val) (theirIndex fi) = val.
Proof.
  unfold newLinkOf. destruct (index_cases fi) as [[-> ->] | [-> ->]]; reflexivity.
Qed.

(** For the paired field, which names the two endpoints the other way
    round, the two indexes are exchanged. *)
Lemma paired_index (fi fi' : Field) :
  m2mOurField fi' = m2mTheirField fi ->
  m2mTheirField fi' = m2mOurField fi ->
  m2mOurField fi ≠ m2mTheirField fi ->
  ourIndex fi' = theirIndex fi /\ theirIndex fi' = ourIndex fi.
Proof.
  intros Ho Ht Hne. unfold theirIndex, ourIndex. rewrite Ho, Ht.
  rewrite (Compare_antisym (m2mOurField fi) (m2mTheirField fi)).
  assert (Compare (m2mOurField fi) (m2mTheirField fi) ≠ 0%Z) as H0
    by (rewrite Compare_eq; exact Hne).
  destruct (Compare_cases (m2mOurField fi) (m2mTheirField fi)) as [E | [E | E]];
    rewrite E in *; [vm_compute; auto | done | vm_compute; auto].
Qed.

Lemma elem_of_addLinks (fi : Field) (id : Z) (values : list Z)
    (links : gset (Z * Z)) (link : Z * Z) :
  link ∈ foldl (fun (acc : gset (Z * Z)) val => {[newLinkOf fi id val]} ∪ acc)
               links values
  <-> link ∈ links \/ exists val, val ∈ values /\ link = newLinkOf fi id val.
Proof.
  revert links. induction values as [|v values IH]; intros links; simpl.
  - split; [auto|]. intros [H | (val & H & _)]; [done|]. by apply elem_of_nil in H.
  - rewrite IH. split.
    + intros [H | (val & H & ->)].
      * apply elem_of_union in H as [H | H]; [|auto].
        apply elem_of_singleton in H. right. exists v. split; [left|done].
      * right. exists val. split; [by right|done].
    + intros [H | (val & H & ->)].
      * left. apply elem_of_union. by right.
      * apply elem_of_cons in H as [-> | H].
        { left. apply elem_of_union. left. by apply elem_of_singleton. }
        right. exists val. done.
Qed.

(** The links of a record: membership in the result of [getM2MLinks]. *)
Lemma elem_of_getM2MLinks (c : cache) (fi : Field) (id x : Z) :
  x ∈ getM2MLinks c fi id
  <-> exists links link, m2mLinks c !! m2mRelModel fi = Some links /\ link ∈ links
        /\ linkAt link (ourIndex fi) = id /\ linkAt link (theirIndex fi) = x.
Proof.
  unfold getM2MLinks. destruct (m2mLinks c !! m2mRelModel fi) as [links|].
  - rewrite list_elem_of_omap. split.
    + intros (link & Hin & Hf). apply elem_of_elements in Hin.
      case_bool_decide; [|done]. inversion Hf; subst. by exists links, link.
    + intros (links' & link & [= <-] & Hin & Ho & Ht). exists link.
      rewrite elem_of_elements. split; [done|]. by rewrite bool_decide_eq_true_2, Ht.
  - split; [intros H; by apply elem_of_nil in H|]. by intros (? & ? & ? & _).
Qed.

Lemma addM2MLink_links (c : cache) (fi : Field) (id : Z) (values : list Z) :
  exists links',
    m2mLinks (addM2MLink c fi id values) !! m2mRelModel fi = Some links'
    /\ forall link, link ∈ links'
         <-> link ∈ default ∅ (m2mLinks c !! m2mRelModel fi)
             \/ exists val, val ∈ values /\ link = newLinkOf fi id val.
Proof.
  unfold addM2MLink. simpl. eexists. rewrite lookup_insert_eq. split; [done|].
  intros link. apply elem_of_addLinks.
Qed.

(** After [addM2MLink], the links of the record are the values added and
    the links it already had. *)
Lemma getM2MLinks_addM2MLink (c : cache) (fi : Field) (id : Z) (values : list Z) (x : Z) :
  x ∈ getM2MLinks (addM2MLink c fi id values) fi id
  <-> x ∈ values \/ x ∈ getM2MLinks c fi id.
Proof.
  rewrite !elem_of_getM2MLinks.
  destruct (addM2MLink_links c fi id values) as (links' & Hl & Hin).
  split.
  - intros (links & link & Hl' & Hlink & Ho & Ht).
    rewrite Hl in Hl'. inversion Hl'; subst links.
    apply Hin in Hlink as [Hlink | (val & Hval & ->)].
    + right. destruct (m2mLinks c !! m2mRelModel fi) as [links|]; [|set_solver].
      by exists links, link.
    + left. by rewrite newLinkOf_their in Ht; subst.
  - intros [Hx | (links & link & Hl' & Hlink & Ho & Ht)].
    + exists links', (newLinkOf fi id x). split; [done|]. split.
      * apply Hin. right. by exists x.
      * by rewrite newLinkOf_our, newLinkOf_their.
    + exists links', link. split; [done|]. split; [|done].
      apply Hin. left. by rewrite Hl'.
Qed.

(** Seen from the paired field, each value added is linked to the
    record. *)
Lemma getM2MLinks_addM2MLink_paired (c : cache) (fi fi' : Field) (id : Z)
    (values : list Z) (x : Z) :
  m2mRelModel fi' = m2mRelModel fi ->
  m2mOurField fi' = m2mTheirField fi ->
  m2mTheirField fi' = m2mOurField fi ->
  m2mOurField fi ≠ m2mTheirField fi ->
  x ∈ values ->
  id ∈ getM2MLinks (addM2MLink c fi id values) fi' x.
Proof.
  intros Hrel Ho Ht Hne Hx. apply elem_of_getM2MLinks.
  destruct (addM2MLink_links c fi id values) as (links' & Hl & Hin).
  destruct (paired_index fi fi' Ho Ht Hne) as [-> ->].
  exists links', (newLinkOf fi id x). rewrite Hrel. split; [done|]. split.
  - apply Hin. right. by exists x.
  - by rewrite newLinkOf_our, newLinkOf_their.
Qed.

(** After [removeM2MLinks], the record has no link left on the field. *)
Lemma getM2MLinks_removeM2MLinks (c : cache) (fi : Field) (id : Z) :
  getM2MLinks (removeM2MLinks c fi id) fi id = [].
Proof.
  apply elem_of_nil_inv. intros x Hx. apply elem_of_getM2MLinks in Hx
    as (links & link & Hl & Hin & Ho & _).
  unfold removeM2MLinks in Hl.
  destruct (m2mLinks c !! m2mRelModel fi) as [links0|] eqn:E; simpl in Hl.
  - rewrite lookup_insert_eq in Hl. inversion Hl; subst links.
    apply elem_of_filter in Hin as [Hne _]. done.
  - by rewrite E in Hl.
Qed.

End LinkFacts.

(** ** Round trip through the cache *)

Section CacheRoundTrip.

Variable R : gmap string Model.

Lemma getM2MLinks_ext (c c' : cache) (fi : Field) (id : Z) :
  m2mLinks c = m2mLinks c' -> getM2MLinks c fi id = getM2MLinks c' fi id.
Proof. unfold getM2MLinks. by intros ->. Qed.

Lemma ensureEntry_is_Some (c : cache) (ref : cacheRef) :
  is_Some (data (ensureEntry c ref) !! ref).
Proof.
  unfold ensureEntry. destruct (data c !! ref) eqn:E; [by rewrite E|].
  simpl. by rewrite lookup_insert_eq.
Qed.

Lemma setEntry_Ok (c : cache) (ref : cacheRef) (k : string) (v : value) :
  is_Some (data c !! ref) ->
  exists c', setEntry c ref k v = Ok c'
    /\ m2mLinks c' = m2mLinks c
    /\ (data c' !! ref ≫= fun fm : FieldMap => fm !! k) = Some v.
Proof.
  intros [fm Hfm]. unfold setEntry. rewrite Hfm. eexists. split; [done|].
  simpl. split; [done|]. rewrite lookup_insert_eq. simpl. by rewrite lookup_insert_eq.
Qed.

Lemma updateEntryByRef_default (fuel : nat) (c : cache) (ref : cacheRef)
    (jsonName : string) (v : value) (fi : Field) :
  MustGet R ref.1 jsonName = Ok fi ->
  fieldType fi ≠ One2Many -> fieldType fi ≠ Rev2One -> fieldType fi ≠ Many2Many ->
  updateEntryByRef R (S fuel) c ref jsonName v
  = setEntry (ensureEntry c ref) ref jsonName v.
Proof.
  intros HG H1 H2 H3. simpl. rewrite HG. simpl.
  destruct (fieldType fi); try done.
Qed.

Lemma getByRef_default (c : cache) (ref : cacheRef) (fName : string) (fi : Field) :
  MustGet R ref.1 fName = Ok fi ->
  fieldType fi ≠ One2Many -> fieldType fi ≠ Rev2One -> fieldType fi ≠ Many2Many ->
  getByRef R c ref fName = Ok (default VNil (data c !! ref ≫= fun fm : FieldMap => fm !! fName)).
Proof.
  intros HG H1 H2 H3. unfold getByRef. rewrite HG. simpl.
  destruct (fieldType fi); try done.
Qed.

(** C2, as amended. Round trip through the cache.
    - For every field that is neither one-to-many, reverse-one-to-one nor
      many-to-many, addressed by its JSON name, [updateEntryByRef] with the
      value [v] followed by [get] on the same model, id and field returns
      [v]; so does [updateEntry] followed by [get], for a field addressed
      by its name or by its JSON name.
    - For every many-to-many field, the links of a record after
      [addM2MLink] are the ids added together with the ids that were
      linked to it before: exactly the ids added when the record had no
      link before.
    - The link is symmetric: each id added from one endpoint is linked to
      the record when queried through the paired field, which names the
      two (distinct) endpoints the other way round.
    - [updateEntryByRef] on a many-to-many field replaces the links of the
      record: a following [get] returns exactly the ids written. *)
Theorem C2_cache_round_trip :
  (forall (fuel fuel' : nat) (c : cache) (ref : cacheRef) (jsonName : string)
          (v : value) (fi : Field),
      MustGet R ref.1 jsonName = Ok fi ->
      json fi = jsonName -> Split jsonName = [jsonName] ->
      fieldType fi ≠ One2Many -> fieldType fi ≠ Rev2One -> fieldType fi ≠ Many2Many ->
      exists c', updateEntryByRef R (S fuel) c ref jsonName v = Ok c'
                 /\ get R (S fuel') c' ref.1 ref.2 jsonName = Ok v)
  /\ (forall (fuel fuel' : nat) (c : cache) (mi : string) (id : Z) (f : string)
             (v : value) (fi fi' : Field),
        Split f = [f] ->
        MustGet R mi f = Ok fi -> MustGet R mi (json fi) = Ok fi' ->
        fieldType fi' ≠ One2Many -> fieldType fi' ≠ Rev2One -> fieldType fi' ≠ Many2Many ->
        exists c', updateEntry R (S fuel) c mi id f v = Ok (c', false)
                   /\ get R (S fuel') c' mi id f = Ok v)
  /\ (forall (c : cache) (fi : Field) (id : Z) (values : list Z) (x : Z),
        x ∈ getM2MLinks (addM2MLink c fi id values) fi id
        <-> x ∈ values \/ x ∈ getM2MLinks c fi id)
  /\ (forall (c : cache) (fi : Field) (id : Z) (values : list Z) (x : Z),
        getM2MLinks c fi id = [] ->
        x ∈ getM2MLinks (addM2MLink c fi id values) fi id <-> x ∈ values)
  /\ (forall (c : cache) (fi fi' : Field) (id : Z) (values : list Z) (x : Z),
        m2mRelModel fi' = m2mRelModel fi ->
        m2mOurField fi' = m2mTheirField fi ->
        m2mTheirField fi' = m2mOurField fi ->
        m2mOurField fi ≠ m2mTheirField fi ->
        x ∈ values ->
        id ∈ getM2MLinks (addM2MLink c fi id values) fi' x)
  /\ (forall (fuel fuel' : nat) (c : cache) (ref : cacheRef) (jsonName : string)
             (ids : list Z) (fi : Field),
        MustGet R ref.1 jsonName = Ok fi ->
        json fi = jsonName -> Split jsonName = [jsonName] ->
        fieldType fi = Many2Many ->
        exists c' l, updateEntryByRef R (S fuel) c ref jsonName (VIds ids) = Ok c'
                     /\ get R (S fuel') c' ref.1 ref.2 jsonName = Ok (VIds l)
                     /\ forall x, x ∈ l <-> x ∈ ids).
Proof.
  split; [|split; [|split; [|split; [|split]]]].
  - intros fuel fuel' c ref jsonName v fi HG Hj HS H1 H2 H3.
    rewrite (updateEntryByRef_default fuel c ref jsonName v fi HG H1 H2 H3).
    destruct (setEntry_Ok (ensureEntry c ref) ref jsonName v (ensureEntry_is_Some c ref))
      as (c' & Hc' & _ & Hv).
    exists c'. split; [done|]. unfold get.
    rewrite (getRelatedRef_single R fuel' c' ref.1 ref.2 jsonName fi HS HG). simpl.
    rewrite Hj. destruct ref as [mi id]; simpl in *.
    rewrite (getByRef_default c' (mi, id) jsonName fi HG H1 H2 H3). by rewrite Hv.
  - intros fuel fuel' c mi id f v fi fi' HS HG HG' H1 H2 H3. unfold updateEntry.
    rewrite (getRelatedRef_single R fuel c mi id f fi HS HG). cbn [mbind result_bind].
    rewrite (updateEntryByRef_default fuel c (mi, id) (json fi) v fi' HG' H1 H2 H3).
    destruct (setEntry_Ok (ensureEntry c (mi, id)) (mi, id) (json fi) v
                (ensureEntry_is_Some c (mi, id))) as (c' & Hc' & _ & Hv).
    exists c'. rewrite Hc'. split; [done|]. unfold get.
    rewrite (getRelatedRef_single R fuel' c' mi id f fi HS HG). cbn [mbind result_bind].
    rewrite (getByRef_default c' (mi, id) (json fi) fi' HG' H1 H2 H3). by rewrite Hv.
  - apply getM2MLinks_addM2MLink.
  - intros c fi id values x Hnil. rewrite getM2MLinks_addM2MLink, Hnil.
    split; [intros [H | H]; [done | by apply elem_of_nil in H] | auto].
  - apply getM2MLinks_addM2MLink_paired.
  - intros fuel fuel' c ref jsonName ids fi HG Hj HS Ht.
    simpl. rewrite HG. simpl. rewrite Ht.
    set (c2 := addM2MLink (removeM2MLinks (ensureEntry c ref) fi ref.2) fi ref.2 ids).
    assert (is_Some (data c2 !! ref)) as Hsome.
    { unfold c2, addM2MLink, removeM2MLinks. simpl.
      destruct (m2mLinks (ensureEntry c ref) !! m2mRelModel fi);
        simpl; apply ensureEntry_is_Some. }
    destruct (setEntry_Ok c2 ref jsonName (VBool true) Hsome) as (c' & Hc' & Hl & _).
    exists c', (getM2MLinks c' fi ref.2). split; [done|]. split.
    + unfold get. rewrite (getRelatedRef_single R fuel' c' ref.1 ref.2 jsonName fi HS HG).
      simpl. rewrite Hj. destruct ref as [mi id]; simpl in *.
      unfold getByRef. simpl. rewrite HG. simpl. by rewrite Ht.
    + intros x. rewrite (getM2MLinks_ext c' c2 fi ref.2 Hl). unfold c2.
      rewrite getM2MLinks_addM2MLink, getM2MLinks_removeM2MLinks.
      split; [intros [H | H]; [done | by apply elem_of_nil in H] | auto].
Qed.

End CacheRoundTrip.

(** The claim read literally: the links of the record after [addM2MLink]
    are exactly the ids added. It fails on a record that already has a
    link: post 7 is linked to tag 1, tag 2 is added, and the links of
    post 7 are then tags 1 and 2. *)
Lemma C2_addM2MLink_not_exact :
  ~ (forall (c : cache) (fi : Field) (id : Z) (values : list Z) (x : Z),
       fieldType fi = Many2Many -> m2mOurField fi ≠ m2mTheirField fi ->
       x ∈ getM2MLinks (addM2MLink c fi id values) fi id <-> x ∈ values).
Proof.
  intros H.
  specialize (H (addM2MLink newCache Demo.Post_Tags 7 [1%Z]) Demo.Post_Tags 7%Z [2%Z] 1%Z
                eq_refl ltac:(discriminate)).
  destruct H as [H _].
  assert (1%Z ∈ [2%Z]) as Habs.
  { apply H. apply getM2MLinks_addM2MLink. right.
    apply getM2MLinks_addM2MLink. left. by left. }
  apply list_elem_of_singleton in Habs. discriminate Habs.
Qed.

Lemma C2_cache_round_trip_witness :
  (exists c', updateEntryByRef Demo.Registry 1 newCache ("User", 7%Z) "name" (VString "Ann")
              = Ok c'
              /\ get Demo.Registry 1 c' "User" 7%Z "name" = Ok (VString "Ann"))
  /\ (exists c', updateEntry Demo.Registry 1 newCache "User" 7%Z "Name" (VString "Ann")
                 = Ok (c', false)
                 /\ get Demo.Registry 1 c' "User" 7%Z "Name" = Ok (VString "Ann"))
  /\ (7%Z ∈ getM2MLinks (addM2MLink newCache Demo.Post_Tags 7 [1%Z; 2%Z]) Demo.Tag_Posts 1)
  /\ (forall x, x ∈ getM2MLinks (addM2MLink newCache Demo.Post_Tags 7 [1%Z; 2%Z])
                      Demo.Post_Tags 7
                <-> x ∈ [1%Z; 2%Z])
  /\ (exists c' l,
        updateEntryByRef Demo.Registry 1
          (addM2MLink newCache Demo.Post_Tags 7 [1%Z]) ("Post", 7%Z) "tags_ids" (VIds [2%Z])
        = Ok c'
        /\ get Demo.Registry 1 c' "Post" 7%Z "tags_ids" = Ok (VIds l)
        /\ forall x, x ∈ l <-> x ∈ [2%Z]).
Proof.
  destruct (C2_cache_round_trip Demo.Registry) as (H1 & H2 & _ & H3 & H4 & H5).
  split; [|split; [|split; [|split]]].
  - apply (H1 O O newCache ("User", 7%Z) "name" (VString "Ann")
              (Demo.field "User" "Name" "name" Char));
      [reflexivity | reflexivity | reflexivity | discriminate | discriminate | discriminate].
  - apply (H2 O O newCache "User" 7%Z "Name" (VString "Ann")
              (Demo.field "User" "Name" "name" Char) (Demo.field "User" "Name" "name" Char));
      [reflexivity | reflexivity | reflexivity | discriminate | discriminate | discriminate].
  - apply (H4 newCache Demo.Post_Tags Demo.Tag_Posts 7%Z [1%Z; 2%Z] 1%Z);
      [reflexivity | reflexivity | reflexivity | discriminate | left].
  - intros x. apply (H3 newCache Demo.Post_Tags 7%Z [1%Z; 2%Z] x). reflexivity.
  - apply (H5 O O (addM2MLink newCache Demo.Post_Tags 7 [1%Z]) ("Post", 7%Z) "tags_ids"
              [2%Z] Demo.Post_Tags); reflexivity.
Defined.

(** ** Invalidation of a record *)

Section Invalidation.

Variable R : gmap string Model.

Lemma removeM2MLinks_data (c : cache) (fi : Field) (id : Z) :
  data (removeM2MLinks c fi id) = data c.
Proof. unfold removeM2MLinks. by destruct (m2mLinks c !! m2mRelModel fi). Qed.

Lemma removeM2MLinks_noLink (c : cache) (fi : Field) (id : Z) :
  noLink (m2mRelModel fi) (ourIndex fi) id (removeM2MLinks c fi id).
Proof.
  intros links link Hl Hin. unfold removeM2MLinks in Hl.
  destruct (m2mLinks c !! m2mRelModel fi) as [links0|] eqn:E; simpl in Hl.
  - rewrite lookup_insert_eq in Hl. inversion Hl; subst links.
    by apply elem_of_filter in Hin as [Hne _].
  - by rewrite E in Hl.
Qed.

Lemma removeM2MLinks_keeps_noLink (c : cache) (fi : Field) (id id' : Z)
    (rel : string) (index : Z) :
  noLink rel index id c -> noLink rel index id (removeM2MLinks c fi id').
Proof.
  intros HP links link Hl Hin. unfold removeM2MLinks in Hl.
  destruct (m2mLinks c !! m2mRelModel fi) as [links0|] eqn:E; simpl in Hl.
  - destruct (decide (m2mRelModel fi = rel)) as [<- | Hne].
    + rewrite lookup_insert_eq in Hl. inversion Hl; subst links.
      apply elem_of_filter in Hin as [_ Hin]. by eapply HP.
    + rewrite lookup_insert_ne in Hl by done. by eapply HP.
  - by eapply HP.
Qed.

Lemma purgeLinks_data (id : Z) (c : cache) (fs : list Field) :
  data (purgeLinks id c fs) = data c.
Proof.
  revert c. induction fs as [|f fs IH]; intros c; simpl; [done|].
  unfold purgeLinks in *. simpl. rewrite IH.
  case_bool_decide; [apply removeM2MLinks_data | done].
Qed.

Lemma purgeLinks_keeps_noLink (id : Z) (c : cache) (fs : list Field)
    (rel : string) (index : Z) :
  noLink rel index id c -> noLink rel index id (purgeLinks id c fs).
Proof.
  revert c. induction fs as [|f fs IH]; intros c HP; simpl; [done|].
  unfold purgeLinks in *. simpl. apply IH.
  case_bool_decide; [by apply removeM2MLinks_keeps_noLink | done].
Qed.

Lemma purgeLinks_noLink (id : Z) (c : cache) (fs : list Field) (fi : Field) :
  fi ∈ fs -> fieldType fi = Many2Many ->
  noLink (m2mRelModel fi) (ourIndex fi) id (purgeLinks id c fs).
Proof.
  revert c. induction fs as [|f fs IH]; intros c Hin Ht.
  - by apply elem_of_nil in Hin.
  - apply elem_of_cons in Hin as [<- | Hin].
    + unfold purgeLinks. simpl. rewrite bool_decide_eq_true_2 by done.
      apply (purgeLinks_keeps_noLink id _ fs). apply removeM2MLinks_noLink.
    + unfold purgeLinks in *. simpl. by apply IH.
Qed.

Lemma noLink_getM2MLinks (c : cache) (fi : Field) (id : Z) :
  noLink (m2mRelModel fi) (ourIndex fi) id c -> getM2MLinks c fi id = [].
Proof.
  intros HP. apply elem_of_nil_inv. intros x Hx.
  apply elem_of_getM2MLinks in Hx as (links & link & Hl & Hin & Ho & _).
  by eapply HP.
Qed.

Lemma invalidateRecord_eq (c : cache) (mi : string) (id : Z) (m : Model) :
  R !! mi = Some m ->
  invalidateRecord R c mi id
  = Ok (purgeLinks id (mkCache (delete (mi, id) (data c)) (m2mLinks c)) (fields m)).
Proof. intros Hm. unfold invalidateRecord, deref. by rewrite Hm. Qed.

(** C6, as amended. [invalidateRecord] on a record of a registered model
    returns; afterwards
    - the cache has no entry for the record;
    - [get] on a field of the record that is neither one-to-many nor
      reverse-one-to-one reports a miss: nil, and the empty list of links
      for a many-to-many field;
    - [checkIfInCache] reports a miss for every field of the record;
    - for every many-to-many field of the model, no link of its link
      model has the id of the record on the side of the model, and the
      record has no link left on the field. *)
Theorem C6_invalidateRecord_miss (c : cache) (mi : string) (id : Z) (m : Model) :
  R !! mi = Some m ->
  exists c',
    invalidateRecord R c mi id = Ok c'
    /\ data c' !! (mi, id) = None
    /\ (forall (fuel : nat) (f : string) (fi fi' : Field),
          Split f = [f] ->
          MustGet R mi f = Ok fi -> MustGet R mi (json fi) = Ok fi' ->
          fieldType fi' ≠ One2Many -> fieldType fi' ≠ Rev2One ->
          get R (S fuel) c' mi id f
          = Ok (if bool_decide (fieldType fi' = Many2Many) then VIds [] else VNil))
    /\ (forall (fuel : nat) (f : string) (fi : Field),
          Split f = [f] -> MustGet R mi f = Ok fi ->
          checkIfInCache R (S fuel) c' mi [id] [f] = Ok false)
    /\ (forall fi : Field,
          fi ∈ fields m -> fieldType fi = Many2Many ->
          noLink (m2mRelModel fi) (ourIndex fi) id c'
          /\ getM2MLinks c' fi id = []).
Proof.
  intros Hm. eexists. split; [by apply invalidateRecord_eq|].
  set (c' := purgeLinks id _ (fields m)).
  assert (data c' !! (mi, id) = None) as Hnone.
  { unfold c'. rewrite purgeLinks_data. simpl. apply lookup_delete_eq. }
  assert (forall fi : Field, fi ∈ fields m -> fieldType fi = Many2Many ->
            noLink (m2mRelModel fi) (ourIndex fi) id c') as Hno.
  { intros fi Hin Ht. unfold c'. by apply purgeLinks_noLink. }
  split; [done|]. split; [|split].
  - intros fuel f fi fi' HS HG HG' H1 H2. unfold get.
    rewrite (getRelatedRef_single R fuel c' mi id f fi HS HG). simpl.
    case_bool_decide as Ht.
    + unfold getByRef. simpl. rewrite HG'. simpl. rewrite Ht.
      apply MustGet_elem in HG' as (m' & Hm' & Hin). rewrite Hm in Hm'.
      inversion Hm'; subst m'. by rewrite (noLink_getM2MLinks c' fi' id (Hno fi' Hin Ht)).
    + rewrite (getByRef_default R c' (mi, id) (json fi) fi' HG' H1 H2 Ht).
      by rewrite Hnone.
  - intros fuel f fi HS HG. unfold checkIfInCache.
    change (id0 ← [id]; fName ← [f]; [(id0, fName)]) with [(id, f)].
    cbn [foldM]. rewrite (getRelatedRef_single R fuel c' mi id f fi HS HG). simpl.
    by rewrite Hnone.
  - intros fi Hin Ht. split; [by apply Hno|]. apply noLink_getM2MLinks. by apply Hno.
Qed.

End Invalidation.

(** The claim read literally: after [invalidateRecord], [get] reports a
    miss for any field of the record. It fails on a one-to-many field,
    whose value is derived from the entries of the other records: post 5
    holds the foreign key of user 1; once user 1 is invalidated, its posts
    are still read as post 5. *)
Lemma C6_one2many_survives_invalidateRecord :
  ~ (forall (R : gmap string Model) (fuel : nat) (c c' : cache) (mi : string) (id : Z)
            (f : string) (fi : Field),
       invalidateRecord R c mi id = Ok c' -> MustGet R mi f = Ok fi ->
       get R (S fuel) c' mi id f = Ok VNil \/ get R (S fuel) c' mi id f = Ok (VIds [])).
Proof.
  intros H.
  pose (c := mkCache {[ ("Post", 5%Z) := ({[ "id" := VInt64 5; "user_id" := VInt64 1 ]} : FieldMap);
                        ("User", 1%Z) := ({[ "id" := VInt64 1 ]} : FieldMap) ]} ∅).
  destruct (H Demo.Registry 1%nat c
              (mkCache {[ ("Post", 5%Z) := ({[ "id" := VInt64 5; "user_id" := VInt64 1 ]} : FieldMap) ]} ∅)
              "User" 1%Z "posts_ids" Demo.User_Posts) as [Hg | Hg].
  - unfold c. vm_compute. reflexivity.
  - reflexivity.
  - vm_compute in Hg. discriminate Hg.
  - vm_compute in Hg. discriminate Hg.
Qed.

Lemma C6_invalidateRecord_miss_witness :
  exists c',
    invalidateRecord Demo.Registry
      (addM2MLink
         (mkCache {[ ("Post", 7%Z) := ({[ "id" := VInt64 7; "title" := VString "Hello" ]} : FieldMap) ]} ∅)
         Demo.Post_Tags 7 [1%Z; 2%Z])
      "Post" 7 = Ok c'
    /\ get Demo.Registry 1 c' "Post" 7 "title" = Ok VNil
    /\ get Demo.Registry 1 c' "Post" 7 "Tags" = Ok (VIds []).
Proof.
  destruct (C6_invalidateRecord_miss Demo.Registry
              (addM2MLink
                 (mkCache {[ ("Post", 7%Z) := ({[ "id" := VInt64 7; "title" := VString "Hello" ]} : FieldMap) ]} ∅)
                 Demo.Post_Tags 7 [1%Z; 2%Z])
              "Post" 7%Z Demo.Post eq_refl) as (c' & Hc' & _ & Hget & _).
  exists c'. split; [exact Hc'|]. split.
  - apply (Hget O "title" (Demo.field "Post" "Title" "title" Char)
                (Demo.field "Post" "Title" "title" Char));
      [reflexivity | reflexivity | reflexivity | discriminate | discriminate].
  - apply (Hget O "Tags" Demo.Post_Tags Demo.Post_Tags);
      [reflexivity | reflexivity | reflexivity | discriminate | discriminate].
Defined.

(** ** The id of a cache entry *)

Section CacheInvariant.

Variable R : gmap string Model.

Lemma foldM_preserves {A B} (P : A -> Prop) (f : A -> B -> result A) (l : list B) :
  (forall a x a', x ∈ l -> P a -> f a x = Ok a' -> P a') ->
  forall a a', P a -> foldM f a l = Ok a' -> P a'.
Proof.
  induction l as [|x l IH]; intros Hf a a' Ha H; simpl in H.
  - by inversion H; subst.
  - destruct (f a x) as [a1| |] eqn:E; simpl in H; try done.
    eapply IH; [|eapply Hf; [by left|exact Ha|exact E]|exact H].
    intros a0 y a0' Hy. apply Hf. by right.
Qed.

Lemma cacheInv_newCache : cacheInv newCache.
Proof. intros ref fm H. simpl in H. by rewrite lookup_empty in H. Qed.

Lemma cacheInv_data (c c' : cache) : data c' = data c -> cacheInv c -> cacheInv c'.
Proof. intros He H ref fm Hl. rewrite He in Hl. by apply H. Qed.

Lemma ensureEntry_inv (c : cache) (ref : cacheRef) : cacheInv c -> cacheInv (ensureEntry c ref).
Proof.
  intros H. unfold ensureEntry. destruct (data c !! ref) eqn:E; [done|].
  intros ref' fm Hl. simpl in Hl.
  destruct (decide (ref = ref')) as [<- | Hne].
  - rewrite lookup_insert_eq in Hl. inversion Hl; subst. apply lookup_singleton_eq.
  - rewrite lookup_insert_ne in Hl by done. by apply H.
Qed.

Lemma setEntry_inv_gen (c c' : cache) (ref : cacheRef) (k : string) (v : value) :
  cacheInv c -> k ≠ "id" \/ v = VInt64 ref.2 -> setEntry c ref k v = Ok c' -> cacheInv c'.
Proof.
  intros H Hk Hs. unfold setEntry in Hs.
  destruct (data c !! ref) as [fm|] eqn:E; [|done]. inversion Hs; subst c'.
  intros ref' fm' Hl. simpl in Hl.
  destruct (decide (ref = ref')) as [<- | Hne].
  - rewrite lookup_insert_eq in Hl. inversion Hl; subst.
    destruct (decide (k = "id")) as [-> | Hkne].
    + destruct Hk as [Hk | ->]; [done|]. apply lookup_insert_eq.
    + rewrite lookup_insert_ne by done. by apply H.
  - rewrite lookup_insert_ne in Hl by done. by apply H.
Qed.

Lemma setEntry_inv (c c' : cache) (ref : cacheRef) (k : string) (v : value) :
  cacheInv c -> k ≠ "id" -> setEntry c ref k v = Ok c' -> cacheInv c'.
Proof. intros H Hk. apply setEntry_inv_gen; [done|by left]. Qed.

Lemma addM2MLink_data (c : cache) (fi : Field) (id : Z) (values : list Z) :
  data (addM2MLink c fi id values) = data c.
Proof. reflexivity. Qed.

Lemma schemaOk_field (mi : string) (m : Model) (fi : Field) :
  schemaOk R = true -> R !! mi = Some m -> fi ∈ fields m -> reverseFKOk R fi = true.
Proof.
  unfold schemaOk. intros H Hm Hin. rewrite forallb_forall in H.
  specialize (H (mi, m)). simpl in H.
  assert (forallb (reverseFKOk R) (fields m) = true) as Hf.
  { apply H. apply list_elem_of_In. by apply elem_of_map_to_list. }
  rewrite forallb_forall in Hf. apply Hf. by apply list_elem_of_In.
Qed.

Lemma getRelatedRef_single_inv (fuel : nat) (c : cache) (mi : string) (id : Z)
    (f : string) (ref : cacheRef) (fName : string) :
  Split f = [f] ->
  getRelatedRef R fuel c mi id f = Ok (Some (ref, fName)) ->
  exists fi, MustGet R mi f = Ok fi /\ ref = (mi, id) /\ fName = json fi.
Proof.
  intros HS H. destruct fuel as [|fuel]; [done|]. simpl in H. rewrite HS in H.
  simpl in H. destruct (MustGet R mi f) as [fi| |]; simpl in H; try done.
  inversion H; subst. by exists fi.
Qed.

(** The key written on a related record by the one-to-many and
    reverse-one-to-one cases is not "id". *)
Lemma reverseFK_key (fuel : nat) (c : cache) (mi : string) (n : string) (fi : Field)
    (rm : string) (id : Z) (ref : cacheRef) (fName : string) :
  schemaOk R = true -> MustGet R mi n = Ok fi ->
  fieldType fi = One2Many \/ fieldType fi = Rev2One ->
  relatedModel R fi = Some rm ->
  getRelatedRef R fuel c rm id (jsonReverseFK fi) = Ok (Some (ref, fName)) ->
  fName ≠ "id".
Proof.
  intros Hok HG Ht Hrm Hr.
  apply MustGet_elem in HG as (m & Hm & Hin).
  pose proof (schemaOk_field mi m fi Hok Hm Hin) as Hfi.
  unfold reverseFKOk in Hfi. rewrite bool_decide_eq_true_2 in Hfi by done.
  apply andb_true_iff in Hfi as [HS Hid]. apply bool_decide_eq_true in HS.
  apply (getRelatedRef_single_inv _ _ _ _ _ _ _ HS) in Hr as (f' & HG' & _ & ->).
  rewrite Hrm, HG' in Hid. by apply bool_decide_eq_true in Hid.
Qed.

Lemma updateEntryVia_inv (fuel : nat)
    (rec : cache -> cacheRef -> string -> value -> result cache)
    (c c' : cache) (mi : option string) (id : Z) (f : string) (v : value) :
  (forall c0 ref fName c1,
      cacheInv c0 -> getRelatedRef R fuel c0 (default "" mi) id f = Ok (Some (ref, fName)) ->
      rec c0 ref fName v = Ok c1 -> cacheInv c1) ->
  cacheInv c -> updateEntryVia R fuel rec c mi id f v = Ok c' -> cacheInv c'.
Proof.
  intros Hrec Hc H. unfold updateEntryVia in H. destruct mi as [mi|]; [|done].
  destruct (getRelatedRef R fuel c mi id f) as [[[ref fName]|]| |] eqn:E;
    simpl in H; try done.
  - by eapply Hrec.
  - by inversion H; subst.
Qed.

Lemma updateEntryByRef_inv (fuel : nat) :
  schemaOk R = true ->
  forall (c c' : cache) (ref : cacheRef) (jsonName : string) (v : value),
    cacheInv c -> jsonName ≠ "id" ->
    updateEntryByRef R fuel c ref jsonName v = Ok c' -> cacheInv c'.
Proof.
  intros Hok. induction fuel as [|fuel IH]; intros c c' ref jn v Hc Hjn H; [done|].
  simpl in H. pose proof (ensureEntry_inv c ref Hc) as Hc1.
  destruct (MustGet R ref.1 jn) as [fi| |] eqn:HG; simpl in H; try done.
  assert (forall id c0 c1,
            cacheInv c0 ->
            updateEntryVia R fuel (updateEntryByRef R fuel) c0 (relatedModel R fi) id
              (jsonReverseFK fi) (VInt64 ref.2) = Ok c1 ->
            fieldType fi = One2Many \/ fieldType fi = Rev2One ->
            cacheInv c1) as Hvia.
  { intros id c0 c1 Hc0 Hu Ht. eapply updateEntryVia_inv; [|exact Hc0|exact Hu].
    intros c2 ref' fName c3 Hc2 Hr Hu'. eapply IH; [exact Hc2| |exact Hu'].
    destruct (relatedModel R fi) as [rm|] eqn:Hrm; [|done].
    by eapply reverseFK_key. }
  destruct (fieldType fi) eqn:Ht;
    try (by eapply setEntry_inv; [exact Hc1|exact Hjn|exact H]).
  - (* Many2Many *)
    destruct v; try done.
    eapply setEntry_inv; [|exact Hjn|exact H].
    eapply cacheInv_data; [|exact Hc1].
    rewrite addM2MLink_data. apply removeM2MLinks_data.
  - (* One2Many *)
    destruct v; try done.
    destruct (foldM _ (ensureEntry c ref) ids) as [c2| |] eqn:Hf; simpl in H; try done.
    eapply setEntry_inv; [|exact Hjn|exact H].
    eapply (foldM_preserves cacheInv); [|exact Hc1|exact Hf].
    intros c0 id c1 _ Hc0 Hu. apply (Hvia id c0 c1 Hc0 Hu). by left.
  - (* Rev2One *)
    destruct v; try done.
    destruct (updateEntryVia _ _ _ _ _ _ _ _) as [c2| |] eqn:Hu; simpl in H; try done.
    eapply setEntry_inv; [|exact Hjn|exact H].
    apply (Hvia _ _ _ Hc1 Hu). by right.
Qed.

Lemma updateEntryByRef_keepsId (fuel : nat) (c c' : cache) (ref : cacheRef)
    (jsonName : string) (v : value) :
  schemaOk R = true -> cacheInv c -> keepsId R ref jsonName v ->
  updateEntryByRef R fuel c ref jsonName v = Ok c' -> cacheInv c'.
Proof.
  intros Hok Hc [Hne | [-> Hty]] H; [by eapply updateEntryByRef_inv|].
  destruct fuel as [|fuel]; [done|]. simpl in H.
  destruct (MustGet R ref.1 jsonName) as [fi| |] eqn:HG; simpl in H; try done.
  destruct (Hty fi eq_refl) as (H1 & H2 & H3).
  assert (setEntry (ensureEntry c ref) ref jsonName (VInt64 ref.2) = Ok c') as Hs
    by (destruct (fieldType fi); done).
  eapply setEntry_inv_gen; [by apply ensureEntry_inv| |exact Hs]. by right.
Qed.

Lemma updateEntry_inv (fuel : nat) (c c' : cache) (mi : string) (id : Z)
    (f : string) (v : value) (err : bool) :
  schemaOk R = true -> cacheInv c ->
  (forall ref fName,
      getRelatedRef R fuel c mi id f = Ok (Some (ref, fName)) -> keepsId R ref fName v) ->
  updateEntry R fuel c mi id f v = Ok (c', err) -> cacheInv c'.
Proof.
  intros Hok Hc Hk H. unfold updateEntry in H.
  destruct (getRelatedRef R fuel c mi id f) as [[[ref fName]|]| |] eqn:E;
    simpl in H; try done.
  - destruct (updateEntryByRef R fuel c ref fName v) as [c1| |] eqn:Hu; simpl in H; try done.
    inversion H; subst. eapply updateEntryByRef_keepsId; eauto.
  - by inversion H; subst.
Qed.

Lemma addRecord_inv (fuel : nat) (c c' : cache) (mi : string) (id : Z) (fMap : FieldMap) :
  schemaOk R = true -> cacheInv c ->
  (forall c0 path v ref fName,
      fMap !! path = Some v ->
      getRelatedRef R fuel c0 mi id path = Ok (Some (ref, fName)) ->
      keepsId R ref fName v) ->
  addRecord R fuel c mi id fMap = Ok c' -> cacheInv c'.
Proof.
  intros Hok Hc Hk H. unfold addRecord in H.
  eapply (foldM_preserves cacheInv); [|exact Hc|exact H].
  intros c0 i c1 _ Hc0 Hi.
  eapply (foldM_preserves cacheInv); [|exact Hc0|exact Hi].
  intros c2 path c3 Hin Hc2 Hu. cbv beta in Hu.
  destruct (updateEntry R fuel c2 mi id path (default VNil (fMap !! path)))
    as [[c4 e]| |] eqn:E; simpl in Hu; try done.
  injection Hu as <-.
  apply list_elem_of_filter in Hin as [_ Hin].
  apply list_elem_of_fmap in Hin as ([k v] & -> & Hin).
  apply elem_of_map_to_list in Hin. simpl in *. rewrite Hin in E. simpl in E.
  eapply (updateEntry_inv fuel c2 c4); [exact Hok|exact Hc2| |exact E].
  intros ref fName. by apply Hk.
Qed.

Lemma removeEntry_inv (fuel : nat) (c c' : cache) (mi : string) (id : Z) (f : string) :
  cacheInv c -> f ≠ "id" -> removeEntry R fuel c mi id f = Ok c' -> cacheInv c'.
Proof.
  intros Hc Hf H. unfold removeEntry in H.
  destruct (checkIfInCache R fuel c mi [id] [f]) as [[|]| |]; simpl in H; try done.
  - destruct (MustGet R mi f) as [fi| |]; simpl in H; try done.
    inversion H; subst c'.
    assert (cacheInv
              match data c !! (mi, id) with
              | Some fm => mkCache (<[(mi, id) := delete f fm]> (data c)) (m2mLinks c)
              | None => c
              end) as Hc1.
    { destruct (data c !! (mi, id)) as [fm|] eqn:E; [|done].
      intros ref fm' Hl. simpl in Hl.
      destruct (decide ((mi, id) = ref)) as [<- | Hne].
      - rewrite lookup_insert_eq in Hl. inversion Hl; subst.
        rewrite lookup_delete_ne by done. by apply (Hc (mi, id)).
      - rewrite lookup_insert_ne in Hl by done. by apply Hc. }
    case_bool_decide; [|done].
    eapply cacheInv_data; [|exact Hc1]. apply removeM2MLinks_data.
  - by inversion H; subst.
Qed.

(** C10, as amended. The id of a cache entry. In a schema in which no
    reverse foreign key resolves to the id column:
    - the empty cache satisfies the invariant "every entry binds the key
      id to the id of its cacheRef", and an entry is created with that
      binding;
    - [updateEntryByRef] preserves the invariant when the field written
      is not "id", or when the value written to "id" is the id of the
      record;
    - so does [updateEntry], for the record and field that the path
      resolves to;
    - so does [addRecord], for the records and fields that the keys of
      the field map resolve to;
    - [removeEntry] on a field name other than "id" preserves it. *)
Theorem C10_cache_id_invariant :
  schemaOk R = true ->
  cacheInv newCache
  /\ (forall (c : cache) (ref : cacheRef),
        data c !! ref = None ->
        data (ensureEntry c ref) !! ref = Some {[ "id" := VInt64 ref.2 ]})
  /\ (forall (fuel : nat) (c c' : cache) (ref : cacheRef) (jsonName : string) (v : value),
        cacheInv c -> keepsId R ref jsonName v ->
        updateEntryByRef R fuel c ref jsonName v = Ok c' -> cacheInv c')
  /\ (forall (fuel : nat) (c c' : cache) (mi : string) (id : Z) (f : string)
             (v : value) (err : bool),
        cacheInv c ->
        (forall ref fName,
            getRelatedRef R fuel c mi id f = Ok (Some (ref, fName)) ->
            keepsId R ref fName v) ->
        updateEntry R fuel c mi id f v = Ok (c', err) -> cacheInv c')
  /\ (forall (fuel : nat) (c c' : cache) (mi : string) (id : Z) (fMap : FieldMap),
        cacheInv c ->
        (forall c0 path v ref fName,
            fMap !! path = Some v ->
            getRelatedRef R fuel c0 mi id path = Ok (Some (ref, fName)) ->
            keepsId R ref fName v) ->
        addRecord R fuel c mi id fMap = Ok c' -> cacheInv c')
  /\ (forall (fuel : nat) (c c' : cache) (mi : string) (id : Z) (f : string),
        cacheInv c -> f ≠ "id" ->
        removeEntry R fuel c mi id f = Ok c' -> cacheInv c').
Proof.
  intros Hok. split; [apply cacheInv_newCache|]. split; [|split; [|split; [|split]]].
  - intros c ref Hn. unfold ensureEntry. rewrite Hn. simpl. apply lookup_insert_eq.
  - intros fuel c c' ref jn v Hc Hjn H. by eapply updateEntryByRef_keepsId.
  - intros fuel c c' mi id f v err Hc Hk H. by eapply updateEntry_inv.
  - intros fuel c c' mi id fMap Hc Hk H. by eapply addRecord_inv.
  - intros fuel c c' mi id f Hc Hf H. by eapply removeEntry_inv.
Qed.

End CacheInvariant.

(** The claim read literally: no operation of the cache changes or
    removes the id of an entry. [updateEntryByRef] on the field "id"
    itself overwrites it: on the empty cache, writing 42 to the id of
    user 7 leaves an entry for user 7 whose id is 42. *)
Lemma C10_id_can_be_overwritten :
  ~ (forall (R : gmap string Model) (fuel : nat) (c c' : cache) (ref : cacheRef)
            (jsonName : string) (v : value),
       cacheInv c -> updateEntryByRef R fuel c ref jsonName v = Ok c' -> cacheInv c').
Proof.
  intros H.
  pose (c' := mkCache {[ ("User", 7%Z) := ({[ "id" := VInt64 42 ]} : FieldMap) ]} ∅).
  assert (cacheInv c') as Hc'.
  { apply (H Demo.Registry 1%nat newCache c' ("User", 7%Z) "id" (VInt64 42)).
    - apply cacheInv_newCache.
    - vm_compute. reflexivity. }
  specialize (Hc' ("User", 7%Z) {[ "id" := VInt64 42 ]} eq_refl).
  vm_compute in Hc'. discriminate Hc'.
Qed.

(** [removeEntry] on the field "id" removes the binding: the entry of
    user 7 is left without an id. *)
Example removeEntry_id_removes_binding :
  removeEntry Demo.Registry 1
    (mkCache {[ ("User", 7%Z) := ({[ "id" := VInt64 7 ]} : FieldMap) ]} ∅) "User" 7 "id"
  = Ok (mkCache {[ ("User", 7%Z) := (∅ : FieldMap) ]} ∅).
Proof. vm_compute. reflexivity. Qed.

Lemma C10_cache_id_invariant_witness :
  schemaOk Demo.Registry = true
  /\ (exists c',
        updateEntryByRef Demo.Registry 2 newCache ("User", 1%Z) "posts_ids"
          (VIds [5%Z; 6%Z]) = Ok c'
        /\ cacheInv c')
  /\ (exists c',
        addRecord Demo.Registry 2 newCache "User" 7
          {[ "id" := VInt64 7; "name" := VString "Ann" ]} = Ok c'
        /\ cacheInv c').
Proof.
  assert (schemaOk Demo.Registry = true) as Hok by (vm_compute; reflexivity).
  destruct (C10_cache_id_invariant Demo.Registry Hok) as (H0 & _ & H2 & _ & H4 & _).
  split; [exact Hok|]. split.
  - eexists. split; [vm_compute; reflexivity|].
    eapply (H2 2%nat newCache _ ("User", 1%Z) "posts_ids" (VIds [5%Z; 6%Z]) H0).
    + left. discriminate.
    + vm_compute. reflexivity.
  - eexists. split; [vm_compute; reflexivity|].
    eapply (H4 2%nat newCache _ "User" 7%Z
              {[ "id" := VInt64 7; "name" := VString "Ann" ]} H0).
    + intros c0 path v ref fName Hl Hr.
      apply elem_of_map_to_list in Hl.
      assert (map_to_list ({[ "id" := VInt64 7; "name" := VString "Ann" ]} : FieldMap)
              = [("id", VInt64 7); ("name", VString "Ann")]) as Hlist
        by (vm_compute; reflexivity).
      rewrite Hlist in Hl.
      apply elem_of_cons in Hl as [[= -> ->] | Hl].
      * apply (getRelatedRef_single_inv Demo.Registry) in Hr as (fi & HG & -> & ->);
          [|reflexivity].
        vm_compute in HG. injection HG as <-. right. split; [reflexivity|].
        intros fi HG. vm_compute in HG. injection HG as <-.
        repeat split; discriminate.
      * apply list_elem_of_singleton in Hl as [= -> ->].
        apply (getRelatedRef_single_inv Demo.Registry) in Hr as (fi & HG & -> & ->);
          [|reflexivity].
        vm_compute in HG. injection HG as <-. left. discriminate.
    + vm_compute. reflexivity.
Defined.

(** ** Predicates on a null foreign key *)

Section NullPredicate.

Variable R : gmap string Model.
Variable quoteTableName : string -> string.
Variable sqlSep : string.
Variable IsEmpty : Condition -> bool.
Variable operatorSQL : operator.Operator -> value -> string * value.
Variable CastToInteger : value -> option Z.

Local Abbreviation predicateSQL :=
  (predicateSQLClause R quoteTableName sqlSep IsEmpty operatorSQL CastToInteger).
Local Abbreviation fieldExpr := (joinedFieldExpression R quoteTableName sqlSep).

(** What [predicateSQLClause] does on a leaf whose field is a foreign key
    and whose argument is the zero foreign key, once the column is
    rendered. *)
Lemma predicateSQLClause_null (mi : string) (p : predicate) (exprs : list string)
    (fi : Field) :
  p_isCond p = false ->
  jsonizeExpr R mi (p_exprs p) = Ok exprs ->
  getRelatedFieldInfo R mi (Join exprs) = Ok fi ->
  IsFKRelationType (fieldType fi) = true ->
  CastToInteger (p_arg p) = Some 0%Z ->
  predicateSQL mi p
  = (field ← fieldExpr mi exprs false;
     match p_operator p with
     | operator.Equals => Ok (field +:+ " IS NULL", [])
     | operator.NotEquals => Ok (field +:+ " IS NOT NULL", [])
     | _ => Panic "Null argument can only be used with = and != operators"
     end).
Proof.
  intros Hc He Hf Hfk Hz. destruct p as [ex op arg cnd isOr isNot isCond].
  simpl in *. subst isCond. rewrite He. simpl. rewrite Hf. simpl.
  rewrite Hfk, Hz. simpl. reflexivity.
Qed.

(** C3. Null predicate rewrite. For a leaf predicate on a foreign-key
    relation field whose argument is the zero foreign key, the clause is
    the column followed by IS NULL for the equality operator and by
    IS NOT NULL for the inequality operator, with no parameter; for any
    other operator the call panics with the message of the null-argument
    check, and in no case does it yield SQL. *)
Theorem C3_null_predicate_rewrite (mi : string) (p : predicate) (exprs : list string)
    (fi : Field) :
  p_isCond p = false ->
  jsonizeExpr R mi (p_exprs p) = Ok exprs ->
  getRelatedFieldInfo R mi (Join exprs) = Ok fi ->
  IsFKRelationType (fieldType fi) = true ->
  CastToInteger (p_arg p) = Some 0%Z ->
  (forall field : string,
      fieldExpr mi exprs false = Ok field ->
      (p_operator p = operator.Equals ->
       predicateSQL mi p = Ok (field +:+ " IS NULL", []))
      /\ (p_operator p = operator.NotEquals ->
          predicateSQL mi p = Ok (field +:+ " IS NOT NULL", []))
      /\ (p_operator p ≠ operator.Equals -> p_operator p ≠ operator.NotEquals ->
          predicateSQL mi p
          = Panic "Null argument can only be used with = and != operators"))
  /\ (p_operator p ≠ operator.Equals -> p_operator p ≠ operator.NotEquals ->
      forall r : string * SQLParams, predicateSQL mi p ≠ Ok r).
Proof.
  intros Hc He Hf Hfk Hz.
  rewrite (predicateSQLClause_null mi p exprs fi Hc He Hf Hfk Hz). split.
  - intros field ->. simpl. split; [|split].
    + by intros ->.
    + by intros ->.
    + intros H1 H2. by destruct (p_operator p).
  - intros H1 H2 r. destruct (fieldExpr mi exprs false); simpl; [|done|done].
    by destruct (p_operator p).
Qed.

End NullPredicate.

Lemma C3_null_predicate_rewrite_witness :
  predicateSQLClause Demo.Registry Demo.quoteTableName Demo.sqlSep Demo.IsEmpty
    Demo.operatorSQL Demo.CastToInteger "Post"
    (Demo.leaf ["User"] operator.Equals (VInt64 0))
  = Ok (Demo.quoteTableName "post" +:+ ".user_id" +:+ " IS NULL", [])
  /\ predicateSQLClause Demo.Registry Demo.quoteTableName Demo.sqlSep Demo.IsEmpty
       Demo.operatorSQL Demo.CastToInteger "Post"
       (Demo.leaf ["User"] operator.Greater (VInt64 0))
     = Panic "Null argument can only be used with = and != operators".
Proof.
  split.
  - destruct (C3_null_predicate_rewrite Demo.Registry Demo.quoteTableName Demo.sqlSep
                Demo.IsEmpty Demo.operatorSQL Demo.CastToInteger "Post"
                (Demo.leaf ["User"] operator.Equals (VInt64 0)) ["user_id"] Demo.Post_User
                eq_refl eq_refl eq_refl eq_refl eq_refl) as [H _].
    destruct (H (Demo.quoteTableName "post" +:+ ".user_id") eq_refl) as (Heq & _ & _).
    apply Heq. reflexivity.
  - destruct (C3_null_predicate_rewrite Demo.Registry Demo.quoteTableName Demo.sqlSep
                Demo.IsEmpty Demo.operatorSQL Demo.CastToInteger "Post"
                (Demo.leaf ["User"] operator.Greater (VInt64 0)) ["user_id"] Demo.Post_User
                eq_refl eq_refl eq_refl eq_refl eq_refl) as [H _].
    destruct (H (Demo.quoteTableName "post" +:+ ".user_id") eq_refl) as (_ & _ & Hother).
    apply Hother; discriminate.
Defined.

(** ** Joins of the relation fields *)

Section Joins.

Variable R : gmap string Model.
Variable quoteTableName : string -> string.
Variable sqlSep : string.

Local Abbreviation loop := (joinsLoop R quoteTableName sqlSep).
Local Abbreviation mkNext := (nextJoin quoteTableName sqlSep).
Local Abbreviation mkLink := (linkJoin quoteTableName sqlSep).

Lemma deref_Some (mi : string) (m : Model) : R !! mi = Some m -> deref R mi = Ok m.
Proof. unfold deref. by intros ->. Qed.

(** The step of the loop on a one-to-many or reverse-one-to-one
    segment. *)
Lemma joinsLoop_reverse (curMI : string) (curTJ : tableJoin) (alias expr : string)
    (rest : list string) (m : Model) (fi : Field) (rm : string) (relM : Model)
    (col : string) :
  R !! curMI = Some m ->
  fields_Get (fields m) expr = Some fi ->
  fieldType fi = One2Many \/ fieldType fi = Rev2One ->
  relatedModel R fi = Some rm ->
  R !! rm = Some relM ->
  jsonizePath R rm (reverseFK fi) = Ok col ->
  loop curMI curTJ alias (expr :: rest)
  = (r ← loop rm (mkNext relM (required fi) col curTJ "id" alias (exprAfter rest))
               (alias +:+ sqlSep +:+ tableName relM) rest;
     Ok (mkNext relM (required fi) col curTJ "id" alias (exprAfter rest) :: r)).
Proof.
  intros Hm Hf Ht Hrm HrelM Hcol. simpl. rewrite (deref_Some curMI m Hm). simpl.
  rewrite Hf, Hrm.
  assert (IsFKRelationType (fieldType fi) = false) as ->
    by (destruct Ht as [-> | ->]; reflexivity).
  rewrite andb_false_r.
  destruct Ht as [-> | ->]; rewrite Hcol; simpl; rewrite (deref_Some rm relM HrelM);
    reflexivity.
Qed.

(** C5, as amended. For a path segment that is a one-to-many or
    reverse-one-to-one field, the loop of the join resolver appends one
    join to the related table, whose ON clause equates the id column of
    the current table with the reverse foreign-key column of the related
    table, and goes on from the related model; the join is INNER if and
    only if the one-to-many (or reverse-one-to-one) field itself is
    required, and LEFT otherwise. *)
Theorem C5_reverse_join (curMI : string) (curTJ : tableJoin) (alias expr : string)
    (rest : list string) (m : Model) (fi : Field) (rm : string) (relM : Model)
    (col : string) :
  R !! curMI = Some m ->
  fields_Get (fields m) expr = Some fi ->
  fieldType fi = One2Many \/ fieldType fi = Rev2One ->
  relatedModel R fi = Some rm ->
  R !! rm = Some relM ->
  jsonizePath R rm (reverseFK fi) = Ok col ->
  exists j : tableJoin,
    loop curMI curTJ alias (expr :: rest)
    = (r ← loop rm j (alias +:+ sqlSep +:+ tableName relM) rest; Ok (j :: r))
    /\ tj_tableName j = quoteTableName (tableName relM)
    /\ tj_alias j = quoteTableName (alias +:+ sqlSep +:+ tableName relM)
    /\ tj_otherTable j = Some curTJ
    /\ tj_otherField j = "id"
    /\ tj_field j = col
    /\ sqlString j
       = Ok (((if required fi then "INNER " else "LEFT ") +:+ "JOIN ")
             +:+ tj_tableName j +:+ " " +:+ tj_alias j +:+ " ON "
             +:+ tj_alias curTJ +:+ "." +:+ "id" +:+ "="
             +:+ tj_alias j +:+ "." +:+ col +:+ " ")
    /\ (tj_innerJoin j = true <-> required fi = true).
Proof.
  intros Hm Hf Ht Hrm HrelM Hcol.
  exists (mkNext relM (required fi) col curTJ "id" alias (exprAfter rest)).
  split; [by apply (joinsLoop_reverse curMI curTJ alias expr rest m fi rm relM col)|].
  repeat split; try reflexivity; auto.
Qed.

(** The step of the loop on a many-to-many segment. *)
Lemma joinsLoop_m2m (curMI : string) (curTJ : tableJoin) (alias expr : string)
    (rest : list string) (m : Model) (fi : Field) (rm : string) (relM rel : Model)
    (ourCol theirCol : string) :
  R !! curMI = Some m ->
  fields_Get (fields m) expr = Some fi ->
  fieldType fi = Many2Many ->
  relatedModel R fi = Some rm ->
  R !! rm = Some relM ->
  R !! m2mRelModel fi = Some rel ->
  jsonizePath R (m2mRelModel fi) (m2mOurField fi) = Ok ourCol ->
  jsonizePath R (m2mRelModel fi) (m2mTheirField fi) = Ok theirCol ->
  loop curMI curTJ alias (expr :: rest)
  = (let tj := mkLink rel ourCol theirCol curTJ alias in
     let next := mkNext relM (required fi) "id" tj theirCol
                   (alias +:+ sqlSep +:+ tableName rel) (exprAfter rest) in
     r ← loop rm next ((alias +:+ sqlSep +:+ tableName rel) +:+ sqlSep +:+ tableName relM) rest;
     Ok (tj :: next :: r)).
Proof.
  intros Hm Hf Ht Hrm HrelM Hrel Ho Hth. simpl. rewrite (deref_Some curMI m Hm). simpl.
  rewrite Hf, Hrm, Ht. simpl. rewrite andb_false_r.
  rewrite (deref_Some _ rel Hrel). simpl. rewrite Ho. simpl. rewrite Hth. simpl.
  rewrite (deref_Some rm relM HrelM). reflexivity.
Qed.

(** [sort.Strings] on two different strings does not depend on the order
    in which they are given. *)
Lemma sortStrings2_comm (a b : string) : a ≠ b -> sortStrings2 a b = sortStrings2 b a.
Proof.
  intros Hne. unfold sortStrings2. rewrite (String.compare_antisym a b).
  destruct (String.compare b a) eqn:E; simpl; try reflexivity.
  apply String.compare_eq_iff in E. congruence.
Qed.

Lemma m2mRelModName_comm (linkModelName a b : string) :
  a ≠ b -> m2mRelModName linkModelName a b = m2mRelModName linkModelName b a.
Proof. intros Hne. unfold m2mRelModName. by rewrite (sortStrings2_comm a b Hne). Qed.

Variable snakeCaseFieldName : string -> FieldType -> string.

Local Abbreviation declare := (DeclareField snakeCaseFieldName).

(** Two declarations that name the two endpoints the other way round
    yield the same link model with the two fields exchanged. *)
Lemma DeclareField_paired (mfA mfB : Many2ManyField) (A B nA nB : string) :
  ourName mfB B = theirName mfA ->
  theirName mfB = ourName mfA A ->
  mf_M2MLinkModelName mfB = mf_M2MLinkModelName mfA ->
  ourName mfA A ≠ theirName mfA ->
  exists fA fB,
    declare mfA A nA = Ok fA /\ declare mfB B nB = Ok fB
    /\ fieldType fA = Many2Many /\ fieldType fB = Many2Many
    /\ m2mRelModel fB = m2mRelModel fA
    /\ m2mOurField fB = m2mTheirField fA
    /\ m2mTheirField fB = m2mOurField fA
    /\ m2mOurField fA ≠ m2mTheirField fA.
Proof.
  intros Ho Ht Hl Hne. unfold DeclareField. rewrite Ho, Ht, Hl.
  rewrite (bool_decide_eq_false_2 _ Hne).
  rewrite bool_decide_eq_false_2 by congruence.
  simpl. eexists _, _. split; [reflexivity|]. split; [reflexivity|]. simpl.
  repeat split; try done. by apply m2mRelModName_comm.
Qed.

(** C4. Joins of a many-to-many field.
    - For a path segment that is a many-to-many field, the loop of the
      join resolver appends exactly two joins and goes on from the related
      model: first the link table, on "current.id = link.ourColumn", then
      the target table, on "link.theirColumn = target.id".
    - The link model is named after the two endpoint names in lexical
      order, whichever side declares the field: two declarations that name
      the endpoints the other way round yield the same link model, with
      our and their fields exchanged.
    - Hence for two such paired fields the two traversals join the same
      link table, the column joined to the current table in one direction
      being the column joined to the target table in the other.
    - The lexical order decides the name of the link model only. Our and
      their fields follow the declaring side: our field is the endpoint
      name given as [M2MOurField], or else the name of the declaring
      model, and their field is the one given as [M2MTheirField], or else
      the name of the related model; a declaration whose two endpoint
      names are equal panics. *)
Theorem C4_many2many_joins :
  (forall (curMI : string) (curTJ : tableJoin) (alias expr : string)
          (rest : list string) (m : Model) (fi : Field) (rm : string) (relM rel : Model)
          (ourCol theirCol : string),
      R !! curMI = Some m ->
      fields_Get (fields m) expr = Some fi ->
      fieldType fi = Many2Many ->
      relatedModel R fi = Some rm ->
      R !! rm = Some relM ->
      R !! m2mRelModel fi = Some rel ->
      jsonizePath R (m2mRelModel fi) (m2mOurField fi) = Ok ourCol ->
      jsonizePath R (m2mRelModel fi) (m2mTheirField fi) = Ok theirCol ->
      exists tj next : tableJoin,
        loop curMI curTJ alias (expr :: rest)
        = (r ← loop rm next
                 ((alias +:+ sqlSep +:+ tableName rel) +:+ sqlSep +:+ tableName relM) rest;
           Ok (tj :: next :: r))
        /\ tj_tableName tj = quoteTableName (tableName rel)
        /\ tj_otherTable tj = Some curTJ
        /\ tj_otherField tj = "id" /\ tj_field tj = ourCol
        /\ tj_tableName next = quoteTableName (tableName relM)
        /\ tj_otherTable next = Some tj
        /\ tj_otherField next = theirCol /\ tj_field next = "id"
        /\ sqlString tj
           = Ok (("LEFT " +:+ "JOIN ") +:+ tj_tableName tj +:+ " " +:+ tj_alias tj +:+ " ON "
                 +:+ tj_alias curTJ +:+ "." +:+ "id" +:+ "="
                 +:+ tj_alias tj +:+ "." +:+ ourCol +:+ " ")
        /\ sqlString next
           = Ok (((if required fi then "INNER " else "LEFT ") +:+ "JOIN ")
                 +:+ tj_tableName next +:+ " " +:+ tj_alias next +:+ " ON "
                 +:+ tj_alias tj +:+ "." +:+ theirCol +:+ "="
                 +:+ tj_alias next +:+ "." +:+ "id" +:+ " "))
  /\ (forall (mfA mfB : Many2ManyField) (A B nA nB : string),
        ourName mfB B = theirName mfA ->
        theirName mfB = ourName mfA A ->
        mf_M2MLinkModelName mfB = mf_M2MLinkModelName mfA ->
        ourName mfA A ≠ theirName mfA ->
        exists fA fB,
          declare mfA A nA = Ok fA /\ declare mfB B nB = Ok fB
          /\ m2mRelModel fA
             = m2mRelModName (mf_M2MLinkModelName mfA) (ourName mfA A) (theirName mfA)
          /\ m2mRelModel fB = m2mRelModel fA
          /\ m2mOurField fB = m2mTheirField fA
          /\ m2mTheirField fB = m2mOurField fA)
  /\ (forall (fA fB : Field) (mi : string) (curTJ : tableJoin) (alias expr : string)
             (rest : list string) (m : Model) (rm : string) (relM rel : Model)
             (colA colB : string),
        m2mRelModel fB = m2mRelModel fA ->
        m2mOurField fB = m2mTheirField fA ->
        m2mTheirField fB = m2mOurField fA ->
        R !! m2mRelModel fA = Some rel ->
        jsonizePath R (m2mRelModel fA) (m2mOurField fA) = Ok colA ->
        jsonizePath R (m2mRelModel fA) (m2mTheirField fA) = Ok colB ->
        R !! mi = Some m ->
        fields_Get (fields m) expr = Some fB ->
        fieldType fB = Many2Many ->
        relatedModel R fB = Some rm ->
        R !! rm = Some relM ->
        exists tj next : tableJoin,
          loop mi curTJ alias (expr :: rest)
          = (r ← loop rm next
                   ((alias +:+ sqlSep +:+ tableName rel) +:+ sqlSep +:+ tableName relM) rest;
             Ok (tj :: next :: r))
          /\ tj_tableName tj = quoteTableName (tableName rel)
          /\ tj_field tj = colB /\ tj_otherField next = colA)
  /\ (forall (mf : Many2ManyField) (fcModel name : string),
        (ourName mf fcModel = theirName mf ->
         declare mf fcModel name
         = Panic "Many2many relation must have different 'M2MOurField' and 'M2MTheirField'")
        /\ (ourName mf fcModel ≠ theirName mf ->
            exists f : Field,
              declare mf fcModel name = Ok f
              /\ fieldType f = Many2Many
              /\ relatedModelName f = mf_RelationModel mf
              /\ m2mRelModel f
                 = m2mRelModName (mf_M2MLinkModelName mf) (ourName mf fcModel) (theirName mf)
              /\ m2mOurField f = ourName mf fcModel
              /\ m2mTheirField f = theirName mf
              /\ (mf_M2MOurField mf = "" -> m2mOurField f = fcModel)
              /\ (mf_M2MTheirField mf = "" -> m2mTheirField f = mf_RelationModel mf))).
Proof.
  split; [|split; [|split]].
  - intros curMI curTJ alias expr rest m fi rm relM rel ourCol theirCol
      Hm Hf Ht Hrm HrelM Hrel Ho Hth.
    eexists _, _. split.
    { by apply (joinsLoop_m2m curMI curTJ alias expr rest m fi rm relM rel ourCol theirCol). }
    repeat split; reflexivity.
  - intros mfA mfB A B nA nB Ho Ht Hl Hne.
    destruct (DeclareField_paired mfA mfB A B nA nB Ho Ht Hl Hne)
      as (fA & fB & HA & HB & _ & _ & Hrel & Hour & Htheir & _).
    exists fA, fB. repeat split; try done.
    unfold DeclareField in HA. rewrite (bool_decide_eq_false_2 _ Hne) in HA.
    simpl in HA. by inversion HA.
  - intros fA fB mi curTJ alias expr rest m rm relM rel colA colB
      Hrel Hour Htheir HR HcA HcB Hm Hf Ht Hrm HrelM.
    rewrite <- Hrel in HR, HcA, HcB. rewrite <- Htheir in HcA. rewrite <- Hour in HcB.
    eexists _, _. split.
    { by apply (joinsLoop_m2m mi curTJ alias expr rest m fB rm relM rel colB colA). }
    repeat split; reflexivity.
  - intros mf fcModel name. unfold DeclareField. split.
    + intros Heq. by rewrite (bool_decide_eq_true_2 _ Heq).
    + intros Hne. rewrite (bool_decide_eq_false_2 _ Hne). simpl.
      eexists. split; [reflexivity|]. simpl. repeat split.
      * intros Ho. unfold ourName. by rewrite (bool_decide_eq_true_2 _ Ho).
      * intros Ht. unfold theirName. by rewrite (bool_decide_eq_true_2 _ Ht).
Qed.

End Joins.

(** The claim read literally: our and their columns of the link table are
    chosen by a lexical tie-break between the two endpoint names, that is,
    they are a function of the two names taken in lexical order, whichever
    side declares the field. The tags of a post and the posts of a tag
    have the same two endpoint names, Post and Tag. Declared on Post, our
    field is Post and their field is Tag; declared on Tag, our field is
    Tag and their field is Post: the fields follow the declaring side. *)
Lemma C4_our_their_not_lexical :
  ~ (exists tieBreak : string * string -> string * string,
       forall (snakeCaseFieldName : string -> FieldType -> string) (mf : Many2ManyField)
              (fcModel name : string) (f : Field),
         DeclareField snakeCaseFieldName mf fcModel name = Ok f ->
         (m2mOurField f, m2mTheirField f)
         = tieBreak (sortStrings2 (ourName mf fcModel) (theirName mf))).
Proof.
  intros [tieBreak H].
  pose proof (H Demo.snakeCaseFieldName Demo.TagsDecl "Post" "Tags" Demo.Post_Tags eq_refl)
    as HPost.
  pose proof (H Demo.snakeCaseFieldName Demo.PostsDecl "Tag" "Posts" Demo.Tag_Posts eq_refl)
    as HTag.
  change (sortStrings2 (ourName Demo.TagsDecl "Post") (theirName Demo.TagsDecl))
    with ("Post", "Tag") in HPost.
  change (sortStrings2 (ourName Demo.PostsDecl "Tag") (theirName Demo.PostsDecl))
    with ("Post", "Tag") in HTag.
  rewrite <- HPost in HTag. discriminate HTag.
Qed.

(** The claim read literally: the join of a one-to-many field is INNER if
    and only if the reverse foreign key is required. The posts of a user
    are a one-to-many field that is not required, over the foreign key
    [Post.User], which is required: the join is a LEFT join. *)
Lemma C5_inner_join_ignores_reverse_fk :
  ~ (forall (R : gmap string Model) (quoteTableName : string -> string) (sqlSep : string)
            (mi expr : string) (m : Model) (fi : Field) (rm : string) (rfk : Field)
            (root j : tableJoin),
       R !! mi = Some m ->
       fields_Get (fields m) expr = Some fi ->
       fieldType fi = One2Many \/ fieldType fi = Rev2One ->
       relatedModel R fi = Some rm ->
       MustGet R rm (reverseFK fi) = Ok rfk ->
       generateTableJoins R quoteTableName sqlSep mi [expr] = Ok [root; j] ->
       (tj_innerJoin j = true <-> required rfk = true)).
Proof.
  intros H.
  pose (root := rootJoin Demo.quoteTableName Demo.User ["Posts"]).
  pose (j := nextJoin Demo.quoteTableName Demo.sqlSep Demo.Post false "user_id" root
               "id" "user" "id").
  destruct (H Demo.Registry Demo.quoteTableName Demo.sqlSep "User" "Posts" Demo.User
              Demo.User_Posts "Post" Demo.Post_User root j
              eq_refl eq_refl (or_introl eq_refl) eq_refl eq_refl eq_refl) as [_ Hinner].
  specialize (Hinner eq_refl). discriminate Hinner.
Qed.

Lemma C5_reverse_join_witness :
  exists j : tableJoin,
    joinsLoop Demo.Registry Demo.quoteTableName Demo.sqlSep "User"
      (rootJoin Demo.quoteTableName Demo.User ["Posts"]) "user" ["Posts"] = Ok [j]
    /\ tj_field j = "user_id" /\ tj_otherField j = "id"
    /\ tj_innerJoin j = false.
Proof.
  destruct (C5_reverse_join Demo.Registry Demo.quoteTableName Demo.sqlSep "User"
              (rootJoin Demo.quoteTableName Demo.User ["Posts"]) "user" "Posts" []
              Demo.User Demo.User_Posts "Post" Demo.Post "user_id"
              eq_refl eq_refl (or_introl eq_refl) eq_refl eq_refl eq_refl)
    as (j & Hloop & _ & _ & _ & Hother & Hfield & _ & Hinner).
  exists j. split; [exact Hloop|]. split; [exact Hfield|]. split; [exact Hother|].
  destruct (tj_innerJoin j); [|reflexivity].
  destruct Hinner as [Hinner _]. specialize (Hinner eq_refl). discriminate Hinner.
Defined.

Lemma C4_many2many_joins_witness :
  (exists tj next : tableJoin,
     joinsLoop Demo.Registry Demo.quoteTableName Demo.sqlSep "Post"
       (rootJoin Demo.quoteTableName Demo.Post ["Tags"]) "post" ["Tags"] = Ok [tj; next]
     /\ tj_field tj = "post_id" /\ tj_otherField next = "tag_id")
  /\ (exists tj next : tableJoin,
        joinsLoop Demo.Registry Demo.quoteTableName Demo.sqlSep "Tag"
          (rootJoin Demo.quoteTableName Demo.Tag ["Posts"]) "tag" ["Posts"] = Ok [tj; next]
        /\ tj_tableName tj = Demo.quoteTableName "post_tag_rel"
        /\ tj_field tj = "tag_id" /\ tj_otherField next = "post_id")
  /\ (exists fA fB : Field,
        DeclareField Demo.snakeCaseFieldName Demo.TagsDecl "Post" "Tags" = Ok fA
        /\ DeclareField Demo.snakeCaseFieldName Demo.PostsDecl "Tag" "Posts" = Ok fB
        /\ m2mRelModel fA = "PostTagRel" /\ m2mRelModel fB = "PostTagRel"
        /\ m2mOurField fB = m2mTheirField fA /\ m2mTheirField fB = m2mOurField fA)
  /\ (exists f : Field,
        DeclareField Demo.snakeCaseFieldName Demo.TagsDecl "Post" "Tags" = Ok f
        /\ m2mOurField f = "Post" /\ m2mTheirField f = "Tag")
  /\ (exists f : Field,
        DeclareField Demo.snakeCaseFieldName Demo.PostsDecl "Tag" "Posts" = Ok f
        /\ m2mOurField f = "Tag" /\ m2mTheirField f = "Post")
  /\ DeclareField Demo.snakeCaseFieldName Demo.TagsDecl "Tag" "Tags"
     = Panic "Many2many relation must have different 'M2MOurField' and 'M2MTheirField'".
Proof.
  destruct (C4_many2many_joins Demo.Registry Demo.quoteTableName Demo.sqlSep
              Demo.snakeCaseFieldName) as (H1 & H2 & H3 & H4).
  split; [|split; [|split; [|split; [|split]]]].
  4: { destruct (H4 Demo.TagsDecl "Post" "Tags") as [_ Hok].
       destruct (Hok ltac:(discriminate)) as (f & Hf & _ & _ & _ & _ & _ & Ho & Ht).
       exists f. split; [exact Hf|]. split; [exact (Ho eq_refl) | exact (Ht eq_refl)]. }
  4: { destruct (H4 Demo.PostsDecl "Tag" "Posts") as [_ Hok].
       destruct (Hok ltac:(discriminate)) as (f & Hf & _ & _ & _ & _ & _ & Ho & Ht).
       exists f. split; [exact Hf|]. split; [exact (Ho eq_refl) | exact (Ht eq_refl)]. }
  4: { destruct (H4 Demo.TagsDecl "Tag" "Tags") as [Hpanic _]. exact (Hpanic eq_refl). }
  3: { destruct (H2 Demo.TagsDecl Demo.PostsDecl "Post" "Tag" "Tags" "Posts"
                   eq_refl eq_refl eq_refl ltac:(discriminate))
         as (fA & fB & HA & HB & HrelA & HrelB & Hour & Htheir).
       exists fA, fB. split; [exact HA|]. split; [exact HB|].
       split; [by rewrite HrelA|]. split; [by rewrite HrelB, HrelA|].
       split; [exact Hour | exact Htheir]. }
  - destruct (H1 "Post" (rootJoin Demo.quoteTableName Demo.Post ["Tags"]) "post" "Tags" []
                Demo.Post Demo.Post_Tags "Tag" Demo.Tag Demo.PostTagRel "post_id" "tag_id"
                eq_refl eq_refl eq_refl eq_refl eq_refl eq_refl eq_refl eq_refl)
      as (tj & next & Hloop & _ & _ & _ & Hf & _ & _ & Ho & _).
    exists tj, next. split; [exact Hloop|]. split; [exact Hf | exact Ho].
  - destruct (H3 Demo.Post_Tags Demo.Tag_Posts "Tag"
                (rootJoin Demo.quoteTableName Demo.Tag ["Posts"]) "tag" "Posts" []
                Demo.Tag "Post" Demo.Post Demo.PostTagRel "post_id" "tag_id"
                eq_refl eq_refl eq_refl eq_refl eq_refl eq_refl eq_refl eq_refl eq_refl
                eq_refl eq_refl)
      as (tj & next & Hloop & Ht & Hf & Ho).
    exists tj, next. split; [exact Hloop|]. split; [exact Ht|]. split; [exact Hf | exact Ho].
Defined.

(** ** The FROM clause *)

Section FromClause.

Variable R : gmap string Model.
Variable quoteTableName : string -> string.
Variable sqlSep : string.

Local Abbreviation step := (tablesStep quoteTableName).
Local Abbreviation inv := (tablesInv quoteTableName).
Local Abbreviation joinsOf := (generateTableJoins R quoteTableName sqlSep).

Lemma foldM_app {A B} (f : A -> B -> result A) (a : A) (l1 l2 : list B) :
  foldM f a (l1 ++ l2) = (a' ← foldM f a l1; foldM f a' l2).
Proof.
  revert a. induction l1 as [|x l1 IH]; intros a; simpl; [done|].
  destruct (f a x); simpl; [apply IH|done|done].
Qed.

Lemma fromClause_snoc (strs : list string) (s : string) :
  fromClause (strs ++ [s]) = fromClause strs +:+ s.
Proof. unfold fromClause. by rewrite foldl_app. Qed.

Lemma tablesInv_init : inv (mkTablesState "" ∅ O) [] [].
Proof.
  split; [done|]. split; [constructor|]. split; [done|]. split; [constructor|].
  split; [|done]. intros a. simpl. split.
  - intros [x Hx]. by rewrite lookup_empty in Hx.
  - intros H. by apply elem_of_nil in H.
Qed.

(** One step of the inner loop: a join whose alias is known changes
    nothing; another one enters the FROM clause and the map. *)
Lemma tablesStep_inv (st st' : tablesState) (js : list tableJoin) (strs : list string)
    (j : tableJoin) :
  inv st js strs -> step st j = Ok st' ->
  (tj_alias j ∈ (tj_alias <$> js) /\ st' = st)
  \/ ((tj_alias j ∉ tj_alias <$> js)
      /\ exists s, sqlString j = Ok s /\ inv st' (js ++ [j]) (strs ++ [s])).
Proof.
  intros (Hidx & Hstr & Hres & Hnd & Hkeys & Hal) H. unfold tablesStep in H.
  destruct (ts_joinsMap st !! tj_alias j) as [a|] eqn:E.
  - left. inversion H; subst. split; [|done]. apply Hkeys. by rewrite E.
  - right. assert (tj_alias j ∉ tj_alias <$> js) as Hnin.
    { intros Hin. apply Hkeys in Hin. rewrite E in Hin. by destruct Hin. }
    split; [done|].
    destruct (sqlString j) as [s| |] eqn:Es; simpl in H; try done.
    inversion H; subst st'; clear H. exists s. split; [done|].
    set (m1 := <[tj_alias j := quoteTableName ("T" +:+ pretty (ts_aliasIndex st))]>
                 (ts_joinsMap st)).
    set (m2 := if bool_decide (ts_aliasIndex st = O)
               then <[tj_alias j := tj_alias j]> m1 else m1).
    assert (forall a, a ≠ tj_alias j -> m2 !! a = ts_joinsMap st !! a) as Hne.
    { intros a Ha. unfold m2, m1. case_bool_decide;
        rewrite ?lookup_insert_ne by done; done. }
    assert (m2 !! tj_alias j = Some (aliasFor quoteTableName (ts_aliasIndex st) j)) as Heq.
    { unfold m2, m1, aliasFor. case_bool_decide; by rewrite lookup_insert_eq. }
    repeat split; simpl.
    + rewrite length_app. simpl. lia.
    + apply Forall2_app; [done|]. by constructor.
    + by rewrite fromClause_snoc, Hres.
    + rewrite fmap_app. simpl. apply NoDup_app. split; [done|]. split.
      * intros a Ha Ha'. apply list_elem_of_singleton in Ha'. by subst.
      * apply NoDup_singleton.
    + intros Hs. rewrite fmap_app. simpl. apply elem_of_app.
      destruct (decide (a = tj_alias j)) as [-> | Ha].
      * right. by apply list_elem_of_singleton.
      * left. apply Hkeys. by rewrite <- (Hne a Ha).
    + intros Hin. rewrite fmap_app in Hin. simpl in Hin. apply elem_of_app in Hin.
      destruct (decide (a = tj_alias j)) as [-> | Ha]; [by rewrite Heq|].
      rewrite (Hne a Ha). apply Hkeys. destruct Hin as [Hin | Hin]; [done|].
      by apply list_elem_of_singleton in Hin.
    + intros k j0 Hk. destruct (decide (k < length js)) as [Hlt | Hge].
      * rewrite lookup_app_l in Hk by done.
        assert (tj_alias j0 ≠ tj_alias j) as Ha.
        { intros Ha. apply Hnin. rewrite <- Ha. apply list_elem_of_fmap.
          exists j0. split; [done|]. by eapply list_elem_of_lookup_2. }
        rewrite (Hne _ Ha). by apply Hal.
      * rewrite lookup_app_r in Hk by lia.
        destruct (k - length js) as [|n] eqn:En; simpl in Hk; [|done].
        inversion Hk; subst j0. rewrite Heq, Hidx. f_equal. f_equal. lia.
Qed.

(** The inner loop over the joins of one path. *)
Lemma tablesSteps_inv (tJoins : list tableJoin) :
  forall (st st' : tablesState) (js : list tableJoin) (strs : list string),
    inv st js strs -> foldM step st tJoins = Ok st' ->
    exists js' strs',
      inv st' (js ++ js') (strs ++ strs')
      /\ (forall j, j ∈ js' -> j ∈ tJoins)
      /\ (forall j, j ∈ tJoins -> tj_alias j ∈ tj_alias <$> (js ++ js')).
Proof.
  induction tJoins as [|j tJoins IH]; intros st st' js strs Hinv H; simpl in H.
  - inversion H; subst. exists [], []. rewrite !app_nil_r. split; [done|].
    split; intros j Hj; by apply elem_of_nil in Hj.
  - destruct (step st j) as [st1| |] eqn:E; simpl in H; try done.
    destruct (tablesStep_inv st st1 js strs j Hinv E)
      as [[Hin ->] | (Hnin & s & Hs & Hinv1)].
    + destruct (IH st st' js strs Hinv H) as (js' & strs' & Hinv' & Hsub & Hcov).
      exists js', strs'. split; [done|]. split.
      * intros j0 Hj0. right. by apply Hsub.
      * intros j0 Hj0. apply elem_of_cons in Hj0 as [-> | Hj0]; [|by apply Hcov].
        rewrite fmap_app. apply elem_of_app. by left.
    + destruct (IH st1 st' (js ++ [j]) (strs ++ [s]) Hinv1 H)
        as (js' & strs' & Hinv' & Hsub & Hcov).
      exists (j :: js'), (s :: strs').
      replace (js ++ j :: js') with ((js ++ [j]) ++ js') by (by rewrite <- app_assoc).
      replace (strs ++ s :: strs') with ((strs ++ [s]) ++ strs')
        by (by rewrite <- app_assoc).
      split; [done|]. split.
      * intros j0 Hj0. apply elem_of_cons in Hj0 as [-> | Hj0]; [by left|].
        right. by apply Hsub.
      * intros j0 Hj0. apply elem_of_cons in Hj0 as [-> | Hj0]; [|by apply Hcov].
        rewrite !fmap_app. simpl. apply elem_of_app. left. apply elem_of_app. right.
        by apply list_elem_of_singleton.
Qed.

(** The two loops over the paths of a query. *)
Lemma tablesLoop_inv (mi : string) (fExprs : list (list string)) :
  forall (st st' : tablesState) (js : list tableJoin) (strs : list string),
    inv st js strs -> tablesLoop R quoteTableName sqlSep mi st fExprs = Ok st' ->
    exists js' strs',
      inv st' (js ++ js') (strs ++ strs')
      /\ (forall j, j ∈ js' ->
            exists f tJoins, f ∈ fExprs /\ joinsOf mi f = Ok tJoins /\ j ∈ tJoins)
      /\ (forall f, f ∈ fExprs ->
            exists tJoins, joinsOf mi f = Ok tJoins
              /\ forall j, j ∈ tJoins -> tj_alias j ∈ tj_alias <$> (js ++ js')).
Proof.
  unfold tablesLoop.
  induction fExprs as [|f fExprs IH]; intros st st' js strs Hinv H; simpl in H.
  - inversion H; subst. exists [], []. rewrite !app_nil_r. split; [done|].
    split; intros j Hj; by apply elem_of_nil in Hj.
  - destruct (joinsOf mi f) as [tJoins| |] eqn:Ej; simpl in H; try done.
    destruct (foldM step st tJoins) as [st1| |] eqn:E1; simpl in H; try done.
    destruct (tablesSteps_inv tJoins st st1 js strs Hinv E1)
      as (js1 & strs1 & Hinv1 & Hsub1 & Hcov1).
    destruct (IH st1 st' (js ++ js1) (strs ++ strs1) Hinv1 H)
      as (js2 & strs2 & Hinv2 & Hsub2 & Hcov2).
    exists (js1 ++ js2), (strs1 ++ strs2). rewrite !app_assoc. split; [done|]. split.
    + intros j Hj. apply elem_of_app in Hj as [Hj | Hj].
      * exists f, tJoins. split; [by left|]. split; [done|]. by apply Hsub1.
      * destruct (Hsub2 j Hj) as (f' & tJ & Hf' & HtJ & Hin).
        exists f', tJ. split; [by right|]. done.
    + intros f' Hf'. apply elem_of_cons in Hf' as [-> | Hf']; [|by apply Hcov2].
      exists tJoins. split; [done|]. intros j Hj.
      rewrite fmap_app. apply elem_of_app. left. by apply Hcov1.
Qed.

Lemma tablesSteps_noop (st : tablesState) (tJoins : list tableJoin) :
  (forall j, j ∈ tJoins -> is_Some (ts_joinsMap st !! tj_alias j)) ->
  foldM step st tJoins = Ok st.
Proof.
  induction tJoins as [|j tJoins IH]; intros H; simpl; [done|].
  destruct (H j) as [a Ha]; [by left|].
  assert (step st j = Ok st) as -> by (unfold tablesStep; by rewrite Ha).
  simpl. apply IH. intros j0 Hj0. apply H. by right.
Qed.

(** The joins of a path start with the root table, under its own name. *)
Lemma generateTableJoins_root (mi : string) (f : list string) (tJoins : list tableJoin) :
  joinsOf mi f = Ok tJoins ->
  exists m r, R !! mi = Some m /\ tJoins = rootJoin quoteTableName m f :: r.
Proof.
  unfold generateTableJoins, deref. destruct (R !! mi) as [m|]; simpl; [|done].
  destruct (joinsLoop _ _ _ _ _ _ _) as [r| |]; simpl; try done.
  intros [= <-]. by exists m, r.
Qed.

(** C7. Joins and aliases of a query. When [tablesSQL] returns the FROM
    clause [res] and the map [joinsMap] for the paths [fExprs], there is a
    list [js] of joins such that
    - [res] is the concatenation of the clauses of the joins of [js], in
      order, and no two joins of [js] have the same alias: each distinct
      join, keyed by its alias (the chain of tables that leads to it),
      appears once;
    - the joins of [js] are joins of the paths, and every join of every
      path has its alias among those of [js];
    - the keys of [joinsMap] are the aliases of the joins of [js]; the
      join that entered first keeps its alias, and the [k]-th one after it
      is given the quoted alias "T" followed by [k];
    - that first join is the root table, under its own quoted name;
    - resolving again a path that is already among [fExprs] returns the
      same FROM clause and the same alias assignments. *)
Theorem C7_tables_aliases (mi : string) (fExprs : list (list string))
    (res : string) (joinsMap : gmap string string) :
  tablesSQL R quoteTableName sqlSep mi fExprs = Ok (res, joinsMap) ->
  exists (js : list tableJoin) (strs : list string),
    Forall2 (fun j s => sqlString j = Ok s) js strs
    /\ res = fromClause strs
    /\ NoDup (tj_alias <$> js)
    /\ (forall j, j ∈ js ->
          exists f tJoins, f ∈ fExprs /\ joinsOf mi f = Ok tJoins /\ j ∈ tJoins)
    /\ (forall f, f ∈ fExprs ->
          exists tJoins, joinsOf mi f = Ok tJoins
            /\ forall j, j ∈ tJoins -> tj_alias j ∈ tj_alias <$> js)
    /\ (forall a, is_Some (joinsMap !! a) <-> a ∈ tj_alias <$> js)
    /\ (forall k j, js !! k = Some j ->
          joinsMap !! tj_alias j
          = Some (if bool_decide (k = O) then tj_alias j
                  else quoteTableName ("T" +:+ pretty k)))
    /\ (forall f, f ∈ fExprs ->
          exists m j0, R !! mi = Some m /\ js !! O = Some j0
            /\ tj_joined j0 = false
            /\ tj_alias j0 = quoteTableName (tableName m)
            /\ joinsMap !! quoteTableName (tableName m)
               = Some (quoteTableName (tableName m)))
    /\ (forall f, f ∈ fExprs ->
          tablesSQL R quoteTableName sqlSep mi (fExprs ++ [f]) = Ok (res, joinsMap)).
Proof.
  intros H. unfold tablesSQL in H.
  destruct (tablesLoop R quoteTableName sqlSep mi _ fExprs) as [st'| |] eqn:E;
    simpl in H; try done.
  inversion H; subst res joinsMap; clear H.
  assert (exists js strs,
            inv st' js strs
            /\ (forall j, j ∈ js ->
                  exists f tJoins, f ∈ fExprs /\ joinsOf mi f = Ok tJoins /\ j ∈ tJoins)
            /\ (forall f, f ∈ fExprs ->
                  exists tJoins, joinsOf mi f = Ok tJoins
                    /\ forall j, j ∈ tJoins -> tj_alias j ∈ tj_alias <$> js)
            /\ (forall f, f ∈ fExprs ->
                  exists m, R !! mi = Some m
                    /\ js !! O = Some (rootJoin quoteTableName m (hd [] fExprs))))
    as (js & strs & (Hidx & Hstr & Hres & Hnd & Hkeys & Hal) & Hsub & Hcov & Hroot).
  { destruct fExprs as [|f rest].
    - unfold tablesLoop in E. simpl in E. inversion E; subst st'.
      exists [], []. split; [apply tablesInv_init|].
      repeat split; intros ? Hin; by apply elem_of_nil in Hin.
    - unfold tablesLoop in E. simpl in E.
      destruct (joinsOf mi f) as [tJoins| |] eqn:Ej; simpl in E; try done.
      destruct (generateTableJoins_root mi f tJoins Ej) as (m & r & Hm & ->).
      simpl in E.
      destruct (step (mkTablesState "" ∅ O) (rootJoin quoteTableName m f))
        as [st1| |] eqn:E1; simpl in E; try done.
      destruct (tablesStep_inv _ st1 [] [] _ tablesInv_init E1)
        as [[Hin _] | (_ & s0 & Hs0 & Hinv1)]; [by apply elem_of_nil in Hin|].
      destruct (foldM step st1 r) as [st2| |] eqn:E2; simpl in E; try done.
      destruct (tablesSteps_inv r st1 st2 _ _ Hinv1 E2)
        as (js1 & strs1 & Hinv2 & Hsub1 & Hcov1).
      destruct (tablesLoop_inv mi rest st2 st' _ _ Hinv2 E)
        as (js2 & strs2 & Hinv3 & Hsub2 & Hcov2).
      simpl in *. eexists _, _. split; [exact Hinv3|]. split; [|split].
      + intros j Hj. apply elem_of_cons in Hj as [-> | Hj];
          [|apply elem_of_app in Hj as [Hj | Hj]].
        * exists f, (rootJoin quoteTableName m f :: r).
          split; [by left|]. split; [done|]. by left.
        * exists f, (rootJoin quoteTableName m f :: r).
          split; [by left|]. split; [done|]. right. by apply Hsub1.
        * destruct (Hsub2 j Hj) as (f' & tJ & Hf' & HtJ & Hin).
          exists f', tJ. split; [by right|]. done.
      + intros f' Hf'. apply elem_of_cons in Hf' as [-> | Hf']; [|by apply Hcov2].
        eexists. split; [exact Ej|]. intros j Hj.
        change (rootJoin quoteTableName m f :: js1 ++ js2)
          with ((rootJoin quoteTableName m f :: js1) ++ js2).
        rewrite fmap_app. apply elem_of_app. left.
        apply elem_of_cons in Hj as [-> | Hj]; [by left|]. by apply Hcov1.
      + intros _ _. by exists m. }
  exists js, strs.
  split; [done|]. split; [done|]. split; [done|]. split; [done|]. split; [done|].
  split; [done|]. split; [done|]. split.
  - (* the root table *)
    intros f Hf. destruct (Hroot f Hf) as (m & Hm & H0).
    exists m, (rootJoin quoteTableName m (hd [] fExprs)).
    split; [done|]. split; [done|]. split; [done|]. split; [done|].
    apply (Hal O _ H0).
  - (* the same path twice *)
    intros f Hf. unfold tablesSQL, tablesLoop. rewrite foldM_app.
    unfold tablesLoop in E. rewrite E. simpl.
    destruct (Hcov f Hf) as (tJoins & -> & Hc). simpl.
    rewrite tablesSteps_noop; [done|]. intros j Hj. apply Hkeys. by apply Hc.
Qed.

End FromClause.

Lemma C7_tables_aliases_witness :
  exists (res : string) (joinsMap : gmap string string),
    tablesSQL Demo.Registry Demo.quoteTableName Demo.sqlSep "Post"
      [["tags_ids"; "name"]; ["user_id"; "name"]] = Ok (res, joinsMap)
    /\ joinsMap !! Demo.quoteTableName "post" = Some (Demo.quoteTableName "post")
    /\ tablesSQL Demo.Registry Demo.quoteTableName Demo.sqlSep "Post"
         ([["tags_ids"; "name"]; ["user_id"; "name"]] ++ [["tags_ids"; "name"]])
       = Ok (res, joinsMap).
Proof.
  destruct (tablesSQL Demo.Registry Demo.quoteTableName Demo.sqlSep "Post"
              [["tags_ids"; "name"]; ["user_id"; "name"]]) as [[res joinsMap]| |] eqn:E;
    [|vm_compute in E; discriminate E|vm_compute in E; discriminate E].
  exists res, joinsMap. split; [reflexivity|].
  destruct (C7_tables_aliases Demo.Registry Demo.quoteTableName Demo.sqlSep "Post"
              [["tags_ids"; "name"]; ["user_id"; "name"]] res joinsMap E)
    as (js & strs & _ & _ & _ & _ & _ & _ & _ & Hroot & Hsame).
  split.
  - destruct (Hroot ["tags_ids"; "name"] ltac:(left)) as (m & j0 & Hm & _ & _ & _ & Hmap).
    vm_compute in Hm. injection Hm as <-. exact Hmap.
  - apply Hsame. left.
Defined.

(** ** Reading computed fields without the permission *)

Section ComputeOnRead.

Variable R : gmap string Model.
Variable getComputedFields : string -> list string -> list Field.
Variable checkFieldPermission : Field -> Z -> Permission -> bool.
Variable callCompute : string -> Z -> string -> FieldMap.

Local Abbreviation cfStep := (computeFieldStep R checkFieldPermission callCompute).
Local Abbreviation cfValues :=
  (computeFieldValues R getComputedFields checkFieldPermission callCompute).

(** The iteration on a field that the user may not read changes nothing:
    no value is added to the result or to the cache for it, and no
    compute method is called for it. *)
Lemma computeFieldStep_denied (fuel : nat) (uid : Z) (mi : string) (id : Z)
    (st : cfState) (fInfo : Field) :
  checkFieldPermission fInfo uid Read = false ->
  cfStep fuel uid mi id st fInfo = Ok st.
Proof. intros H. unfold computeFieldStep. by rewrite H. Qed.

(** C9, as amended. When the permission oracle denies the read of a
    computed field to the user of the environment, the iteration of
    [computeFieldValues] on that field raises no error and changes neither
    the result, nor the cache, nor the list of the compute methods called;
    the other fields are processed as if the field had not been asked
    for. *)
Theorem C9_denied_field_is_skipped (fuel : nat) (uid : Z) (mi : string) (id : Z)
    (fInfo : Field) :
  checkFieldPermission fInfo uid Read = false ->
  (forall st : cfState, cfStep fuel uid mi id st fInfo = Ok st)
  /\ (forall (st : cfState) (before after : list Field),
        foldM (cfStep fuel uid mi id) st (before ++ fInfo :: after)
        = foldM (cfStep fuel uid mi id) st (before ++ after))
  /\ (forall (st : cfState) (fieldNames : list string) (before after : list Field),
        getComputedFields mi fieldNames = before ++ fInfo :: after ->
        cfValues fuel uid mi [id] st fieldNames
        = foldM (cfStep fuel uid mi id) st (before ++ after)).
Proof.
  intros H.
  assert (forall (st : cfState) (before after : list Field),
            foldM (cfStep fuel uid mi id) st (before ++ fInfo :: after)
            = foldM (cfStep fuel uid mi id) st (before ++ after)) as Hskip.
  { intros st before after. rewrite !foldM_app.
    destruct (foldM (cfStep fuel uid mi id) st before) as [st1| |]; simpl; try done.
    by rewrite (computeFieldStep_denied fuel uid mi id st1 fInfo H). }
  split; [intros st; by apply computeFieldStep_denied|]. split; [exact Hskip|].
  intros st fieldNames before after Hl. unfold computeFieldValues. rewrite Hl.
  apply Hskip.
Qed.

End ComputeOnRead.

(** The claim read literally: a field whose read is denied is absent from
    the result and its compute method is not called. [DisplayName], which
    user 1 may not read, is computed by the same method as
    [DecoratedName], which the user may read: the method is called for
    [DecoratedName], and the value it returns for [DisplayName] enters the
    result. *)
Lemma C9_denied_field_in_result :
  ~ (forall (R : gmap string Model) (getComputedFields : string -> list string -> list Field)
            (checkFieldPermission : Field -> Z -> Permission -> bool)
            (callCompute : string -> Z -> string -> FieldMap)
            (fuel : nat) (uid : Z) (mi : string) (id : Z) (fieldNames : list string)
            (fInfo : Field) (st' : cfState),
       fInfo ∈ getComputedFields mi fieldNames ->
       checkFieldPermission fInfo uid Read = false ->
       computeFieldValues R getComputedFields checkFieldPermission callCompute
         fuel uid mi [id] (mkCfState ∅ newCache []) fieldNames = Ok st' ->
       cf_params st' !! json fInfo = None /\ compute fInfo ∉ cf_calls st').
Proof.
  intros H.
  destruct (computeFieldValues Demo.Registry Demo.getComputedFields
              Demo.checkFieldPermission Demo.callCompute 2 1%Z "User" [7%Z]
              (mkCfState ∅ newCache []) []) as [st'| |] eqn:E;
    [|vm_compute in E; discriminate E|vm_compute in E; discriminate E].
  destruct (H Demo.Registry Demo.getComputedFields Demo.checkFieldPermission
              Demo.callCompute 2%nat 1%Z "User" 7%Z []
              (Demo.computedField "User" "DisplayName" "display_name" Char
                 "ComputeDecoratedName" "")
              st') as [Hnone _].
  - vm_compute. repeat constructor.
  - reflexivity.
  - exact E.
  - vm_compute in E. injection E as <-. vm_compute in Hnone. discriminate Hnone.
Qed.

Lemma C9_denied_field_is_skipped_witness :
  computeFieldValues Demo.Registry Demo.getComputedFields Demo.checkFieldPermission
    Demo.callCompute 2 1%Z "User" [7%Z] (mkCfState ∅ newCache []) ["DisplayName"; "Age"]
  = foldM (computeFieldStep Demo.Registry Demo.checkFieldPermission Demo.callCompute
             2 1%Z "User" 7%Z)
          (mkCfState ∅ newCache [])
          [Demo.computedField "User" "Age" "age" Integer "ComputeAge" "InverseSetAge"].
Proof.
  destruct (C9_denied_field_is_skipped Demo.Registry Demo.getComputedFields
              Demo.checkFieldPermission Demo.callCompute 2 1%Z "User" 7%Z
              (Demo.computedField "User" "DisplayName" "display_name" Char
                 "ComputeDecoratedName" "")
              eq_refl) as (_ & _ & H).
  apply (H (mkCfState ∅ newCache []) ["DisplayName"; "Age"]
           [Demo.computedField "User" "Age" "age" Integer "ComputeAge" "InverseSetAge"] []).
  vm_compute. reflexivity.
Defined.

(** ** Writing a computed field *)

Section InverseMethods.

Variable R : gmap string Model.
Variable Context : Type.
Variable HasKey : Context -> string -> bool.
Variable GetBool : Context -> string -> bool.
Variable FieldMap_Get : FieldMap -> string -> string -> option value.
Variable IsZero : value -> bool.

Local Abbreviation invStep :=
  (processInverseStep R Context HasKey GetBool FieldMap_Get IsZero).
Local Abbreviation invMethods :=
  (processInverseMethods R Context HasKey GetBool FieldMap_Get IsZero).


End InverseMethods.



(** ** Recomputation of stored fields *)

Section StoredFields.

Variable Store : Type.
Variable recGet : Store -> string -> Z -> string -> value.
Variable computeVals : Store -> string -> Z -> string -> list string -> FieldMap.
Variable recWrite : Store -> string -> Z -> FieldMap -> list string -> result Store.

Local Abbreviation usStep := (updateStoredStep Store recGet computeVals recWrite).
Local Abbreviation usFields := (updateStoredFields Store recGet computeVals recWrite).

Lemma Equals_true (ids ids' : list Z) :
  Equals ids ids' = true <-> (list_to_set ids : gset Z) = list_to_set ids'.
Proof. unfold Equals. apply bool_decide_eq_true. Qed.

Lemma Equals_false (ids ids' : list Z) :
  Equals ids ids' = false <-> (list_to_set ids : gset Z) ≠ list_to_set ids'.
Proof. unfold Equals. apply bool_decide_eq_false. Qed.

Lemma Some_bool_decide (P : Prop) `{Decision P} (b : bool) :
  Some (bool_decide P) = Some b <-> (if b then P else ~ P).
Proof.
  split.
  - intros [= <-]. case_bool_decide; done.
  - intros HP. f_equal. destruct b; [by apply bool_decide_eq_true_2|].
    by apply bool_decide_eq_false_2.
Qed.

Lemma Some_negb_Equals (ids ids' : list Z) (b : bool) :
  Some (negb (Equals ids ids')) = Some b
  <-> (if b then (list_to_set ids : gset Z) ≠ list_to_set ids'
       else (list_to_set ids : gset Z) = list_to_set ids').
Proof.
  split.
  - intros [= <-]. destruct (Equals ids ids') eqn:E; simpl.
    + by apply Equals_true.
    + by apply Equals_false.
  - intros H. f_equal. destruct b.
    + apply negb_true_iff. by apply Equals_false.
    + apply negb_false_iff. by apply Equals_true.
Qed.

Local Ltac compare_cases b :=
  lazy beta iota;
  lazymatch goal with
  | |- None = Some _ <-> False => split; [intros H; discriminate H | intros []]
  | |- Some (negb (Equals _ _)) = Some _ <-> _ => exact (Some_negb_Equals _ _ b)
  | |- Some (bool_decide _) = Some true <-> _ => exact (Some_bool_decide _ true)
  | |- Some (bool_decide _) = Some false <-> _ =>
      etrans; [exact (Some_bool_decide _ false)|];
      split; [apply dec_stable | intros H Hne; by apply Hne]
  end.

Lemma compareEntry_changed (cur v : value) :
  compareEntry cur v = Some true <-> changedValue cur v.
Proof.
  unfold compareEntry, changedValue, ifaceNeq.
  destruct cur; try compare_cases true; destruct v; compare_cases true.
Qed.

Lemma compareEntry_same (cur v : value) :
  compareEntry cur v = Some false <-> sameValue cur v.
Proof.
  unfold compareEntry, sameValue, ifaceNeq.
  destruct cur; try compare_cases false; destruct v; compare_cases false.
Qed.

Lemma compareEntry_comparable (cur v : value) :
  comparable cur v <-> is_Some (compareEntry cur v).
Proof.
  unfold compareEntry, comparable, ifaceNeq.
  destruct cur, v; lazy beta iota;
    lazymatch goal with
    | |- True <-> _ => split; [intros _; by eexists | done]
    | |- False <-> _ => split; [intros [] | intros [? Hb]; discriminate Hb]
    end.
Qed.

Lemma checkChanged_cons (cur : string -> value) (f : string) (v : value)
    (l : list (string * value)) :
  checkChanged cur ((f, v) :: l)
  = if bool_decide (f = "write_date") then checkChanged cur l
    else match compareEntry (cur f) v with
         | Some true => Ok true
         | Some false => checkChanged cur l
         | None =>
             match cur f with
             | VRecordSet _ _ => Panic "interface conversion: interface {} is not RecordSet"
             | _ => Panic "comparing uncomparable type []int64"
             end
         end.
Proof.
  simpl. case_bool_decide; [done|]. unfold compareEntry, ifaceNeq.
  destruct (cur f) eqn:Ec, v; simpl; try done;
    try (by destruct (bool_decide _));
    try (by destruct (negb _)).
Qed.

Lemma checkChanged_false (cur : string -> value) (l : list (string * value)) :
  checkChanged cur l = Ok false ->
  forall f v, (f, v) ∈ l -> f ≠ "write_date" -> sameValue (cur f) v.
Proof.
  induction l as [|[f0 v0] l IH]; intros H f v Hin Hf.
  - by apply elem_of_nil in Hin.
  - rewrite checkChanged_cons in H. apply elem_of_cons in Hin as [[= -> ->] | Hin].
    + rewrite bool_decide_eq_false_2 in H by done.
      destruct (compareEntry (cur f0) v0) as [[|]|] eqn:Ec; try done.
      * by apply compareEntry_same.
      * by destruct (cur f0).
    + case_bool_decide; [by apply IH|].
      destruct (compareEntry (cur f0) v0) as [[|]|] eqn:Ec; try done.
      * by apply IH.
      * by destruct (cur f0).
Qed.

Lemma checkChanged_true (cur : string -> value) (l : list (string * value)) :
  checkChanged cur l = Ok true ->
  exists f v, (f, v) ∈ l /\ f ≠ "write_date" /\ changedValue (cur f) v.
Proof.
  induction l as [|[f0 v0] l IH]; intros H; [done|].
  rewrite checkChanged_cons in H.
  assert (checkChanged cur l = Ok true ->
          exists f v, (f, v) ∈ (f0, v0) :: l /\ f ≠ "write_date" /\ changedValue (cur f) v)
    as Htail.
  { intros Ht. destruct (IH Ht) as (f & v & Hin & Hf & Hc).
    exists f, v. split; [by right|done]. }
  case_bool_decide as Hwd; [by apply Htail|].
  destruct (compareEntry (cur f0) v0) as [[|]|] eqn:Ec.
  - exists f0, v0. split; [by left|]. split; [done|]. by apply compareEntry_changed.
  - by apply Htail.
  - by destruct (cur f0).
Qed.

Lemma checkChanged_same (cur : string -> value) (l : list (string * value)) :
  (forall f v, (f, v) ∈ l -> f ≠ "write_date" -> sameValue (cur f) v) ->
  checkChanged cur l = Ok false.
Proof.
  induction l as [|[f0 v0] l IH]; intros H; [done|].
  rewrite checkChanged_cons.
  assert (checkChanged cur l = Ok false) as Ht
    by (apply IH; intros f v Hin; apply H; by right).
  case_bool_decide as Hwd; [done|].
  assert (compareEntry (cur f0) v0 = Some false) as ->
    by (apply compareEntry_same, H; [by left|done]).
  done.
Qed.

Lemma checkChanged_changed (cur : string -> value) (l : list (string * value)) :
  (forall f v, (f, v) ∈ l -> f ≠ "write_date" -> comparable (cur f) v) ->
  (exists f v, (f, v) ∈ l /\ f ≠ "write_date" /\ changedValue (cur f) v) ->
  checkChanged cur l = Ok true.
Proof.
  induction l as [|[f0 v0] l IH]; intros Hcmp (f & v & Hin & Hf & Hc).
  - by apply elem_of_nil in Hin.
  - rewrite checkChanged_cons.
    assert (forall f v, (f, v) ∈ l -> f ≠ "write_date" -> comparable (cur f) v) as Hcmp'
      by (intros f' v' Hin'; apply Hcmp; by right).
    apply elem_of_cons in Hin as [[= -> ->] | Hin].
    + rewrite bool_decide_eq_false_2 by done.
      by apply compareEntry_changed in Hc as ->.
    + assert (checkChanged cur l = Ok true) as Ht by (apply IH; [done|by exists f, v]).
      case_bool_decide as Hwd; [done|].
      pose proof (Hcmp f0 v0 ltac:(by left) Hwd) as Hcmp0.
      apply compareEntry_comparable in Hcmp0 as [[|] ->]; done.
Qed.

Lemma updateStoredStep_eq (mi method : string) (fs : list string) (s : Store)
    (trace : list event) (rec : Z) :
  usStep mi method fs (s, trace) rec
  = (let vals := computeVals s mi rec method fs in
     doUpdate ← checkChanged (recGet s mi rec) (map_to_list vals);
     if doUpdate : bool then
       s' ← recWrite s mi rec vals fs;
       Ok (s', (trace ++ [Computed rec method]) ++ [Written rec vals])
     else Ok (s, trace ++ [Computed rec method])).
Proof. reflexivity. Qed.

Lemma updateStoredStep_trace (mi method : string) (fs : list string) (s s' : Store)
    (trace trace' : list event) (rec : Z) :
  usStep mi method fs (s, trace) rec = Ok (s', trace') ->
  computedRecords trace' = computedRecords trace ++ [rec]
  /\ (writtenRecords trace' = writtenRecords trace
      \/ writtenRecords trace' = writtenRecords trace ++ [rec]).
Proof.
  rewrite updateStoredStep_eq. cbv zeta.
  destruct (checkChanged _ _) as [[|]| |]; simpl; try done.
  - destruct (recWrite _ _ _ _ _) as [s1| |]; simpl; try done.
    intros [= <- <-]. unfold computedRecords, writtenRecords.
    rewrite !omap_app. simpl. rewrite !app_nil_r. split; [done|]. by right.
  - intros [= <- <-]. unfold computedRecords, writtenRecords.
    rewrite !omap_app. simpl. rewrite !app_nil_r. split; [done|]. by left.
Qed.


End StoredFields.


(** * More properties *)

(** ** Many-to-many links of the cache, again *)

Section MoreLinkFacts.

(** A link is determined by its two cells. *)
Lemma link_eq (fi : Field) (l l' : Z * Z) :
  linkAt l (ourIndex fi) = linkAt l' (ourIndex fi) ->
  linkAt l (theirIndex fi) = linkAt l' (theirIndex fi) ->
  l = l'.
Proof.
  destruct l as [a b], l' as [a' b'].
  destruct (index_cases fi) as [[-> ->] | [-> ->]]; unfold linkAt; simpl;
    intros; congruence.
Qed.

Lemma NoDup_omap_inj {A B} (f : A -> option B) (l : list A) :
  (forall x y z, f x = Some z -> f y = Some z -> x = y) ->
  NoDup l -> NoDup (omap f l).
Proof.
  intros Hinj. induction 1 as [|x l Hx Hl IH]; simpl; [constructor|].
  destruct (f x) as [z|] eqn:E; [|done].
  constructor; [|done]. intros Hz. apply list_elem_of_omap in Hz as (y & Hy & Hfy).
  by rewrite (Hinj x y z E Hfy) in Hx.
Qed.

(** X1. The ids that [getM2MLinks] returns for a record are pairwise
    distinct, whatever the cache holds. *)
Theorem X1_getM2MLinks_NoDup (c : cache) (fi : Field) (id : Z) :
  NoDup (getM2MLinks c fi id).
Proof.
  unfold getM2MLinks. destruct (m2mLinks c !! m2mRelModel fi) as [links|]; [|constructor].
  apply NoDup_omap_inj; [|apply NoDup_elements].
  intros x y z Hx Hy.
  case_bool_decide as Ex; [|done]. case_bool_decide as Ey; [|done].
  inversion Hx; inversion Hy; subst. apply (link_eq fi); congruence.
Qed.

(** The links of a link model after [removeM2MLinks]. *)
Lemma removeM2MLinks_links (c : cache) (fi : Field) (id : Z) (rel : string)
    (link : Z * Z) :
  (exists links, m2mLinks (removeM2MLinks c fi id) !! rel = Some links /\ link ∈ links)
  <-> (exists links, m2mLinks c !! rel = Some links /\ link ∈ links)
      /\ (rel = m2mRelModel fi -> linkAt link (ourIndex fi) ≠ id).
Proof.
  unfold removeM2MLinks.
  destruct (m2mLinks c !! m2mRelModel fi) as [links0|] eqn:E; simpl.
  - destruct (decide (rel = m2mRelModel fi)) as [->|Hne].
    + rewrite lookup_insert_eq, E. split.
      * intros (links & [= <-] & Hin). apply elem_of_filter in Hin as [Hne Hin].
        split; [by exists links0|done].
      * intros [(links & [= <-] & Hin) Hne]. eexists. split; [done|].
        apply elem_of_filter. split; [by apply Hne|done].
    + rewrite lookup_insert_ne by done. split; [intros H; split; [done|done]|by intros [H _]].
  - split; [intros H; split; [done|]|by intros [H _]].
    intros ->. destruct H as (links & Hl & _). by rewrite E in Hl.
Qed.

(** X2. [removeM2MLinks] removes the links of the record and nothing
    else: seen through the field, the other records keep their links and
    the record has none; seen through the paired field, which names the
    two endpoints the other way round, the record is no longer linked to
    anyone and the other links stay. *)
Theorem X2_removeM2MLinks_exact (c : cache) (fi : Field) (id : Z) :
  (forall x y : Z,
      y ∈ getM2MLinks (removeM2MLinks c fi id) fi x
      <-> x ≠ id /\ y ∈ getM2MLinks c fi x)
  /\ (forall (fi' : Field) (x y : Z),
        m2mRelModel fi' = m2mRelModel fi ->
        m2mOurField fi' = m2mTheirField fi ->
        m2mTheirField fi' = m2mOurField fi ->
        m2mOurField fi ≠ m2mTheirField fi ->
        y ∈ getM2MLinks (removeM2MLinks c fi id) fi' x
        <-> y ≠ id /\ y ∈ getM2MLinks c fi' x).
Proof.
  split.
  - intros x y. rewrite !elem_of_getM2MLinks. split.
    + intros (links & link & Hl & Hin & Ho & Ht).
      assert (exists links, m2mLinks (removeM2MLinks c fi id) !! m2mRelModel fi = Some links
                            /\ link ∈ links) as H by (by exists links).
      apply removeM2MLinks_links in H as [(links0 & Hl0 & Hin0) Hne].
      split; [rewrite <- Ho; by apply Hne|]. by exists links0, link.
    + intros [Hne (links & link & Hl & Hin & Ho & Ht)].
      assert (exists links, m2mLinks (removeM2MLinks c fi id) !! m2mRelModel fi = Some links
                            /\ link ∈ links) as (links' & Hl' & Hin').
      { apply removeM2MLinks_links. split; [by exists links|]. intros _. by rewrite Ho. }
      by exists links', link.
  - intros fi' x y Hrel Hou Hth Hne. rewrite !elem_of_getM2MLinks.
    destruct (paired_index fi fi' Hou Hth Hne) as [Eo Et]. rewrite Eo, Et, Hrel. split.
    + intros (links & link & Hl & Hin & Ho & Ht).
      assert (exists links, m2mLinks (removeM2MLinks c fi id) !! m2mRelModel fi = Some links
                            /\ link ∈ links) as H by (by exists links).
      apply removeM2MLinks_links in H as [(links0 & Hl0 & Hin0) Hne'].
      split; [rewrite <- Ht; by apply Hne'|]. by exists links0, link.
    + intros [Hne' (links & link & Hl & Hin & Ho & Ht)].
      assert (exists links, m2mLinks (removeM2MLinks c fi id) !! m2mRelModel fi = Some links
                            /\ link ∈ links) as (links' & Hl' & Hin').
      { apply removeM2MLinks_links. split; [by exists links|]. intros _. by rewrite Ht. }
      by exists links', link.
Qed.

End MoreLinkFacts.

(** ** Cells of the cache *)

Section CellFacts.

Variable R : gmap string Model.

Lemma setEntry_ensureEntry (c : cache) (ref : cacheRef) (k : string) (v : value) :
  setEntry (ensureEntry c ref) ref k v = Ok (writeCell c ref k v).
Proof.
  unfold setEntry, ensureEntry, writeCell.
  destruct (data c !! ref) as [fm|] eqn:E; simpl.
  - by rewrite E.
  - rewrite lookup_insert_eq. by rewrite insert_insert_eq.
Qed.

Lemma cell_writeCell_eq (c : cache) (ref : cacheRef) (k : string) (v : value) :
  cell (writeCell c ref k v) ref k = Some v.
Proof. unfold cell, writeCell. simpl. rewrite lookup_insert_eq. simpl. apply lookup_insert_eq. Qed.

Lemma cell_writeCell_ne (c : cache) (ref ref' : cacheRef) (k k' : string) (v : value) :
  (ref', k') ≠ (ref, k) -> k' ≠ "id" \/ is_Some (data c !! ref) \/ ref' ≠ ref ->
  cell (writeCell c ref k v) ref' k' = cell c ref' k'.
Proof.
  intros Hne Hid. unfold cell, writeCell. simpl.
  destruct (decide (ref' = ref)) as [->|Hr].
  - rewrite lookup_insert_eq. simpl. rewrite lookup_insert_ne by congruence.
    destruct (data c !! ref) as [fm|] eqn:E; simpl; [done|].
    destruct Hid as [Hid | [[? Hid] | Hid]]; [|done|done].
    by rewrite lookup_singleton_ne.
  - by rewrite lookup_insert_ne.
Qed.

Lemma writeCell_is_Some (c : cache) (ref ref' : cacheRef) (k : string) (v : value) :
  is_Some (data c !! ref') -> is_Some (data (writeCell c ref k v) !! ref').
Proof.
  intros H. unfold writeCell. simpl. destruct (decide (ref' = ref)) as [->|Hr].
  - by rewrite lookup_insert_eq.
  - by rewrite lookup_insert_ne.
Qed.

Lemma writeCell_is_Some_eq (c : cache) (ref : cacheRef) (k : string) (v : value) :
  is_Some (data (writeCell c ref k v) !! ref).
Proof. unfold writeCell. simpl. by rewrite lookup_insert_eq. Qed.

(** Writing a field that is stored in its own cell. *)
Lemma updateEntryByRef_cell (fuel : nat) (c : cache) (ref : cacheRef)
    (jsonName : string) (v : value) (fi : Field) :
  MustGet R ref.1 jsonName = Ok fi -> storedInCell fi ->
  updateEntryByRef R (S fuel) c ref jsonName v = Ok (writeCell c ref jsonName v).
Proof.
  intros HG (H1 & H2 & H3).
  rewrite (updateEntryByRef_default R fuel c ref jsonName v fi HG H1 H2 H3).
  apply setEntry_ensureEntry.
Qed.

Lemma getByRef_cell (c : cache) (ref : cacheRef) (fName : string) (fi : Field) :
  MustGet R ref.1 fName = Ok fi -> storedInCell fi ->
  getByRef R c ref fName = Ok (default VNil (cell c ref fName)).
Proof. intros HG (H1 & H2 & H3). by apply getByRef_default with fi. Qed.

Lemma updateEntry_cell (fuel : nat) (c : cache) (mi : string) (id : Z) (f : string)
    (v : value) (fi fi' : Field) :
  Split f = [f] -> MustGet R mi f = Ok fi -> MustGet R mi (json fi) = Ok fi' ->
  storedInCell fi' ->
  updateEntry R (S fuel) c mi id f v = Ok (writeCell c (mi, id) (json fi) v, false).
Proof.
  intros HS HG HG' Hst. unfold updateEntry.
  rewrite (getRelatedRef_single R fuel c mi id f fi HS HG). cbn [mbind result_bind].
  by rewrite (updateEntryByRef_cell fuel c (mi, id) (json fi) v fi' HG' Hst).
Qed.

Lemma get_cell (fuel : nat) (c : cache) (mi : string) (id : Z) (f : string)
    (fi fi' : Field) :
  Split f = [f] -> MustGet R mi f = Ok fi -> MustGet R mi (json fi) = Ok fi' ->
  storedInCell fi' ->
  get R (S fuel) c mi id f = Ok (default VNil (cell c (mi, id) (json fi))).
Proof.
  intros HS HG HG' Hst. unfold get.
  rewrite (getRelatedRef_single R fuel c mi id f fi HS HG). cbn [mbind result_bind].
  by apply getByRef_cell with fi'.
Qed.

Lemma checkIfInCache_cell (fuel : nat) (c : cache) (mi : string) (id : Z) (f : string)
    (fi : Field) :
  Split f = [f] -> MustGet R mi f = Ok fi ->
  checkIfInCache R (S fuel) c mi [id] [f]
  = Ok (bool_decide (is_Some (cell c (mi, id) (json fi)))).
Proof.
  intros HS HG. unfold checkIfInCache.
  change (id0 ← [id]; fName ← [f]; [(id0, fName)]) with [(id, f)].
  cbn [foldM]. by rewrite (getRelatedRef_single R fuel c mi id f fi HS HG).
Qed.

End CellFacts.

(** ** Writing a one-to-many field *)

Section One2ManyUpdate.

Variable R : gmap string Model.

Lemma setEntry_writeCell (c : cache) (ref : cacheRef) (k : string) (v : value) :
  is_Some (data c !! ref) -> setEntry c ref k v = Ok (writeCell c ref k v).
Proof. intros [fm E]. unfold setEntry, writeCell. by rewrite E. Qed.

Lemma updateEntryVia_cell (fuel : nat) (c : cache) (rm : string) (id : Z) (k : string)
    (v : value) (fk : Field) :
  Split k = [k] -> MustGet R rm k = Ok fk -> json fk = k -> storedInCell fk ->
  updateEntryVia R (S fuel) (updateEntryByRef R (S fuel)) c (Some rm) id k v
  = Ok (writeCell c (rm, id) k v).
Proof.
  intros HS HG Hj Hst. unfold updateEntryVia.
  rewrite (getRelatedRef_single R fuel c rm id k fk HS HG). cbn [mbind result_bind].
  rewrite Hj. by apply updateEntryByRef_cell with fk.
Qed.

Lemma foldM_updateEntryVia (fuel : nat) (rm : string) (k : string) (v : value)
    (fk : Field) (ids : list Z) (c : cache) :
  Split k = [k] -> MustGet R rm k = Ok fk -> json fk = k -> storedInCell fk ->
  foldM (fun c id => updateEntryVia R (S fuel) (updateEntryByRef R (S fuel)) c (Some rm) id k v)
        c ids
  = Ok (foldl (fun c id => writeCell c (rm, id) k v) c ids).
Proof.
  intros HS HG Hj Hst. revert c. induction ids as [|a ids IH]; intros c; [done|].
  cbn [foldM foldl]. rewrite (updateEntryVia_cell fuel c rm a k v fk HS HG Hj Hst).
  cbn [mbind result_bind]. apply IH.
Qed.

Lemma foldl_writeCell_cell (rm : string) (k : string) (v : value) (ids : list Z)
    (c : cache) (id : Z) :
  id ∈ ids \/ cell c (rm, id) k = Some v ->
  cell (foldl (fun c id => writeCell c (rm, id) k v) c ids) (rm, id) k = Some v.
Proof.
  revert c. induction ids as [|a ids IH]; intros c H; simpl.
  - destruct H as [H | H]; [by apply elem_of_nil in H | done].
  - apply IH. destruct (decide (id = a)) as [->|Hne].
    + right. apply cell_writeCell_eq.
    + destruct H as [H | H].
      * apply elem_of_cons in H as [-> | H]; [done | by left].
      * right. rewrite cell_writeCell_ne; [done | congruence |].
        right. right. congruence.
Qed.

Lemma foldl_writeCell_is_Some (rm : string) (k : string) (v : value) (ids : list Z)
    (c : cache) (ref : cacheRef) :
  is_Some (data c !! ref) ->
  is_Some (data (foldl (fun c id => writeCell c (rm, id) k v) c ids) !! ref).
Proof.
  revert c. induction ids as [|a ids IH]; intros c H; simpl; [done|].
  apply IH. by apply writeCell_is_Some.
Qed.

(** X3. Writing a one-to-many field. [updateEntryByRef] on a one-to-many
    field with the ids of the children writes, in the entry of each child,
    the id of the record under the reverse foreign key, and marks the
    field in the entry of the record; a following read of the field
    returns ids among which are all the children written. *)
Theorem X3_updateEntryByRef_one2many (fuel : nat) (c : cache) (ref : cacheRef)
    (jsonName : string) (ids : list Z) (fi fk : Field) (rm : string) :
  MustGet R ref.1 jsonName = Ok fi ->
  fieldType fi = One2Many ->
  relatedModel R fi = Some rm ->
  Split (jsonReverseFK fi) = [jsonReverseFK fi] ->
  MustGet R rm (jsonReverseFK fi) = Ok fk ->
  json fk = jsonReverseFK fi ->
  storedInCell fk ->
  exists (c' : cache) (l : list Z),
    updateEntryByRef R (S (S fuel)) c ref jsonName (VIds ids) = Ok c'
    /\ (forall id, id ∈ ids -> cell c' (rm, id) (jsonReverseFK fi) = Some (VInt64 ref.2))
    /\ cell c' ref jsonName = Some (VBool true)
    /\ getByRef R c' ref jsonName = Ok (VIds l)
    /\ (forall id, id ∈ ids -> id ∈ l).
Proof.
  intros HG Ht Hrm HS HGk Hj Hst.
  set (k := jsonReverseFK fi) in *.
  set (W := fun (c : cache) (id : Z) => writeCell c (rm, id) k (VInt64 ref.2)).
  set (c1 := foldl W (ensureEntry c ref) ids).
  set (c' := writeCell c1 ref jsonName (VBool true)).
  assert (is_Some (data c1 !! ref)) as Hsome.
  { apply foldl_writeCell_is_Some, ensureEntry_is_Some. }
  assert (forall id, id ∈ ids -> cell c' (rm, id) k = Some (VInt64 ref.2)) as Hcells.
  { intros id Hin. unfold c'. rewrite cell_writeCell_ne.
    - apply foldl_writeCell_cell. by left.
    - intros [= Hr Hk]. destruct Hst as (Hst & _). apply Hst.
      rewrite <- Hr in HG. simpl in HG. rewrite <- Hk in HG. rewrite HGk in HG.
      inversion HG; subst fk. done.
    - right. by left. }
  assert (updateEntryByRef R (S (S fuel)) c ref jsonName (VIds ids) = Ok c') as Hupd.
  { cbn [updateEntryByRef]. rewrite HG. cbn [mbind result_bind]. rewrite Ht, Hrm.
    fold k. rewrite (foldM_updateEntryVia fuel rm k (VInt64 ref.2) fk ids _ HS HGk Hj Hst).
    cbn [mbind result_bind]. by apply setEntry_writeCell. }
  eexists c', _. split; [exact Hupd|]. split; [exact Hcells|].
  split; [apply cell_writeCell_eq|]. split.
  - unfold getByRef. rewrite HG. cbn [mbind result_bind]. rewrite Ht. reflexivity.
  - intros id Hin. specialize (Hcells id Hin). unfold cell in Hcells.
    destruct (data c' !! (rm, id)) as [cVal|] eqn:E; [|done]. simpl in Hcells.
    apply list_elem_of_omap. exists ((rm, id), cVal). split.
    + by apply elem_of_map_to_list.
    + simpl. rewrite bool_decide_eq_true_2; [done|]. by rewrite Hrm.
Qed.

End One2ManyUpdate.

(** ** Paths in the cache *)

Section PathFacts.

Variable R : gmap string Model.

(** A path of two segments or more: the first segment is read from the
    cache as a foreign key, and the rest of the path is resolved from the
    record it points to. *)
Lemma getRelatedRef_path (fuel : nat) (c : cache) (mi : string) (id : Z)
    (path e e2 : string) (rest : list string) (fi fi' : Field) :
  jsonizeExpr R mi (Split path) = Ok (e :: e2 :: rest) ->
  Split e = [e] -> MustGet R mi e = Ok fi ->
  MustGet R mi (json fi) = Ok fi' -> storedInCell fi' ->
  getRelatedRef R (S (S fuel)) c mi id path
  = match default VNil (cell c (mi, id) (json fi)) with
    | VInt64 fkID =>
        getRelatedRef R (S fuel) c (default mi (relatedModel R fi)) fkID (Join (e2 :: rest))
    | _ => Ok None
    end.
Proof.
  intros HJ HS HG HG' Hst.
  change (getRelatedRef R (S (S fuel)) c mi id path)
    with (exprs ← jsonizeExpr R mi (Split path);
          match exprs with
          | [] => Panic "index out of range"
          | [e] => Ok (Some ((mi, id), e))
          | e :: rest =>
              relMI ← getRelatedModelInfo R mi e;
              r ← getRelatedRef R (S fuel) c mi id e;
              v ← match r with
                  | None => Ok VNil
                  | Some (ref, fName) => getByRef R c ref fName
                  end;
              match v with
              | VInt64 fkID => getRelatedRef R (S fuel) c relMI fkID (Join rest)
              | _ => Ok None
              end
          end).
  rewrite HJ. cbn [mbind result_bind]. unfold getRelatedModelInfo. rewrite HG.
  cbn [mbind result_bind].
  rewrite (getRelatedRef_single R fuel c mi id e fi HS HG). cbn [mbind result_bind].
  rewrite (getByRef_cell R c (mi, id) (json fi) fi' HG' Hst). cbn [mbind result_bind].
  reflexivity.
Qed.

(** X4. A path whose first relation is not in the cache. When the cache
    does not hold a foreign key for the first segment of a path of two
    segments or more, [updateEntry] returns an error and leaves the cache
    as it is, [get] returns nil, [checkIfInCache] answers no and
    [removeEntry] changes nothing. *)
Theorem X4_path_not_in_cache (fuel : nat) (c : cache) (mi : string) (id : Z)
    (path e e2 : string) (rest : list string) (fi fi' : Field) (v : value) :
  jsonizeExpr R mi (Split path) = Ok (e :: e2 :: rest) ->
  Split e = [e] -> MustGet R mi e = Ok fi ->
  MustGet R mi (json fi) = Ok fi' -> storedInCell fi' ->
  (forall n : Z, cell c (mi, id) (json fi) ≠ Some (VInt64 n)) ->
  updateEntry R (S (S fuel)) c mi id path v = Ok (c, true)
  /\ get R (S (S fuel)) c mi id path = Ok VNil
  /\ checkIfInCache R (S (S fuel)) c mi [id] [path] = Ok false
  /\ removeEntry R (S (S fuel)) c mi id path = Ok c.
Proof.
  intros HJ HS HG HG' Hst Hmiss.
  assert (getRelatedRef R (S (S fuel)) c mi id path = Ok None) as Href.
  { rewrite (getRelatedRef_path fuel c mi id path e e2 rest fi fi' HJ HS HG HG' Hst).
    destruct (cell c (mi, id) (json fi)) as [[]|] eqn:E; simpl; try done.
    by destruct (Hmiss n). }
  assert (checkIfInCache R (S (S fuel)) c mi [id] [path] = Ok false) as Hchk.
  { unfold checkIfInCache.
    change (id0 ← [id]; fName ← [path]; [(id0, fName)]) with [(id, path)].
    cbn [foldM]. by rewrite Href. }
  split; [|split; [|split]].
  - unfold updateEntry. by rewrite Href.
  - unfold get. by rewrite Href.
  - exact Hchk.
  - unfold removeEntry. by rewrite Hchk.
Qed.

(** X5. Round trip along a path. When the cache holds the foreign key
    [fk] for the first segment of a path of two segments, [updateEntry]
    on the path writes the value in the entry of the record that the
    foreign key points to, and [get] returns it, along the path and
    directly on that record, provided the cell written is not the cell of
    the foreign key itself. *)
Theorem X5_path_round_trip (fuel : nat) (c : cache) (mi : string) (id : Z)
    (path e e2 : string) (fi fi' f2 f2' : Field) (fk : Z) (rm : string) (v : value) :
  jsonizeExpr R mi (Split path) = Ok [e; e2] ->
  Split e = [e] -> MustGet R mi e = Ok fi ->
  MustGet R mi (json fi) = Ok fi' -> storedInCell fi' ->
  cell c (mi, id) (json fi) = Some (VInt64 fk) ->
  rm = default mi (relatedModel R fi) ->
  Split e2 = [e2] -> MustGet R rm e2 = Ok f2 ->
  MustGet R rm (json f2) = Ok f2' -> storedInCell f2' ->
  ((rm, fk), json f2) ≠ ((mi, id), json fi) ->
  exists c' : cache,
    updateEntry R (S (S fuel)) c mi id path v = Ok (c', false)
    /\ cell c' (rm, fk) (json f2) = Some v
    /\ get R (S (S fuel)) c' mi id path = Ok v
    /\ get R (S fuel) c' rm fk e2 = Ok v.
Proof.
  intros HJ HS HG HG' Hst Hfk Hrm HS2 HG2 HG2' Hst2 Hne.
  assert (forall c0, cell c0 (mi, id) (json fi) = Some (VInt64 fk) ->
            getRelatedRef R (S (S fuel)) c0 mi id path = Ok (Some ((rm, fk), json f2)))
    as Href.
  { intros c0 H0.
    rewrite (getRelatedRef_path fuel c0 mi id path e e2 [] fi fi' HJ HS HG HG' Hst).
    rewrite H0. simpl default. rewrite <- Hrm.
    change (Join [e2]) with e2.
    by apply getRelatedRef_single. }
  exists (writeCell c (rm, fk) (json f2) v).
  assert (cell (writeCell c (rm, fk) (json f2) v) (mi, id) (json fi) = Some (VInt64 fk))
    as Hfk'.
  { rewrite cell_writeCell_ne; [done | congruence |].
    destruct (decide ((mi, id) = (rm, fk))) as [E|E]; [|by right; right].
    right. left. rewrite <- E. unfold cell in Hfk.
    destruct (data c !! (mi, id)); [done|discriminate Hfk]. }
  split; [|split; [|split]].
  - unfold updateEntry. rewrite (Href c Hfk). cbn [mbind result_bind].
    by rewrite (updateEntryByRef_cell R (S fuel) c (rm, fk) (json f2) v f2' HG2' Hst2).
  - apply cell_writeCell_eq.
  - unfold get. rewrite (Href _ Hfk'). cbn [mbind result_bind].
    rewrite (getByRef_cell R _ (rm, fk) (json f2) f2' HG2' Hst2).
    by rewrite cell_writeCell_eq.
  - rewrite (get_cell R fuel _ rm fk e2 f2 f2' HS2 HG2 HG2' Hst2).
    by rewrite cell_writeCell_eq.
Qed.

End PathFacts.

(** ** Removing an entry, asking for entries *)

Section RemoveEntryFacts.

Variable R : gmap string Model.

(** The cache after the [delete] of [removeEntry]. *)
Lemma cell_delete (c : cache) (ref ref' : cacheRef) (f k : string) (fm : FieldMap) :
  data c !! ref = Some fm ->
  cell (mkCache (<[ref := delete f fm]> (data c)) (m2mLinks c)) ref' k
  = if bool_decide ((ref', k) = (ref, f)) then None else cell c ref' k.
Proof.
  intros E. unfold cell. simpl. case_bool_decide as H.
  - inversion H; subst. rewrite lookup_insert_eq. simpl. apply lookup_delete_eq.
  - destruct (decide (ref' = ref)) as [->|Hr].
    + rewrite lookup_insert_eq, E. simpl. apply lookup_delete_ne. congruence.
    + by rewrite lookup_insert_ne.
Qed.

(** X6. Removing an entry. [removeEntry] on a field stored in its own
    cell and addressed by its JSON name returns; afterwards the cell is
    empty, [get] returns nil and [checkIfInCache] answers no; every other
    cell of the cache and the many-to-many links are as they were. *)
Theorem X6_removeEntry_cell (fuel fuel' : nat) (c : cache) (mi : string) (id : Z)
    (f : string) (fi : Field) :
  Split f = [f] -> MustGet R mi f = Ok fi -> json fi = f -> storedInCell fi ->
  exists c' : cache,
    removeEntry R (S fuel) c mi id f = Ok c'
    /\ cell c' (mi, id) f = None
    /\ get R (S fuel') c' mi id f = Ok VNil
    /\ checkIfInCache R (S fuel') c' mi [id] [f] = Ok false
    /\ (forall ref k, (ref, k) ≠ ((mi, id), f) -> cell c' ref k = cell c ref k)
    /\ m2mLinks c' = m2mLinks c.
Proof.
  intros HS HG Hj Hst.
  assert (MustGet R mi (json fi) = Ok fi) as HG' by (by rewrite Hj).
  assert (exists c' : cache,
            removeEntry R (S fuel) c mi id f = Ok c'
            /\ cell c' (mi, id) f = None
            /\ (forall ref k, (ref, k) ≠ ((mi, id), f) -> cell c' ref k = cell c ref k)
            /\ m2mLinks c' = m2mLinks c) as (c' & Hrm & Hnone & Hframe & Hlinks).
  { unfold removeEntry. rewrite (checkIfInCache_cell R fuel c mi id f fi HS HG), Hj.
    cbn [mbind result_bind]. case_bool_decide as Hin.
    - rewrite HG. cbn [mbind result_bind].
      destruct Hst as (_ & _ & Hm). rewrite bool_decide_eq_false_2 by done.
      unfold cell in Hin. destruct (data c !! (mi, id)) as [fm|] eqn:E;
        [|by destruct Hin].
      eexists. split; [done|]. split; [|split; [|done]].
      + rewrite (cell_delete c (mi, id) (mi, id) f f fm E).
        by rewrite bool_decide_eq_true_2.
      + intros ref k Hne. rewrite (cell_delete c (mi, id) ref f k fm E).
        by rewrite bool_decide_eq_false_2.
    - exists c. split; [done|]. split; [|done].
      destruct (cell c (mi, id) f) eqn:E; [|done]. destruct Hin. by eexists. }
  exists c'. split; [done|]. split; [done|]. split; [|split; [|done]].
  - rewrite (get_cell R fuel' c' mi id f fi fi HS HG HG' Hst). by rewrite Hj, Hnone.
  - rewrite (checkIfInCache_cell R fuel' c' mi id f fi HS HG), Hj, Hnone.
    rewrite bool_decide_eq_false_2; [done|]. by intros [? ?].
Qed.

(** X7. Removing an entry by a name that is not the JSON name. The value
    of a field is cached under the JSON name of the field, and
    [removeEntry] deletes the key it is given: called with a name of the
    field that is not its JSON name, it leaves the cached value where it
    is, and [checkIfInCache] answers as before. *)
Theorem X7_removeEntry_by_name (fuel fuel' : nat) (c : cache) (mi : string) (id : Z)
    (f : string) (fi : Field) :
  Split f = [f] -> MustGet R mi f = Ok fi -> json fi ≠ f ->
  exists c' : cache,
    removeEntry R (S fuel) c mi id f = Ok c'
    /\ (forall ref, cell c' ref (json fi) = cell c ref (json fi))
    /\ checkIfInCache R (S fuel') c' mi [id] [f]
       = checkIfInCache R (S fuel') c mi [id] [f].
Proof.
  intros HS HG Hj.
  assert (exists c' : cache,
            removeEntry R (S fuel) c mi id f = Ok c'
            /\ forall ref, cell c' ref (json fi) = cell c ref (json fi))
    as (c' & Hrm & Hframe).
  { unfold removeEntry. rewrite (checkIfInCache_cell R fuel c mi id f fi HS HG).
    cbn [mbind result_bind]. case_bool_decide as Hin; [|by exists c].
    rewrite HG. cbn [mbind result_bind].
    unfold cell in Hin. destruct (data c !! (mi, id)) as [fm|] eqn:E;
      [|by destruct Hin].
    eexists. split; [done|]. intros ref.
    assert (cell (mkCache (<[(mi, id) := delete f fm]> (data c)) (m2mLinks c)) ref (json fi)
            = cell c ref (json fi)) as Hc.
    { rewrite (cell_delete c (mi, id) ref f (json fi) fm E).
      rewrite bool_decide_eq_false_2; [done|]. congruence. }
    case_bool_decide; [|done].
    unfold cell in *. by rewrite removeM2MLinks_data. }
  exists c'. split; [done|]. split; [done|].
  rewrite !(checkIfInCache_cell R fuel' _ mi id f fi HS HG). by rewrite Hframe.
Qed.

End RemoveEntryFacts.

Section CheckIfInCacheFacts.

Variable R : gmap string Model.

Local Abbreviation step := (checkIfInCacheStep R).

Lemma checkIfInCache_unfold (fuel : nat) (c : cache) (mi : string) (ids : list Z)
    (fs : list string) :
  checkIfInCache R fuel c mi ids fs
  = match ids with
    | [] => Ok false
    | _ => foldM (step fuel c mi) true (id ← ids; fName ← fs; [(id, fName)])
    end.
Proof. reflexivity. Qed.

Lemma checkIfInCache_one (fuel : nat) (c : cache) (mi : string) (id : Z) (f : string) :
  checkIfInCache R fuel c mi [id] [f] = step fuel c mi true (id, f).
Proof.
  rewrite checkIfInCache_unfold.
  change (id0 ← [id]; fName ← [f]; [(id0, fName)]) with [(id, f)].
  cbn [foldM]. by destruct (step fuel c mi true (id, f)).
Qed.

Lemma foldM_step_false (fuel : nat) (c : cache) (mi : string) (l : list (Z * string)) :
  foldM (step fuel c mi) false l = Ok false.
Proof. induction l as [|[id f] l IH]; [done|]. cbn [foldM step mbind result_bind]. done. Qed.

Lemma foldM_step_true (fuel : nat) (c : cache) (mi : string) (l : list (Z * string)) :
  foldM (step fuel c mi) true l = Ok true
  <-> forall p, p ∈ l -> step fuel c mi true p = Ok true.
Proof.
  induction l as [|p l IH].
  - split; [|done]. intros _ p H. by apply elem_of_nil in H.
  - cbn [foldM]. destruct (step fuel c mi true p) as [[]| |] eqn:E; cbn [mbind result_bind].
    + rewrite IH. split.
      * intros H q Hq. apply elem_of_cons in Hq as [-> | Hq]; [done | by apply H].
      * intros H q Hq. apply H. by right.
    + rewrite foldM_step_false. split; [done|]. intros H.
      specialize (H p (list_elem_of_here _ _)). congruence.
    + split; [done|]. intros H. specialize (H p (list_elem_of_here _ _)). congruence.
    + split; [done|]. intros H. specialize (H p (list_elem_of_here _ _)). congruence.
Qed.

Lemma elem_of_pairs (ids : list Z) (fs : list string) (p : Z * string) :
  p ∈ (id ← ids; fName ← fs; [(id, fName)]) <-> p.1 ∈ ids /\ p.2 ∈ fs.
Proof.
  rewrite list_elem_of_bind. split.
  - intros (id & Hp & Hid). apply list_elem_of_bind in Hp as (f & Hp & Hf).
    apply list_elem_of_singleton in Hp as ->. done.
  - intros [Hid Hf]. exists p.1. split; [|done]. apply list_elem_of_bind.
    exists p.2. split; [|done]. destruct p. by apply list_elem_of_singleton.
Qed.

(** X8. [checkIfInCache] answers yes only for all the records and all the
    fields at once. It answers no when no id is given, and yes when ids
    are given with no field name; on ids and field names it answers yes
    exactly when it answers yes on each id with each field name. *)
Theorem X8_checkIfInCache_all (fuel : nat) (c : cache) (mi : string) :
  (forall fs : list string, checkIfInCache R fuel c mi [] fs = Ok false)
  /\ (forall ids : list Z, ids ≠ [] -> checkIfInCache R fuel c mi ids [] = Ok true)
  /\ (forall (ids : list Z) (fs : list string),
        ids ≠ [] ->
        checkIfInCache R fuel c mi ids fs = Ok true
        <-> forall id f, id ∈ ids -> f ∈ fs -> checkIfInCache R fuel c mi [id] [f] = Ok true).
Proof.
  assert (forall (ids : list Z) (fs : list string),
            ids ≠ [] ->
            checkIfInCache R fuel c mi ids fs = Ok true
            <-> forall id f, id ∈ ids -> f ∈ fs -> checkIfInCache R fuel c mi [id] [f] = Ok true)
    as Hall.
  { intros ids fs Hne. rewrite checkIfInCache_unfold.
    destruct ids as [|i ids]; [done|]. rewrite foldM_step_true. split.
    - intros H id f Hid Hf. rewrite checkIfInCache_one. apply H.
      by apply elem_of_pairs.
    - intros H [id f] Hp. apply elem_of_pairs in Hp as [Hid Hf].
      rewrite <- checkIfInCache_one. by apply H. }
  split; [done|]. split; [|exact Hall].
  intros ids Hne. apply Hall; [done|]. intros id f _ Hf. by apply elem_of_nil in Hf.
Qed.

End CheckIfInCacheFacts.

(** ** Whole records *)

Section GetRecordFacts.

Variable R : gmap string Model.

Lemma foldM_insert_keys (g : string -> result value) (ks : list string)
    (res0 res : FieldMap) :
  foldM (fun (res : FieldMap) k => v ← g k; Ok (<[k := v]> res)) res0 ks = Ok res ->
  forall k, is_Some (res !! k) <-> is_Some (res0 !! k) \/ k ∈ ks.
Proof.
  revert res0. induction ks as [|a ks IH]; intros res0 H k.
  - inversion H; subst. split; [auto|]. intros [? | Hk]; [done | by apply elem_of_nil in Hk].
  - cbn [foldM] in H. destruct (g a) as [v| |]; cbn [mbind result_bind] in H; try done.
    rewrite (IH _ H k). rewrite elem_of_cons. destruct (decide (k = a)) as [->|Hne].
    + rewrite lookup_insert_eq. split; [intros _; right; by left | intros _; left; by eexists].
    + rewrite lookup_insert_ne by done. split; [intros [?|?]; auto | intros [?|[?|?]]; auto].
      done.
Qed.

Lemma foldM_insert_values (g : string -> result value) (h : string -> value)
    (ks : list string) (res0 : FieldMap) :
  (forall k, k ∈ ks -> g k = Ok (h k)) ->
  foldM (fun (res : FieldMap) k => v ← g k; Ok (<[k := v]> res)) res0 ks
  = Ok (foldl (fun (res : FieldMap) k => <[k := h k]> res) res0 ks).
Proof.
  revert res0. induction ks as [|a ks IH]; intros res0 H; [done|].
  cbn [foldM foldl]. rewrite (H a) by (by left). cbn [mbind result_bind].
  apply IH. intros k Hk. apply H. by right.
Qed.

Lemma foldl_insert_lookup (h : string -> value) (ks : list string) (res0 : FieldMap)
    (k : string) :
  foldl (fun (res : FieldMap) k => <[k := h k]> res) res0 ks !! k
  = if bool_decide (k ∈ ks) then Some (h k) else res0 !! k.
Proof.
  revert res0. induction ks as [|a ks IH]; intros res0; cbn [foldl].
  - case_bool_decide as H; [by apply elem_of_nil in H | done].
  - rewrite IH. destruct (decide (k ∈ ks)) as [Hin|Hin].
    + rewrite !bool_decide_eq_true_2; [done | by right | done].
    + rewrite (bool_decide_eq_false_2 (k ∈ ks)) by done.
      destruct (decide (k = a)) as [->|Hne].
      * rewrite lookup_insert_eq. rewrite bool_decide_eq_true_2; [done | by left].
      * rewrite lookup_insert_ne by done. rewrite bool_decide_eq_false_2; [done|].
        intros H. apply elem_of_cons in H as [? | ?]; done.
Qed.

(** X9. The whole record. [getRecord] returns the empty field map for a
    record that the cache does not hold; when it returns, the keys of its
    result are the keys of the entry of the record; and when these keys
    are the JSON names of fields stored in their own cell, the result is
    the entry itself. *)
Theorem X9_getRecord_entry (fuel : nat) (c : cache) (mi : string) (id : Z) :
  (data c !! (mi, id) = None -> getRecord R fuel c mi id = Ok ∅)
  /\ (forall res : FieldMap,
        getRecord R fuel c mi id = Ok res ->
        forall k, is_Some (res !! k) <-> is_Some (cell c (mi, id) k))
  /\ (forall (fuel' : nat) (fm : FieldMap),
        fuel = S fuel' ->
        data c !! (mi, id) = Some fm ->
        (forall k, is_Some (fm !! k) ->
           Split k = [k]
           /\ exists fi, MustGet R mi k = Ok fi /\ json fi = k /\ storedInCell fi) ->
        getRecord R fuel c mi id = Ok fm).
Proof.
  split; [|split].
  - intros E. unfold getRecord. rewrite E. simpl. by rewrite map_to_list_empty.
  - intros res H k. unfold getRecord in H.
    rewrite (foldM_insert_keys _ _ _ _ H k). unfold cell.
    destruct (data c !! (mi, id)) as [fm|]; simpl.
    + rewrite lookup_empty. split.
      * intros [[? ?] | Hk]; [done|]. apply list_elem_of_fmap in Hk as ([k' v] & -> & Hk).
        apply elem_of_map_to_list in Hk. by eexists.
      * intros [v Hk]. right. apply list_elem_of_fmap. exists (k, v).
        split; [done|]. by apply elem_of_map_to_list.
    + rewrite map_to_list_empty. simpl. rewrite lookup_empty. split.
      * intros [[? ?] | Hk]; [done | by apply elem_of_nil in Hk].
      * by intros [? ?].
  - intros fuel' fm -> E Hkeys. unfold getRecord. rewrite E. simpl default.
    rewrite (foldM_insert_values _ (fun k => default VNil (fm !! k))).
    + f_equal. apply map_eq. intros k. rewrite foldl_insert_lookup.
      case_bool_decide as Hin.
      * apply list_elem_of_fmap in Hin as ([k' v] & -> & Hk).
        apply elem_of_map_to_list in Hk. simpl. by rewrite Hk.
      * rewrite lookup_empty. destruct (fm !! k) as [v|] eqn:Ek; [|done].
        destruct Hin. apply list_elem_of_fmap. exists (k, v). split; [done|].
        by apply elem_of_map_to_list.
    + intros k Hk. apply list_elem_of_fmap in Hk as ([k' v] & -> & Hk).
      apply elem_of_map_to_list in Hk. simpl.
      destruct (Hkeys k' (ltac:(by eexists))) as (HS & fi & HG & Hj & Hst).
      assert (MustGet R mi (json fi) = Ok fi) as HG' by (by rewrite Hj).
      rewrite (get_cell R fuel' c mi id k' fi fi HS HG HG' Hst), Hj.
      unfold cell. by rewrite E.
Qed.

End GetRecordFacts.

Section AddRecordFacts.

Variable R : gmap string Model.

Lemma foldl_writeCells_cell (ref : cacheRef) (val : string -> value) (ks : list string)
    (c : cache) (k : string) :
  k ∈ ks \/ cell c ref k = Some (val k) ->
  cell (foldl (fun c k => writeCell c ref k (val k)) c ks) ref k = Some (val k).
Proof.
  revert c. induction ks as [|a ks IH]; intros c H; simpl.
  - destruct H as [H | H]; [by apply elem_of_nil in H | done].
  - apply IH. destruct (decide (k = a)) as [->|Hne].
    + right. apply cell_writeCell_eq.
    + destruct H as [H | H].
      * apply elem_of_cons in H as [-> | H]; [done | by left].
      * right. rewrite cell_writeCell_ne; [done | congruence |].
        right. left. unfold cell in H. destruct (data c !! ref); [done | discriminate H].
Qed.

Lemma filter_all {A} (P : A -> Prop) `{forall x, Decision (P x)} (l : list A) :
  Forall P l -> filter P l = l.
Proof.
  induction 1 as [|x l Hx Hl IH]; [done|].
  rewrite filter_cons_True by done. by rewrite IH.
Qed.

Lemma filter_none {A} (P : A -> Prop) `{forall x, Decision (P x)} (l : list A) :
  Forall (fun x => ~ P x) l -> filter P l = [].
Proof.
  induction 1 as [|x l Hx Hl IH]; [done|].
  by rewrite filter_cons_False.
Qed.

Lemma maxLen_one (l : list string) :
  Forall (fun path => length (Split path) = 1%nat) l -> l ≠ [] ->
  foldr (fun path acc => Nat.max (length (Split path)) acc) 0%nat l = 1%nat.
Proof.
  induction 1 as [|k l Hk Hl IH]; [done|]. intros _. simpl. rewrite Hk.
  destruct l as [|k' l]; [done|]. by rewrite IH.
Qed.

(** X10. Adding a record. [addRecord] with a field map whose keys are
    JSON names of fields stored in their own cell returns, and every
    value of the field map is read back by [get] on its key; the cache
    then holds each of these fields for the record. *)
Theorem X10_addRecord_round_trip (fuel fuel' : nat) (c : cache) (mi : string) (id : Z)
    (fMap : FieldMap) :
  (forall k, is_Some (fMap !! k) ->
     Split k = [k] /\ exists fi, MustGet R mi k = Ok fi /\ json fi = k /\ storedInCell fi) ->
  exists c' : cache,
    addRecord R (S fuel) c mi id fMap = Ok c'
    /\ (forall k v, fMap !! k = Some v -> get R (S fuel') c' mi id k = Ok v)
    /\ (forall k, is_Some (fMap !! k) ->
          checkIfInCache R (S fuel') c' mi [id] [k] = Ok true).
Proof.
  intros Hkeys.
  set (keys := (map_to_list fMap).*1).
  set (val := fun k => default VNil (fMap !! k)).
  set (inner := fun (c : cache) (path : string) =>
                  r ← updateEntry R (S fuel) c mi id path (default VNil (fMap !! path));
                  Ok r.1).
  assert (forall k, k ∈ keys -> is_Some (fMap !! k)) as Hin.
  { intros k Hk. apply list_elem_of_fmap in Hk as ([k' v] & -> & Hk).
    apply elem_of_map_to_list in Hk. by eexists. }
  assert (forall (l : list string) (c0 : cache),
            (forall k, k ∈ l -> k ∈ keys) ->
            foldM inner c0 l = Ok (foldl (fun c k => writeCell c (mi, id) k (val k)) c0 l))
    as Hinner.
  { induction l as [|a l IH]; intros c0 Hl; [done|].
    destruct (Hkeys a (Hin a (Hl a (list_elem_of_here _ _)))) as (HS & fi & HG & Hj & Hst).
    assert (MustGet R mi (json fi) = Ok fi) as HG' by (by rewrite Hj).
    assert (inner c0 a = Ok (writeCell c0 (mi, id) a (val a))) as Hstep.
    { unfold inner. rewrite (updateEntry_cell R fuel c0 mi id a _ fi fi HS HG HG' Hst).
      cbn [mbind result_bind]. simpl fst. by rewrite Hj. }
    cbn [foldM foldl]. rewrite Hstep. cbn [mbind result_bind]. apply IH.
    intros k Hk. apply Hl. by right. }
  assert (Forall (fun path => length (Split path) = 1%nat) keys) as Hlen.
  { apply Forall_forall. intros k Hk. destruct (Hkeys k (Hin k Hk)) as (HS & _).
    by rewrite HS. }
  set (c' := foldl (fun c k => writeCell c (mi, id) k (val k)) c keys).
  assert (addRecord R (S fuel) c mi id fMap = Ok c') as Hadd.
  { unfold addRecord. fold keys. fold inner.
    destruct (decide (keys = [])) as [E|E].
    - unfold c'. rewrite E. reflexivity.
    - rewrite (maxLen_one keys Hlen E). cbn [seq foldM].
      rewrite (filter_none (fun path => length (Split path) = 0%nat)).
      2:{ eapply Forall_impl; [exact Hlen|]. simpl. intros k Hk. by rewrite Hk. }
      cbn [foldM mbind result_bind].
      rewrite (filter_all (fun path => length (Split path) = 1%nat) keys Hlen).
      rewrite (Hinner keys c (fun k Hk => Hk)). cbn [mbind result_bind]. reflexivity. }
  assert (forall k v, fMap !! k = Some v -> cell c' (mi, id) k = Some v) as Hcell.
  { intros k v Hk. unfold c'.
    rewrite (foldl_writeCells_cell (mi, id) val keys c k).
    - unfold val. by rewrite Hk.
    - left. apply list_elem_of_fmap. exists (k, v). split; [done|].
      by apply elem_of_map_to_list. }
  exists c'. split; [exact Hadd|]. split.
  - intros k v Hk.
    destruct (Hkeys k (ltac:(by eexists))) as (HS & fi & HG & Hj & Hst).
    assert (MustGet R mi (json fi) = Ok fi) as HG' by (by rewrite Hj).
    rewrite (get_cell R fuel' c' mi id k fi fi HS HG HG' Hst), Hj.
    by rewrite (Hcell k v Hk).
  - intros k [v Hk].
    destruct (Hkeys k (ltac:(by eexists))) as (HS & fi & HG & Hj & Hst).
    rewrite (checkIfInCache_cell R fuel' c' mi id k fi HS HG), Hj.
    rewrite (Hcell k v Hk). by rewrite bool_decide_eq_true_2.
Qed.

End AddRecordFacts.

Section InvalidateFrame.

Variable R : gmap string Model.

Lemma purgeLinks_links (id : Z) (fs : list Field) (c : cache) (rel : string)
    (link : Z * Z) :
  ((exists links, m2mLinks (purgeLinks id c fs) !! rel = Some links /\ link ∈ links)
   -> exists links, m2mLinks c !! rel = Some links /\ link ∈ links)
  /\ (link.1 ≠ id -> link.2 ≠ id ->
      (exists links, m2mLinks c !! rel = Some links /\ link ∈ links) ->
      exists links, m2mLinks (purgeLinks id c fs) !! rel = Some links /\ link ∈ links).
Proof.
  unfold purgeLinks. revert c. induction fs as [|fi fs IH]; intros c; [done|].
  cbn [foldl]. destruct (IH (if bool_decide (fieldType fi = Many2Many)
                             then removeM2MLinks c fi id else c)) as [IH1 IH2].
  split.
  - intros H. apply IH1 in H. case_bool_decide; [|done].
    by apply removeM2MLinks_links in H as [H _].
  - intros H1 H2 H. apply IH2; [done|done|]. case_bool_decide; [|done].
    apply removeM2MLinks_links. split; [done|]. intros _.
    unfold linkAt. by destruct (_ =? _)%Z.
Qed.

(** X11. What [invalidateRecord] leaves alone. The entries of the other
    records are untouched, and so is every link between two ids that are
    both different from the id of the record: seen through any field, a
    record other than the invalidated one keeps its links to the ids
    other than the invalidated one. *)
Theorem X11_invalidateRecord_frame (c : cache) (mi : string) (id : Z) (m : Model) :
  R !! mi = Some m ->
  exists c' : cache,
    invalidateRecord R c mi id = Ok c'
    /\ (forall ref, ref ≠ (mi, id) -> data c' !! ref = data c !! ref)
    /\ (forall (fi : Field) (x y : Z),
          x ≠ id -> y ≠ id ->
          y ∈ getM2MLinks c' fi x <-> y ∈ getM2MLinks c fi x).
Proof.
  intros Hm. eexists. split; [by apply invalidateRecord_eq|]. split.
  - intros ref Hne. rewrite purgeLinks_data. simpl. by rewrite lookup_delete_ne.
  - intros fi x y Hx Hy. rewrite !elem_of_getM2MLinks.
    set (c0 := mkCache (delete (mi, id) (data c)) (m2mLinks c)).
    split.
    + intros (links & link & Hl & Hin & Ho & Ht).
      destruct (purgeLinks_links id (fields m) c0 (m2mRelModel fi) link) as [H1 _].
      destruct H1 as (links0 & Hl0 & Hin0); [by exists links|].
      by exists links0, link.
    + intros (links & link & Hl & Hin & Ho & Ht).
      destruct (purgeLinks_links id (fields m) c0 (m2mRelModel fi) link) as [_ H2].
      destruct H2 as (links' & Hl' & Hin').
      * destruct (index_cases fi) as [[Eo Et] | [Eo Et]]; rewrite Eo, Et in *;
          unfold linkAt in *; simpl in *; congruence.
      * destruct (index_cases fi) as [[Eo Et] | [Eo Et]]; rewrite Eo, Et in *;
          unfold linkAt in *; simpl in *; congruence.
      * by exists links.
      * by exists links', link.
Qed.

End InvalidateFrame.

(** ** Clauses of a query *)

Section ClauseFacts.

Variable R : gmap string Model.
Variable quoteTableName : string -> string.
Variable sqlSep : string.
Variable IsEmpty : Condition -> bool.
Variable operatorSQL : operator.Operator -> value -> string * value.
Variable CastToInteger : value -> option Z.
Variable TrimSpace : string -> string.
Variable evaluateArgFunctions : Condition -> result Condition.

Local Abbreviation predicateSQL :=
  (predicateSQLClause R quoteTableName sqlSep IsEmpty operatorSQL CastToInteger).
Local Abbreviation conditionSQL :=
  (conditionSQLClause R quoteTableName sqlSep IsEmpty operatorSQL CastToInteger).
Local Abbreviation fieldExpr := (joinedFieldExpression R quoteTableName sqlSep).
Local Abbreviation whereClause :=
  (sqlWhereClause R quoteTableName sqlSep IsEmpty operatorSQL CastToInteger
     evaluateArgFunctions).
Local Abbreviation orderByClause := (sqlOrderByClause R quoteTableName sqlSep TrimSpace).
Local Abbreviation delQuery :=
  (deleteQuery R quoteTableName sqlSep IsEmpty operatorSQL CastToInteger
     evaluateArgFunctions).

(** X12. LIMIT, OFFSET and ORDER BY. The LIMIT and OFFSET clause is empty
    exactly when neither the limit nor the offset is positive; and a query
    whose side data is empty has no LIMIT and OFFSET clause, no ORDER BY
    clause and no ORDER BY expression. *)
Theorem X12_side_clauses_empty (q : Query) :
  (sqlLimitOffsetClause q = "" <-> (q_limit q <= 0)%Z /\ (q_offset q <= 0)%Z)
  /\ (sideDataIsEmpty q = true ->
      sqlLimitOffsetClause q = ""
      /\ orderByClause q = Ok ""
      /\ getOrderByExpressions R TrimSpace q = Ok []).
Proof.
  assert (sqlLimitOffsetClause q = "" <-> (q_limit q <= 0)%Z /\ (q_offset q <= 0)%Z) as H.
  { unfold sqlLimitOffsetClause.
    destruct (Z.ltb_spec 0 (q_limit q)); destruct (Z.ltb_spec 0 (q_offset q));
      simpl; split; try done; try lia. }
  split; [exact H|]. unfold sideDataIsEmpty.
  destruct (q_fetchAll q); [done|].
  case_bool_decide as Hl; [done|]. case_bool_decide as Ho; [done|].
  case_bool_decide as Hg; [done|]. case_bool_decide as Hor; [done|]. intros _.
  assert (q_orders q = []) as E by (destruct (q_orders q); [done | simpl in Hor; lia]).
  split; [|split].
  - apply H. lia.
  - unfold sqlOrderByClause. by rewrite E.
  - unfold getOrderByExpressions. by rewrite E.
Qed.

Lemma conditionLoop_args (rec : predicate -> result (string * SQLParams))
    (ps : list predicate) (rs : list (string * SQLParams)) :
  Forall2 (fun p r => rec p = Ok r) ps rs ->
  forall (first : bool) (sql : string) (args : SQLParams),
  exists sql', conditionLoop rec ps first sql args = Ok (sql', args ++ concat rs.*2).
Proof.
  induction 1 as [|p r ps rs Hp Hps IH]; intros first sql args.
  - exists sql. simpl. by rewrite app_nil_r.
  - cbn [conditionLoop]. rewrite Hp. destruct r as [vSQL vArgs]. cbn [mbind result_bind].
    edestruct IH as (sql' & ->). exists sql'. simpl. by rewrite app_assoc.
Qed.

(** X13. The parameters of a condition. When each predicate of a
    condition that is not empty renders, the condition renders, and its
    parameters are those of its predicates, in the order of the
    predicates; a condition of one predicate renders as that predicate,
    after NOT when the predicate is negated; an empty condition renders as
    the empty string with no parameter. *)
Theorem X13_conditionSQLClause_params (mi : string) (c : Condition) :
  (IsEmpty c = true -> conditionSQL mi c = Ok ("", []))
  /\ (forall rs : list (string * SQLParams),
        IsEmpty c = false ->
        Forall2 (fun p r => predicateSQL mi p = Ok r) (predicates c) rs ->
        exists sql, conditionSQL mi c = Ok (sql, concat rs.*2))
  /\ (forall (p : predicate) (vSQL : string) (vArgs : SQLParams),
        IsEmpty c = false -> predicates c = [p] ->
        predicateSQL mi p = Ok (vSQL, vArgs) ->
        conditionSQL mi c = Ok (if p_isNot p then "NOT " +:+ vSQL else vSQL, vArgs)).
Proof.
  split; [|split].
  - intros H. unfold conditionSQLClause. by rewrite H.
  - intros rs H Hrs. unfold conditionSQLClause. rewrite H.
    destruct (conditionLoop_args (predicateSQL mi) (predicates c) rs Hrs true "" [])
      as (sql & ->). by exists sql.
  - intros p vSQL vArgs H Hp Hr. unfold conditionSQLClause. rewrite H, Hp.
    cbn [conditionLoop]. rewrite Hr. reflexivity.
Qed.

(** X14. A leaf predicate. A predicate with a nil argument renders as
    IS NULL for the equality operator and IS NOT NULL for the inequality
    operator, with no parameter, whatever the type of the field. A
    predicate with an argument that is not nil, on a field that is not a
    foreign key or with an argument that is not the integer zero, is not
    rewritten: it renders as the column followed by what the adapter
    yields for the operator, with the one parameter the adapter yields. *)
Theorem X14_predicateSQLClause_leaf (mi : string) (p : predicate) (exprs : list string)
    (fi : Field) (field : string) :
  p_isCond p = false ->
  jsonizeExpr R mi (p_exprs p) = Ok exprs ->
  getRelatedFieldInfo R mi (Join exprs) = Ok fi ->
  fieldExpr mi exprs false = Ok field ->
  (p_arg p = VNil ->
   (p_operator p = operator.Equals -> predicateSQL mi p = Ok (field +:+ " IS NULL", []))
   /\ (p_operator p = operator.NotEquals ->
       predicateSQL mi p = Ok (field +:+ " IS NOT NULL", [])))
  /\ (p_arg p ≠ VNil ->
      IsFKRelationType (fieldType fi) = false \/ CastToInteger (p_arg p) ≠ Some 0%Z ->
      predicateSQL mi p
      = Ok (field +:+ " " +:+ (operatorSQL (p_operator p) (p_arg p)).1,
            [(operatorSQL (p_operator p) (p_arg p)).2])).
Proof.
  intros Hc He Hf Hfield. destruct p as [ex op arg cnd isOr isNot isCond].
  simpl in *. subst isCond. split.
  - intros ->. rewrite He. cbn [mbind result_bind]. rewrite Hf. cbn [mbind result_bind].
    rewrite Hfield. cbn [mbind result_bind].
    assert ((if IsFKRelationType (fieldType fi)
                && bool_decide (CastToInteger VNil = Some 0%Z) then VNil else VNil) = VNil)
      as -> by (by destruct (_ && _)).
    split; by intros ->.
  - intros Hnil Hno. rewrite He. cbn [mbind result_bind]. rewrite Hf.
    cbn [mbind result_bind]. rewrite Hfield. cbn [mbind result_bind].
    assert (IsFKRelationType (fieldType fi)
            && bool_decide (CastToInteger arg = Some 0%Z) = false) as ->.
    { destruct Hno as [-> | Hno]; [done|].
      rewrite (bool_decide_eq_false_2 _ Hno). apply andb_false_r. }
    destruct arg; try done; by destruct (operatorSQL op _).
Qed.

(** X15. WHERE and DELETE. The WHERE clause of a query is the rendering
    of its condition, once the arguments that are functions are evaluated,
    after the keyword WHERE, and the empty string when that rendering is
    empty; the parameters are those of the condition. The DELETE statement
    is DELETE FROM, the quoted table and that clause, with the same
    parameters: on an empty condition it has no WHERE clause and no
    parameter. *)
Theorem X15_deleteQuery_where (q : Query) (c : Condition) (m : Model) :
  evaluateArgFunctions (q_cond q) = Ok c ->
  R !! q_model q = Some m ->
  (forall (sql : string) (args : SQLParams),
      conditionSQL (q_model q) c = Ok (sql, args) ->
      whereClause q = Ok (if bool_decide (sql = "") then "" else "WHERE " +:+ sql, args)
      /\ delQuery q
         = Ok ("DELETE FROM " +:+ quoteTableName (tableName m) +:+ " "
               +:+ (if bool_decide (sql = "") then "" else "WHERE " +:+ sql), args))
  /\ (IsEmpty c = true ->
      whereClause q = Ok ("", [])
      /\ delQuery q = Ok ("DELETE FROM " +:+ quoteTableName (tableName m) +:+ " ", [])).
Proof.
  intros He Hm.
  assert (forall (sql : string) (args : SQLParams),
      conditionSQL (q_model q) c = Ok (sql, args) ->
      whereClause q = Ok (if bool_decide (sql = "") then "" else "WHERE " +:+ sql, args)
      /\ delQuery q
         = Ok ("DELETE FROM " +:+ quoteTableName (tableName m) +:+ " "
               +:+ (if bool_decide (sql = "") then "" else "WHERE " +:+ sql), args)) as H.
  { intros sql args Hc.
    assert (whereClause q
            = Ok (if bool_decide (sql = "") then "" else "WHERE " +:+ sql, args)) as Hw.
    { unfold sqlWhereClause. rewrite He. cbn [mbind result_bind]. rewrite Hc.
      cbn [mbind result_bind]. by case_bool_decide as E; [rewrite E|]. }
    split; [exact Hw|]. unfold deleteQuery. rewrite Hw. cbn [mbind result_bind].
    unfold deref. rewrite Hm. reflexivity. }
  split; [exact H|]. intros Hemp.
  assert (conditionSQL (q_model q) c = Ok ("", [])) as Hc
    by (unfold conditionSQLClause; by rewrite Hemp).
  destruct (H "" [] Hc) as [Hw Hd]. split; [exact Hw|].
  rewrite Hd. reflexivity.
Qed.

End ClauseFacts.

(** ** INSERT and UPDATE *)

Section InsertUpdateFacts.

Variable R : gmap string Model.
Variable quoteTableName : string -> string.
Variable sqlSep : string.
Variable IsEmpty : Condition -> bool.
Variable operatorSQL : operator.Operator -> value -> string * value.
Variable CastToInteger : value -> option Z.
Variable evaluateArgFunctions : Condition -> result Condition.

Local Abbreviation whereClause :=
  (sqlWhereClause R quoteTableName sqlSep IsEmpty operatorSQL CastToInteger
     evaluateArgFunctions).
Local Abbreviation updQuery :=
  (updateQuery R quoteTableName sqlSep IsEmpty operatorSQL CastToInteger
     evaluateArgFunctions).

(** The placeholders of [insertQuery]: one question mark for each of the
    [n] values, separated by commas. *)
Lemma placeholders (n : nat) :
  Repeat ", ?" (Z.of_nat (S n) - 1)
  = Ok (String.concat "" (replicate n ", ?"))
  /\ "?" +:+ String.concat "" (replicate n ", ?")
     = String.concat ", " (replicate (S n) "?").
Proof.
  split.
  - unfold Repeat. destruct (Z.ltb_spec (Z.of_nat (S n) - 1) 0); [lia|].
    do 3 f_equal. lia.
  - induction n as [|n IH]; [done|].
    change (String.concat ", " (replicate (S (S n)) "?"))
      with ("?" +:+ ", " +:+ String.concat ", " (replicate (S n) "?")).
    rewrite <- IH. destruct n as [|n]; reflexivity.
Qed.

Local Abbreviation skipped := (skipped R).
Local Abbreviation inserted := (inserted R).

Lemma insertStep_cases (mi : string) (cols : list string) (vals : list dataValue)
    (i : Z) (kv : string * dataValue) (st' : list string * list dataValue * Z) :
  insertStep R mi (cols, vals, i) kv = Ok st' ->
  (skipped mi kv /\ st' = (cols, vals, i))
  \/ (exists col, inserted mi col kv
                  /\ st' = (cols ++ [col], vals ++ [kv.2], (i + 1)%Z)).
Proof.
  unfold insertStep. destruct (MustGet R mi kv.1) as [fi| |] eqn:E;
    cbn [mbind result_bind]; try done.
  destruct (IsFKRelationType (fieldType fi)) eqn:Efk;
    destruct (required fi) eqn:Ereq; destruct (kv.2) eqn:Ev; simpl; intros [= <-];
    first [ left; split; [by exists fi|done]
          | right; exists (json fi); split; [|done];
            exists fi; repeat split; try done; intros (? & ? & ?); congruence ].
Qed.

Lemma insertLoop_inv (mi : string) (l : list (string * dataValue)) :
  forall (cols : list string) (vals : list dataValue) (i : Z)
         (cols' : list string) (vals' : list dataValue) (i' : Z),
    foldM (insertStep R mi) (cols, vals, i) l = Ok (cols', vals', i') ->
    exists (kept : list (string * dataValue)) (newCols : list string),
      cols' = cols ++ newCols /\ vals' = vals ++ kept.*2
      /\ i' = (i + Z.of_nat (length kept))%Z
      /\ Forall2 (fun col kv => inserted mi col kv) newCols kept
      /\ sublist kept l
      /\ (forall kv, kv ∈ l -> kv ∈ kept \/ skipped mi kv).
Proof.
  induction l as [|kv l IH]; intros cols vals i cols' vals' i' H.
  - inversion H; subst. exists [], []. rewrite !app_nil_r. simpl.
    repeat split; [lia | constructor | constructor |].
    intros kv Hkv. by apply elem_of_nil in Hkv.
  - cbn [foldM] in H. destruct (insertStep R mi (cols, vals, i) kv) as [st| |] eqn:E;
      cbn [mbind result_bind] in H; try done.
    apply insertStep_cases in E as [[Hs ->] | (col & Hi & ->)].
    + destruct (IH _ _ _ _ _ _ H) as (kept & newCols & -> & -> & -> & HF & Hsub & Hall).
      exists kept, newCols. repeat split; try done.
      * by apply sublist_cons.
      * intros kv' Hkv'. apply elem_of_cons in Hkv' as [-> | Hkv']; [by right|].
        by apply Hall.
    + destruct (IH _ _ _ _ _ _ H) as (kept & newCols & -> & -> & -> & HF & Hsub & Hall).
      exists (kv :: kept), (col :: newCols). rewrite <- !app_assoc. simpl.
      repeat split; try done.
      * lia.
      * by constructor.
      * by apply sublist_skip.
      * intros kv' Hkv'. apply elem_of_cons in Hkv' as [-> | Hkv'].
        { left. by left. }
        destruct (Hall kv' Hkv') as [? | ?]; [left; by right | by right].
Qed.

(** X16. The INSERT statement. When [insertQuery] returns, the statement
    inserts into the quoted table of the model, names one column for each
    value it returns and has one placeholder for each of them, and there
    is at least one; each column is the JSON name of the field of an entry
    of the data, with the value of that entry at the same rank, and the
    entries left out are the null pointers given for a foreign key that is
    not required. *)
Theorem X16_insertQuery_shape (mi : string) (data : gmap string dataValue)
    (sql : string) (vals : list dataValue) :
  insertQuery R quoteTableName mi data = Ok (sql, vals) ->
  exists (m : Model) (cols : list string) (kept : list (string * dataValue)),
    R !! mi = Some m
    /\ sql = "INSERT INTO " +:+ quoteTableName (tableName m) +:+ " ("
             +:+ String.concat ", " cols +:+ ") VALUES ("
             +:+ String.concat ", " (replicate (length vals) "?") +:+ ") RETURNING id"
    /\ length cols = length vals
    /\ vals ≠ []
    /\ vals = kept.*2
    /\ Forall2 (fun col kv => inserted mi col kv) cols kept
    /\ (forall kv, kv ∈ kept -> data !! kv.1 = Some kv.2)
    /\ (forall k v, data !! k = Some v -> (k, v) ∈ kept \/ skipped mi (k, v)).
Proof.
  unfold insertQuery. case_bool_decide as Hsize; [done|].
  destruct (foldM (insertStep R mi) ([], [], 0%Z) (map_to_list data))
    as [[[cols vals'] i]| |] eqn:E; cbn [mbind result_bind]; try done.
  destruct (insertLoop_inv mi _ _ _ _ _ _ _ E)
    as (kept & newCols & -> & -> & -> & HF & Hsub & Hall).
  simpl app. unfold deref. destruct (R !! mi) as [m|] eqn:Em; cbn [mbind result_bind];
    [|done].
  destruct (decide (kept = [])) as [->|Hne]; [done|].
  assert (exists n, length kept = S n) as (n & Hn).
  { destruct kept; [done|]. by eexists. }
  rewrite Hn. change (0 + Z.of_nat (S n))%Z with (Z.of_nat (S n)).
  destruct (placeholders n) as [-> Hq]. cbn [mbind result_bind].
  intros Heq. inversion Heq as [[Hsql Hvals]]. clear Heq.
  exists m, newCols, kept.
  split; [done|]. split; [|split; [|split; [|split; [|split; [|split]]]]].
  + rewrite length_fmap, Hn. by rewrite <- Hq.
  + rewrite length_fmap. by apply Forall2_length in HF.
  + intros Hnil. apply fmap_nil_inv in Hnil. done.
  + done.
  + exact HF.
  + intros [k v] Hkv. simpl. apply elem_of_map_to_list.
    eapply elem_of_sublist; [exact Hkv | exact Hsub].
  + intros k v Hkv. apply elem_of_map_to_list in Hkv.
    destruct (Hall _ Hkv) as [? | ?]; [by left | by right].
Qed.

Lemma insertLoop_skipped (mi : string) (l : list (string * dataValue))
    (st : list string * list dataValue * Z) :
  Forall (skipped mi) l -> foldM (insertStep R mi) st l = Ok st.
Proof.
  induction 1 as [|kv l (fi & HG & Hfk & Hreq & Hp) Hl IH]; [done|].
  assert (insertStep R mi st kv = Ok st) as Hstep.
  { destruct st as [[cols vals] i]. unfold insertStep.
    rewrite HG. cbn [mbind result_bind]. by rewrite Hfk, Hreq, Hp. }
  cbn [foldM]. rewrite Hstep. exact IH.
Qed.

(** X17. INSERT with nothing to insert. [insertQuery] panics when it is
    given no data; it also panics, in [strings.Repeat], when every entry
    of the data is a null pointer given for a foreign key that is not
    required, since no column is then left. *)
Theorem X17_insertQuery_nothing (mi : string) (data : gmap string dataValue) :
  (data = ∅ -> insertQuery R quoteTableName mi data = Panic "No data given for insert")
  /\ (data ≠ ∅ ->
      (forall k v, data !! k = Some v -> skipped mi (k, v)) ->
      insertQuery R quoteTableName mi data = Panic "strings: negative Repeat count").
Proof.
  split.
  - intros ->. reflexivity.
  - intros Hne Hall. unfold insertQuery.
    rewrite bool_decide_eq_false_2 by (by rewrite map_size_empty_iff).
    rewrite insertLoop_skipped.
    2:{ apply Forall_forall. intros [k v] Hkv. apply Hall.
        by apply elem_of_map_to_list. }
    cbn [mbind result_bind].
    destruct (map_to_list data) as [|[k v] l] eqn:El.
    { by apply map_to_list_empty_iff in El. }
    assert ((k, v) ∈ map_to_list data) as Hkv by (rewrite El; by left).
    apply elem_of_map_to_list in Hkv. destruct (Hall k v Hkv) as (fi & HG & _).
    unfold MustGet in HG. destruct (deref R mi); [|done|done]. reflexivity.
Qed.

Lemma updateLoop_inv (mi : string) (l : list (string * value)) :
  forall (cols : list string) (vals : SQLParams) (cols' : list string) (vals' : SQLParams),
    foldM (updateStep R mi) (cols, vals) l = Ok (cols', vals') ->
    exists newCols : list string,
      cols' = cols ++ newCols /\ vals' = vals ++ l.*2
      /\ Forall2 (fun col kv => exists fi, MustGet R mi kv.1 = Ok fi
                                           /\ col = json fi +:+ " = ?") newCols l.
Proof.
  induction l as [|kv l IH]; intros cols vals cols' vals' H.
  - inversion H; subst. exists []. rewrite !app_nil_r. repeat split. constructor.
  - cbn [foldM] in H.
    destruct (updateStep R mi (cols, vals) kv) as [st| |] eqn:Est;
      cbn [mbind result_bind] in H; try done.
    unfold updateStep in Est.
    destruct (MustGet R mi kv.1) as [fi| |] eqn:E; cbn [mbind result_bind] in Est;
      try done.
    inversion Est; subst st; clear Est.
    destruct (IH _ _ _ _ H) as (newCols & -> & -> & HF).
    exists ((json fi +:+ " = ?") :: newCols). rewrite <- !app_assoc. simpl.
    repeat split. constructor; [by exists fi | done].
Qed.

(** X18. The UPDATE statement. [updateQuery] panics when it is given no
    data. When it returns, the statement updates the quoted table of the
    model, with one assignment "column = ?" for each entry of the data
    (the column is the JSON name of the field of the entry), followed by
    the WHERE clause of the query; its parameters are the values of the
    entries, in the order of the assignments, followed by the parameters
    of the WHERE clause. *)
Theorem X18_updateQuery_shape (q : Query) (data : FieldMap) :
  (data = ∅ -> updQuery q data = Panic "No data given for update")
  /\ (forall (sql : string) (vals : SQLParams),
        updQuery q data = Ok (sql, vals) ->
        exists (m : Model) (cols : list string) (whereSQL : string) (args : SQLParams),
          R !! q_model q = Some m
          /\ whereClause q = Ok (whereSQL, args)
          /\ sql = "UPDATE " +:+ quoteTableName (tableName m) +:+ " SET "
                   +:+ String.concat ", " cols +:+ " " +:+ whereSQL
          /\ vals = (map_to_list data).*2 ++ args
          /\ Forall2 (fun col kv => exists fi, MustGet R (q_model q) kv.1 = Ok fi
                                               /\ col = json fi +:+ " = ?")
                     cols (map_to_list data)).
Proof.
  split.
  - intros ->. reflexivity.
  - intros sql vals. unfold updateQuery. case_bool_decide as Hsize; [done|].
    destruct (foldM (updateStep R (q_model q)) ([], []) (map_to_list data))
      as [[cols vals']| |] eqn:E; cbn [mbind result_bind]; try done.
    destruct (updateLoop_inv _ _ _ _ _ _ E) as (newCols & -> & -> & HF).
    unfold deref. destruct (R !! q_model q) as [m|] eqn:Em; cbn [mbind result_bind];
      [|done].
    destruct (whereClause q) as [[whereSQL args]| |] eqn:Ew; cbn [mbind result_bind];
      try done.
    intros [= <- <-]. by exists m, newCols, whereSQL, args.
Qed.

End InsertUpdateFacts.

(** ** The joins of a path *)

Section JoinChain.

Variable R : gmap string Model.
Variable quoteTableName : string -> string.
Variable sqlSep : string.

Local Abbreviation loop := (joinsLoop R quoteTableName sqlSep).
Local Abbreviation joinsOf := (generateTableJoins R quoteTableName sqlSep).
Local Abbreviation prelude := (joinPrelude R quoteTableName sqlSep).
Local Abbreviation mkNext := (nextJoin quoteTableName sqlSep).
Local Abbreviation fieldExpr := (joinedFieldExpression R quoteTableName sqlSep).

(** One turn of the loop of [generateTableJoins]. *)
Lemma joinsLoop_cons (curMI : string) (curTJ : tableJoin) (alias expr : string)
    (rest : list string) :
  loop curMI curTJ alias (expr :: rest)
  = (m ← deref R curMI;
     match fields_Get (fields m) expr with
     | None => Panic "Unparsable Expression"
     | Some fi =>
         match relatedModel R fi with
         | None => Ok []
         | Some rm =>
             if bool_decide (rest = []) && IsFKRelationType (fieldType fi) then Ok []
             else
               '(pre, curTJ', alias', field, otherField, tjExpr) ←
                 prelude fi rm expr curTJ alias (hd "" rest);
               relM ← deref R rm;
               let nextTJ := mkNext relM (required fi) field curTJ' otherField alias' tjExpr in
               r ← loop rm nextTJ (alias' +:+ sqlSep +:+ tableName relM) rest;
               Ok (pre ++ nextTJ :: r)
         end
     end).
Proof. reflexivity. Qed.

(** What the switch on the type of the field yields: no join before the
    next one, or the join to the link table of a many-to-many field. *)
Lemma joinPrelude_cases (fi : Field) (rm expr : string) (curTJ : tableJoin)
    (alias tjExpr : string) (pre : list tableJoin) (curTJ' : tableJoin)
    (alias' field otherField tjExpr' : string) :
  prelude fi rm expr curTJ alias tjExpr = Ok (pre, curTJ', alias', field, otherField, tjExpr') ->
  (pre = [] /\ curTJ' = curTJ /\ alias' = alias)
  \/ (exists rel ourCol theirCol,
        pre = [linkJoin quoteTableName sqlSep rel ourCol theirCol curTJ alias]
        /\ curTJ' = linkJoin quoteTableName sqlSep rel ourCol theirCol curTJ alias
        /\ alias' = alias +:+ sqlSep +:+ tableName rel).
Proof.
  unfold joinPrelude. destruct (fieldType fi);
    try (intros [= <- <- <- <- <- <-]; by left).
  - destruct (deref R (m2mRelModel fi)) as [rel| |]; cbn [mbind result_bind]; try done.
    destruct (jsonizePath R (m2mRelModel fi) (m2mOurField fi)) as [ourCol| |];
      cbn [mbind result_bind]; try done.
    destruct (jsonizePath R (m2mRelModel fi) (m2mTheirField fi)) as [theirCol| |];
      cbn [mbind result_bind]; try done.
    intros [= <- <- <- <- <- <-]. right. by exists rel, ourCol, theirCol.
  - destruct (jsonizePath R rm (reverseFK fi)); cbn [mbind result_bind]; try done.
    intros [= <- <- <- <- <- <-]. by left.
  - destruct (jsonizePath R rm (reverseFK fi)); cbn [mbind result_bind]; try done.
    intros [= <- <- <- <- <- <-]. by left.
Qed.

(** The aliases that the switch yields do not depend on the current join
    nor on the next segment. *)
Lemma joinPrelude_alias (fi : Field) (rm expr : string) (curTJ1 curTJ2 : tableJoin)
    (alias t1 t2 : string) (pre1 pre2 : list tableJoin) (c1 c2 : tableJoin)
    (a1 a2 f1 f2 o1 o2 t1' t2' : string) :
  prelude fi rm expr curTJ1 alias t1 = Ok (pre1, c1, a1, f1, o1, t1') ->
  prelude fi rm expr curTJ2 alias t2 = Ok (pre2, c2, a2, f2, o2, t2') ->
  tj_alias <$> pre1 = tj_alias <$> pre2 /\ a1 = a2.
Proof.
  unfold joinPrelude. destruct (fieldType fi);
    try (intros [= <- <- <- <- <- <-] [= <- <- <- <- <- <-]; by split).
  - destruct (deref R (m2mRelModel fi)) as [rel| |]; cbn [mbind result_bind]; try done.
    destruct (jsonizePath R (m2mRelModel fi) (m2mOurField fi)) as [ourCol| |];
      cbn [mbind result_bind]; try done.
    destruct (jsonizePath R (m2mRelModel fi) (m2mTheirField fi)) as [theirCol| |];
      cbn [mbind result_bind]; try done.
    intros [= <- <- <- <- <- <-] [= <- <- <- <- <- <-]. by split.
  - destruct (jsonizePath R rm (reverseFK fi)); cbn [mbind result_bind]; try done.
    intros [= <- <- <- <- <- <-] [= <- <- <- <- <- <-]. by split.
  - destruct (jsonizePath R rm (reverseFK fi)); cbn [mbind result_bind]; try done.
    intros [= <- <- <- <- <- <-] [= <- <- <- <- <- <-]. by split.
Qed.

Lemma hangsOn_cons (x j : tableJoin) (l : list tableJoin) :
  tj_joined j = true -> tj_otherTable j = Some x -> hangsOn (j :: l) -> hangsOn (x :: j :: l).
Proof.
  intros Hj Ho H [|k] j' Hk.
  - simpl in Hk. inversion Hk; subst. by split.
  - by apply H.
Qed.

Lemma hangsOn_single (x : tableJoin) : hangsOn [x].
Proof. intros k j Hk. by destruct k. Qed.

Lemma joinsLoop_hangsOn (exprs : list string) :
  forall (curMI : string) (curTJ : tableJoin) (alias : string) (r : list tableJoin),
    loop curMI curTJ alias exprs = Ok r -> hangsOn (curTJ :: r).
Proof.
  induction exprs as [|expr rest IH]; intros curMI curTJ alias r H.
  - inversion H; subst. apply hangsOn_single.
  - rewrite joinsLoop_cons in H.
    destruct (deref R curMI) as [m| |]; cbn [mbind result_bind] in H; try done.
    destruct (fields_Get (fields m) expr) as [fi|]; [|done].
    destruct (relatedModel R fi) as [rm|]; [|inversion H; apply hangsOn_single].
    destruct (bool_decide (rest = []) && IsFKRelationType (fieldType fi));
      [inversion H; apply hangsOn_single|].
    destruct (prelude fi rm expr curTJ alias (hd "" rest))
      as [[[[[[pre curTJ'] alias'] field] otherField] tjExpr]| |] eqn:Ep;
      cbn [mbind result_bind] in H; try done.
    destruct (deref R rm) as [relM| |]; cbn [mbind result_bind] in H; try done.
    destruct (loop rm _ _ rest) as [r'| |] eqn:El; cbn [mbind result_bind] in H; try done.
    inversion H; subst r; clear H. apply IH in El.
    apply joinPrelude_cases in Ep as [(-> & -> & ->) | (rel & ourCol & theirCol & -> & -> & ->)].
    + simpl. by apply hangsOn_cons.
    + simpl. apply hangsOn_cons; [done|done|]. by apply hangsOn_cons.
Qed.

(** X19. The joins of a path form a chain. When [generateTableJoins]
    returns, the first join is the table of the model, which is not
    joined, and every other join is a joined table that hangs on the join
    just before it; hence [sqlString] renders every one of them, and
    [joinedFieldExpression] renders the path, with or without alias. *)
Theorem X19_generateTableJoins_chain (mi : string) (exprs : list string)
    (js : list tableJoin) :
  joinsOf mi exprs = Ok js ->
  (exists m, R !! mi = Some m /\ js !! 0%nat = Some (rootJoin quoteTableName m exprs))
  /\ hangsOn js
  /\ (forall j, j ∈ js -> isOk (sqlString j))
  /\ (forall withAlias, isOk (fieldExpr mi exprs withAlias)).
Proof.
  intros H. assert (H0 := H). unfold generateTableJoins in H. unfold deref in H.
  destruct (R !! mi) as [m|] eqn:Em; cbn [mbind result_bind] in H; [|done].
  destruct (loop mi _ _ exprs) as [r| |] eqn:El; cbn [mbind result_bind] in H; try done.
  inversion H; subst js; clear H. apply joinsLoop_hangsOn in El.
  split; [by exists m|]. split; [exact El|]. split.
  - intros j Hj. apply list_elem_of_lookup in Hj as [[|k] Hk].
    + simpl in Hk. inversion Hk; subst. done.
    + destruct (El k j Hk) as [Hjoined Hother]. unfold sqlString.
      rewrite Hjoined. simpl negb. cbv iota. rewrite Hother.
      assert (is_Some ((rootJoin quoteTableName m exprs :: r) !! k)) as [o ->].
      { apply lookup_lt_is_Some. apply lookup_lt_Some in Hk. lia. }
      done.
  - intros withAlias. unfold joinedFieldExpression. rewrite H0. cbn [mbind result_bind].
    destruct (last (rootJoin quoteTableName m exprs :: r)) as [lj|] eqn:Elast.
    + by destruct withAlias.
    + by apply last_None in Elast.
Qed.

Lemma joinsLoop_alias_prefix (l1 l2 : list string) :
  forall (curMI : string) (curTJ1 curTJ2 : tableJoin) (alias : string)
         (r1 r2 : list tableJoin),
    loop curMI curTJ1 alias l1 = Ok r1 ->
    loop curMI curTJ2 alias (l1 ++ l2) = Ok r2 ->
    (tj_alias <$> r1) `prefix_of` (tj_alias <$> r2).
Proof.
  induction l1 as [|expr rest IH]; intros curMI curTJ1 curTJ2 alias r1 r2 H1 H2.
  - inversion H1; subst. apply prefix_nil.
  - change ((expr :: rest) ++ l2) with (expr :: (rest ++ l2)) in H2.
    rewrite joinsLoop_cons in H1, H2.
    destruct (deref R curMI) as [m| |]; cbn [mbind result_bind] in H1, H2; try done.
    destruct (fields_Get (fields m) expr) as [fi|]; [|done].
    destruct (relatedModel R fi) as [rm|]; [|inversion H1; apply prefix_nil].
    destruct (bool_decide (rest = []) && IsFKRelationType (fieldType fi)) eqn:Ec1;
      [inversion H1; apply prefix_nil|].
    assert (bool_decide (rest ++ l2 = []) && IsFKRelationType (fieldType fi) = false) as Ec2.
    { apply andb_false_iff in Ec1 as [Ec1 | Ec1]; [|by rewrite Ec1, andb_false_r].
      apply bool_decide_eq_false in Ec1. rewrite bool_decide_eq_false_2; [done|].
      intros E. apply app_eq_nil in E as [? _]. done. }
    rewrite Ec2 in H2.
    destruct (prelude fi rm expr curTJ1 alias (hd "" rest))
      as [[[[[[pre1 c1] a1] f1] o1] t1]| |] eqn:Ep1; cbn [mbind result_bind] in H1; try done.
    destruct (prelude fi rm expr curTJ2 alias (hd "" (rest ++ l2)))
      as [[[[[[pre2 c2] a2] f2] o2] t2]| |] eqn:Ep2; cbn [mbind result_bind] in H2; try done.
    destruct (joinPrelude_alias fi rm expr curTJ1 curTJ2 alias _ _ pre1 pre2 c1 c2
                a1 a2 f1 f2 o1 o2 t1 t2 Ep1 Ep2) as [Hpre <-].
    destruct (deref R rm) as [relM| |]; cbn [mbind result_bind] in H1, H2; try done.
    destruct (loop rm _ _ rest) as [r1'| |] eqn:El1; cbn [mbind result_bind] in H1;
      try done.
    destruct (loop rm _ _ (rest ++ l2)) as [r2'| |] eqn:El2; cbn [mbind result_bind] in H2;
      try done.
    inversion H1; subst r1; clear H1. inversion H2; subst r2; clear H2.
    rewrite !fmap_app, !fmap_cons, Hpre. apply prefix_app. simpl.
    apply prefix_cons. by eapply IH.
Qed.

(** X20. Extending a path only adds joins. When [generateTableJoins]
    returns on a path and on an extension of the path, the aliases of the
    joins of the path are the aliases of the first joins of the extension,
    in the same order. *)
Theorem X20_generateTableJoins_prefix (mi : string) (l1 l2 : list string)
    (js1 js2 : list tableJoin) :
  joinsOf mi l1 = Ok js1 ->
  joinsOf mi (l1 ++ l2) = Ok js2 ->
  (tj_alias <$> js1) `prefix_of` (tj_alias <$> js2).
Proof.
  unfold generateTableJoins. intros H1 H2.
  destruct (deref R mi) as [m| |]; cbn [mbind result_bind] in H1, H2; try done.
  destruct (loop mi _ _ l1) as [r1| |] eqn:El1; cbn [mbind result_bind] in H1; try done.
  destruct (loop mi _ _ (l1 ++ l2)) as [r2| |] eqn:El2; cbn [mbind result_bind] in H2;
    try done.
  inversion H1; subst js1; clear H1. inversion H2; subst js2; clear H2.
  rewrite !fmap_cons. simpl. apply prefix_cons.
  by eapply joinsLoop_alias_prefix.
Qed.

(** X21. Every column of a query has its table in the FROM clause. When
    [tablesSQL] returns on a list of paths, each of these paths renders
    as a column, as the alias of its last join followed by a dot and the
    expression of that join, and that alias is a key of the map of
    aliases that [tablesSQL] returns. *)
Theorem X21_tablesSQL_covers_columns (mi : string) (fExprs : list (list string))
    (res : string) (joinsMap : gmap string string) (f : list string) :
  tablesSQL R quoteTableName sqlSep mi fExprs = Ok (res, joinsMap) ->
  f ∈ fExprs ->
  exists (js : list tableJoin) (j : tableJoin),
    joinsOf mi f = Ok js /\ last js = Some j
    /\ fieldExpr mi f false = Ok (tj_alias j +:+ "." +:+ tj_expr j)
    /\ is_Some (joinsMap !! tj_alias j).
Proof.
  intros H Hf. unfold tablesSQL in H.
  destruct (tablesLoop R quoteTableName sqlSep mi _ fExprs) as [st| |] eqn:E;
    cbn [mbind result_bind] in H; try done.
  inversion H; subst res joinsMap; clear H.
  destruct (tablesLoop_inv R quoteTableName sqlSep mi fExprs _ st [] []
              (tablesInv_init quoteTableName) E)
    as (js' & strs' & Hinv & _ & Hcov).
  destruct (Hcov f Hf) as (tJoins & Hj & Hal).
  assert (exists j, last tJoins = Some j) as (j & Hlast).
  { destruct (last tJoins) eqn:El; [by eexists|]. apply last_None in El. subst tJoins.
    unfold generateTableJoins in Hj. destruct (deref R mi); cbn [mbind result_bind] in Hj;
      try done. destruct (joinsLoop _ _ _ _ _ _ _); cbn [mbind result_bind] in Hj; done. }
  exists tJoins, j. split; [done|]. split; [done|]. split.
  - unfold joinedFieldExpression. rewrite Hj. cbn [mbind result_bind]. by rewrite Hlast.
  - destruct Hinv as (_ & _ & _ & _ & Hkeys & _). apply Hkeys. apply Hal.
    apply last_Some in Hlast as (l' & ->). apply elem_of_app. right. by left.
Qed.

End JoinChain.

(** ** Computed fields, again *)

Section ComputeOnce.

Variable R : gmap string Model.
Variable getComputedFields : string -> list string -> list Field.
Variable checkFieldPermission : Field -> Z -> Permission -> bool.
Variable callCompute : string -> Z -> string -> FieldMap.

Local Abbreviation cfStep := (computeFieldStep R checkFieldPermission callCompute).

(** X22. A computed field is computed once. On a field that the user may
    read, that is not in the result yet nor in the cache, and whose
    compute method returns one value, the iteration of
    [computeFieldValues] calls the compute method, puts the value in the
    result and in the cache; on a later read of the field for the same
    record, the value comes from the cache and no compute method is
    called. *)
Theorem X22_computeFieldStep_cached (fuel : nat) (uid : Z) (mi : string) (id : Z)
    (st : cfState) (fInfo fi fi' key : Field) (m : Model) (k : string) (v : value) :
  checkFieldPermission fInfo uid Read = true ->
  cf_params st !! name fInfo = None ->
  Split (name fInfo) = [name fInfo] ->
  R !! mi = Some m ->
  MustGet R mi (name fInfo) = Ok fi -> json fi = json fInfo ->
  MustGet R mi (json fi) = Ok fi' -> storedInCell fi' ->
  cell (cf_cache st) (mi, id) (json fInfo) = None ->
  callCompute mi id (compute fInfo) = {[k := v]} ->
  fields_Get (fields m) k = Some key ->
  exists st' : cfState,
    cfStep (S fuel) uid mi id st fInfo = Ok st'
    /\ cf_calls st' = cf_calls st ++ [compute fInfo]
    /\ cf_params st' = <[json key := v]> (cf_params st)
    /\ cell (cf_cache st') (mi, id) (json fInfo) = Some v
    /\ (forall (params : FieldMap) (calls : list string),
          params !! name fInfo = None ->
          cfStep (S fuel) uid mi id (mkCfState params (cf_cache st') calls) fInfo
          = Ok (mkCfState (<[json fInfo := v]> params) (cf_cache st') calls)).
Proof.
  intros Hperm Hpar HS Hm HG Hj HG' Hst Hmiss Hcall Hkey.
  set (c' := writeCell (cf_cache st) (mi, id) (json fInfo) v).
  exists (mkCfState (<[json key := v]> (cf_params st)) c' (cf_calls st ++ [compute fInfo])).
  split; [|split; [done|split; [done|split; [apply cell_writeCell_eq|]]]].
  - unfold computeFieldStep. rewrite Hperm. simpl negb. cbv iota.
    rewrite bool_decide_eq_false_2 by (rewrite Hpar; by intros [? ?]).
    rewrite (checkIfInCache_cell R fuel _ mi id _ fi HS HG), Hj, Hmiss.
    rewrite bool_decide_eq_false_2 by (by intros [? ?]). cbn [mbind result_bind].
    rewrite Hcall, map_to_list_singleton. cbn [foldM]. unfold deref. rewrite Hm.
    cbn [mbind result_bind]. rewrite Hkey. simpl cf_cache.
    rewrite (updateEntry_cell R fuel _ mi id _ v fi fi' HS HG HG' Hst), Hj.
    reflexivity.
  - intros params calls Hp. unfold computeFieldStep. rewrite Hperm. simpl negb. cbv iota.
    cbn [cf_params cf_cache cf_calls].
    rewrite bool_decide_eq_false_2 by (rewrite Hp; by intros [? ?]).
    assert (cell c' (mi, id) (json fInfo) = Some v) as Hc' by apply cell_writeCell_eq.
    rewrite (checkIfInCache_cell R fuel c' mi id _ fi HS HG), Hj, Hc'.
    rewrite bool_decide_eq_true_2 by (by eexists). cbn [mbind result_bind].
    rewrite (get_cell R fuel c' mi id _ fi fi' HS HG HG' Hst), Hj, Hc'. reflexivity.
Qed.

End ComputeOnce.

Section InverseFacts.

Variable R : gmap string Model.
Variable Context : Type.
Variable HasKey : Context -> string -> bool.
Variable GetBool : Context -> string -> bool.
Variable FieldMap_Get : FieldMap -> string -> string -> option value.
Variable IsZero : value -> bool.

Local Abbreviation invStep :=
  (processInverseStep R Context HasKey GetBool FieldMap_Get IsZero).
Local Abbreviation invMethods :=
  (processInverseMethods R Context HasKey GetBool FieldMap_Get IsZero).

Lemma processInverseStep_cases (ctx : Context) (mi : string) (fMap : FieldMap)
    (log log' : list (string * value)) (fieldName : string) :
  invStep ctx mi fMap log fieldName = Ok log' ->
  log' = log
  \/ exists fi val,
       getRelatedFieldInfo R mi fieldName = Ok fi
       /\ isComputedField fi = true
       /\ HasKey ctx "doxa_force_compute_write" = false
       /\ FieldMap_Get fMap (json fi) (model fi) = Some val
       /\ inverse fi ≠ ""
       /\ log' = log ++ [(inverse fi, val)].
Proof.
  unfold processInverseStep.
  destruct (getRelatedFieldInfo R mi fieldName) as [fi| |]; cbn [mbind result_bind];
    try done.
  destruct (isComputedField fi) eqn:Ec; simpl; [|intros [= <-]; by left].
  destruct (HasKey ctx "doxa_force_compute_write") eqn:Ek; [intros [= <-]; by left|].
  destruct (FieldMap_Get fMap (json fi) (model fi)) as [val|] eqn:Eg;
    [|intros [= <-]; by left].
  case_bool_decide as Einv.
  - destruct (GetBool ctx "doxa_allow_without_inverse"); [intros [= <-]; by left|].
    destruct (IsZero val); [intros [= <-]; by left | done].
  - intros [= <-]. right. by exists fi, val.
Qed.

(** X23. The inverse methods that are called. When
    [processInverseMethods] returns, every call of an inverse method it
    made is the call of the inverse method of a computed field of a key
    of the field map, with the value given for that field, and the context
    does not hold the key doxa_force_compute_write; in particular no
    method is called when no key of the field map is a computed field, or
    when the context holds that key. *)
Theorem X23_processInverseMethods_calls (ctx : Context) (mi : string) (fMap : FieldMap) :
  (forall (log : list (string * value)) (method : string) (val : value),
      invMethods ctx mi fMap = Ok log ->
      (method, val) ∈ log ->
      HasKey ctx "doxa_force_compute_write" = false
      /\ exists k fi,
           is_Some (fMap !! k)
           /\ getRelatedFieldInfo R mi k = Ok fi
           /\ isComputedField fi = true
           /\ FieldMap_Get fMap (json fi) (model fi) = Some val
           /\ inverse fi = method /\ method ≠ "")
  /\ ((forall k, is_Some (fMap !! k) ->
         exists fi, getRelatedFieldInfo R mi k = Ok fi
                    /\ (isComputedField fi = false
                        \/ HasKey ctx "doxa_force_compute_write" = true)) ->
      invMethods ctx mi fMap = Ok []).
Proof.
  split.
  - intros log method val H Hin. unfold processInverseMethods in H.
    set (P := fun log : list (string * value) =>
                forall method val, (method, val) ∈ log ->
                  HasKey ctx "doxa_force_compute_write" = false
                  /\ exists k fi,
                       is_Some (fMap !! k)
                       /\ getRelatedFieldInfo R mi k = Ok fi
                       /\ isComputedField fi = true
                       /\ FieldMap_Get fMap (json fi) (model fi) = Some val
                       /\ inverse fi = method /\ method ≠ "").
    assert (P log) as HP; [|by apply HP].
    eapply (foldM_preserves P); [| |exact H].
    + intros a k a' Hk Pa Hstep meth v Hv.
      apply processInverseStep_cases in Hstep
        as [-> | (fi & val' & Hf & Hc & Hkey & Hg & Hinv & ->)]; [by apply Pa|].
      apply elem_of_app in Hv as [Hv | Hv]; [by apply Pa|].
      apply list_elem_of_singleton in Hv. inversion Hv; subst. split; [done|].
      exists k, fi. repeat split; try done.
      apply list_elem_of_fmap in Hk as ([k' v'] & -> & Hk).
      apply elem_of_map_to_list in Hk. by eexists.
    + intros meth v Hv. by apply elem_of_nil in Hv.
  - intros Hall. unfold processInverseMethods.
    assert (forall l : list string,
              (forall k, k ∈ l -> is_Some (fMap !! k)) ->
              foldM (invStep ctx mi fMap) [] l = Ok []) as Hl.
    { induction l as [|k l IH]; intros Hk; [done|]. cbn [foldM].
      assert (invStep ctx mi fMap [] k = Ok []) as ->.
      { destruct (Hall k (Hk k (list_elem_of_here _ _))) as (fi & Hf & Hc).
        unfold processInverseStep. rewrite Hf. cbn [mbind result_bind].
        destruct Hc as [-> | ->]; [done|]. by rewrite orb_true_r. }
      cbn [mbind result_bind]. apply IH. intros k' Hk'. apply Hk. by right. }
    apply Hl. intros k Hk. apply list_elem_of_fmap in Hk as ([k' v'] & -> & Hk).
    apply elem_of_map_to_list in Hk. by eexists.
Qed.

End InverseFacts.

(** ** Security groups *)

Section GroupFacts.

Import security.

Variable heap : gmap positive Group.
Variable GroupAdmin : groupPtr.
Variable GroupEveryone : groupPtr.

Local Abbreviation parentsOf := (inheritedBy heap).
Local Abbreviation addMember := (AddMembership heap).

Lemma foldM_mono {A B} (f f' : A -> B -> result A) (l : list B) (a r : A) :
  (forall a x a', x ∈ l -> f a x = Ok a' -> f' a x = Ok a') ->
  foldM f a l = Ok r -> foldM f' a l = Ok r.
Proof.
  revert a. induction l as [|x l IH]; intros a Hf H; [done|].
  cbn [foldM] in *. destruct (f a x) as [a'| |] eqn:E; cbn [mbind result_bind] in H;
    try done.
  rewrite (Hf a x a' (list_elem_of_here _ _) E). cbn [mbind result_bind].
  apply IH; [|done]. intros a0 x0 a0' Hx0. apply Hf. by right.
Qed.

(** More fuel does not change a result. *)
Lemma inheritedBy_mono (fuel : nat) :
  forall (g : groupPtr) (acc r : list groupPtr),
    parentsOf fuel g acc = Ok r -> parentsOf (S fuel) g acc = Ok r.
Proof.
  induction fuel as [|fuel IH]; intros g acc r H; [done|].
  cbn [inheritedBy] in *.
  destruct (derefGroup heap g) as [G| |]; cbn [mbind result_bind] in *; try done.
  eapply foldM_mono; [|exact H]. intros a x a' _ Hx. by apply IH.
Qed.

(** The slice given to [inheritedBy] is only appended to. *)
Lemma inheritedBy_acc (fuel : nat) :
  forall (g : groupPtr) (acc : list groupPtr),
    parentsOf fuel g acc = (l ← parentsOf fuel g []; Ok (acc ++ l)).
Proof.
  induction fuel as [|fuel IH]; intros g acc; [done|].
  cbn [inheritedBy].
  destruct (derefGroup heap g) as [G| |]; cbn [mbind result_bind]; try done.
  generalize (Inherits G). intros ps. revert acc.
  assert (forall acc acc0 : list groupPtr,
            foldM (fun res parent => parentsOf fuel parent (res ++ [parent])) (acc ++ acc0) ps
            = (l ← foldM (fun res parent => parentsOf fuel parent (res ++ [parent])) acc0 ps;
               Ok (acc ++ l))) as H.
  { induction ps as [|p ps IHps]; intros acc acc0; [done|].
    cbn [foldM]. rewrite (IH p ((acc ++ acc0) ++ [p])), (IH p (acc0 ++ [p])).
    destruct (parentsOf fuel p []) as [l| |]; cbn [mbind result_bind]; try done.
    rewrite <- !app_assoc. apply IHps. }
  intros acc. specialize (H acc []). by rewrite app_nil_r in H.
Qed.

(** The groups that [inheritedBy] returns for a group include, for each
    of them, the groups it returns for that one, with one fuel less. *)
Lemma inheritedBy_subtree (fuel : nat) :
  forall (g : groupPtr) (acc r : list groupPtr),
    parentsOf (S fuel) g acc = Ok r ->
    exists l, r = acc ++ l
              /\ forall a, a ∈ l ->
                   exists la, parentsOf fuel a [] = Ok la /\ forall x, x ∈ la -> x ∈ l.
Proof.
  induction fuel as [|fuel IH]; intros g acc r H.
  - cbn [inheritedBy] in H.
    destruct (derefGroup heap g) as [G| |]; cbn [mbind result_bind] in H; try done.
    destruct (Inherits G) as [|p ps]; [|done]. inversion H; subst.
    exists []. rewrite app_nil_r. split; [done|]. intros a Ha. by apply elem_of_nil in Ha.
  - change (parentsOf (S (S fuel)) g acc)
      with (G ← derefGroup heap g;
            foldM (fun res parent => parentsOf (S fuel) parent (res ++ [parent]))
                  acc (Inherits G)) in H.
    destruct (derefGroup heap g) as [G| |]; cbn [mbind result_bind] in H; try done.
    revert acc r H. generalize (Inherits G). intros ps.
    induction ps as [|p ps IHps]; intros acc r H.
    + inversion H; subst. exists []. rewrite app_nil_r. split; [done|].
      intros a Ha. by apply elem_of_nil in Ha.
    + cbn [foldM] in H.
      destruct (parentsOf (S fuel) p (acc ++ [p])) as [r1| |] eqn:E1;
        cbn [mbind result_bind] in H; try done.
      destruct (IH p (acc ++ [p]) r1 E1) as (l1 & -> & Hl1).
      destruct (IHps _ _ H) as (l2 & -> & Hl2).
      assert (parentsOf (S fuel) p [] = Ok l1) as Hp.
      { rewrite inheritedBy_acc in E1.
        destruct (parentsOf (S fuel) p []) as [l1'| |]; cbn [mbind result_bind] in E1;
          try done.
        inversion E1 as [E]. apply app_inv_head in E. by subst. }
      exists (p :: l1 ++ l2). split; [by rewrite <- !app_assoc|].
      intros a Ha. apply elem_of_cons in Ha as [-> | Ha].
      * exists l1. split; [done|]. intros x Hx. right. apply elem_of_app. by left.
      * apply elem_of_app in Ha as [Ha | Ha].
        -- destruct (Hl1 a Ha) as (la & Hla & Hsub). exists la.
           split; [by apply inheritedBy_mono|]. intros x Hx. right.
           apply elem_of_app. left. by apply Hsub.
        -- destruct (Hl2 a Ha) as (la & Hla & Hsub). exists la. split; [done|].
           intros x Hx. right. apply elem_of_app. right. by apply Hsub.
Qed.

Lemma membership_set (gc : GroupCollection) (uid uid' : Z) (g g' : groupPtr)
    (mode : InheritanceInfo) :
  membership (setMembership gc uid g mode) uid' g'
  = if bool_decide (uid' = uid /\ g' = g) then Some mode else membership gc uid' g'.
Proof.
  unfold membership, setMembership. simpl. case_bool_decide as H.
  - destruct H as [-> ->]. rewrite lookup_insert_eq. simpl. apply lookup_insert_eq.
  - destruct (decide (uid' = uid)) as [->|Hu].
    + rewrite lookup_insert_eq. simpl. rewrite lookup_insert_ne by (intros ->; by apply H).
      by destruct (memberships gc !! uid).
    + by rewrite lookup_insert_ne.
Qed.

(** What [AddMembership] does, given the groups that [inheritedBy]
    returns for the group. *)
Lemma AddMembership_spec (fuel : nat) :
  forall (gc : GroupCollection) (uid : Z) (group : groupPtr) (inherit : bool)
         (l : list groupPtr),
    parentsOf (S fuel) group [] = Ok l ->
    exists gc' : GroupCollection,
      addMember (S fuel) gc uid group inherit = Ok gc'
      /\ membership gc' uid group = Some (if inherit then InheritedGroup else NativeGroup)
      /\ (forall a, a ∈ l -> a ≠ group -> membership gc' uid a = Some InheritedGroup)
      /\ (forall a, a ∉ l -> a ≠ group -> membership gc' uid a = membership gc uid a)
      /\ (forall uid' a, uid' ≠ uid -> membership gc' uid' a = membership gc uid' a)
      /\ groups gc' = groups gc.
Proof.
  induction fuel as [|fuel IH]; intros gc uid group inherit l Hl.
  - assert (l = []) as ->.
    { destruct (inheritedBy_subtree 0 group [] l Hl) as (l' & -> & Hl').
      destruct l' as [|a l']; [done|].
      destruct (Hl' a (list_elem_of_here _ _)) as (la & Hla & _). done. }
    cbn [AddMembership]. rewrite Hl. cbn [mbind result_bind foldM].
    eexists. split; [done|]. split; [|split; [|split; [|split]]].
    + rewrite membership_set. by rewrite bool_decide_eq_true_2.
    + intros a Ha. by apply elem_of_nil in Ha.
    + intros a _ Hne. rewrite membership_set. rewrite bool_decide_eq_false_2; [done|].
      by intros [_ ?].
    + intros uid' a Hne. rewrite membership_set. rewrite bool_decide_eq_false_2; [done|].
      by intros [? _].
    + done.
  - destruct (inheritedBy_subtree (S fuel) group [] l Hl) as (l0 & E0 & Hsub).
    simpl in E0. subst l0.
    assert (forall (l' : list groupPtr) (gc1 : GroupCollection),
              (forall a, a ∈ l' -> a ∈ l) ->
              exists gc2 : GroupCollection,
                foldM (fun gc grp => addMember (S fuel) gc uid grp true) gc1 l' = Ok gc2
                /\ (forall a, a ∈ l' \/ membership gc1 uid a = Some InheritedGroup ->
                      membership gc2 uid a = Some InheritedGroup)
                /\ (forall a, a ∉ l -> membership gc2 uid a = membership gc1 uid a)
                /\ (forall uid' a, uid' ≠ uid ->
                      membership gc2 uid' a = membership gc1 uid' a)
                /\ groups gc2 = groups gc1) as Hfold.
    { induction l' as [|a l' IHl]; intros gc1 Hin.
      - exists gc1. split; [done|]. split; [|done].
        intros a [Ha | Ha]; [by apply elem_of_nil in Ha | done].
      - destruct (Hsub a (Hin a (list_elem_of_here _ _))) as (la & Hla & Hla_sub).
        destruct (IH gc1 uid a true la Hla) as (gc1' & Hadd & Ha & Hanc & Hout & Hoth & Hg).
        destruct (IHl gc1' (fun x Hx => Hin x (list_elem_of_further _ _ _ Hx)))
          as (gc2 & Hf & Hinh & Hout2 & Hoth2 & Hg2).
        exists gc2. cbn [foldM]. rewrite Hadd. cbn [mbind result_bind].
        split; [exact Hf|]. split; [|split; [|split]].
        + intros x Hx. apply Hinh.
          destruct (decide (x = a)) as [->|Hxa]; [by right|].
          destruct Hx as [Hx | Hx].
          * apply elem_of_cons in Hx as [-> | Hx]; [done | by left].
          * right. destruct (decide (x ∈ la)) as [Hxl | Hxl]; [by apply Hanc|].
            by rewrite Hout.
        + intros x Hx. rewrite Hout2 by done. apply Hout.
          * intros Hxl. apply Hx. by apply Hla_sub.
          * intros ->. apply Hx. apply Hin. by left.
        + intros uid' x Hne. rewrite Hoth2 by done. by apply Hoth.
        + by rewrite Hg2. }
    destruct (Hfold l gc (fun a Ha => Ha)) as (gc2 & Hf & Hinh & Hout & Hoth & Hg).
    change (addMember (S (S fuel)) gc uid group inherit)
      with (inheritingGroups ← parentsOf (S (S fuel)) group [];
            gc ← foldM (fun gc grp => addMember (S fuel) gc uid grp true) gc inheritingGroups;
            Ok (setMembership gc uid group (if inherit then InheritedGroup else NativeGroup))).
    rewrite Hl. cbn [mbind result_bind]. rewrite Hf. cbn [mbind result_bind].
    eexists. split; [done|]. split; [|split; [|split; [|split]]].
    + rewrite membership_set. by rewrite bool_decide_eq_true_2.
    + intros a Ha Hne. rewrite membership_set.
      rewrite bool_decide_eq_false_2 by (by intros [_ ?]). apply Hinh. by left.
    + intros a Ha Hne. rewrite membership_set.
      rewrite bool_decide_eq_false_2 by (by intros [_ ?]). by apply Hout.
    + intros uid' a Hne. rewrite membership_set.
      rewrite bool_decide_eq_false_2 by (by intros [? _]). by apply Hoth.
    + done.
Qed.

(** X24. Adding a membership. When [inheritedBy] returns the groups [l]
    for a group, [AddMembership] returns: the user is then a member of
    the group, natively unless the call says otherwise, and a member by
    inheritance of every other group of [l], whatever it was before;
    [HasMembership] answers yes for all of them; the memberships of the
    user in the other groups, the memberships of the other users and the
    registered groups are as they were. *)
Theorem X24_AddMembership_inherits (fuel : nat) (gc : GroupCollection) (uid : Z)
    (group : groupPtr) (inherit : bool) (l : list groupPtr) :
  parentsOf (S fuel) group [] = Ok l ->
  exists gc' : GroupCollection,
    addMember (S fuel) gc uid group inherit = Ok gc'
    /\ membership gc' uid group = Some (if inherit then InheritedGroup else NativeGroup)
    /\ (forall a, a ∈ l -> a ≠ group -> membership gc' uid a = Some InheritedGroup)
    /\ (forall a, a ∈ l \/ a = group -> HasMembership GroupEveryone gc' uid a = true)
    /\ (forall a, a ∉ l -> a ≠ group -> membership gc' uid a = membership gc uid a)
    /\ (forall uid' a, uid' ≠ uid -> membership gc' uid' a = membership gc uid' a)
    /\ groups gc' = groups gc.
Proof.
  intros Hl.
  destruct (AddMembership_spec fuel gc uid group inherit l Hl)
    as (gc' & Hadd & Hg & Hanc & Hout & Hoth & Hgr).
  exists gc'. split; [done|]. split; [done|]. split; [done|].
  split; [|split; [done|split; [done|done]]].
  intros a Ha. unfold HasMembership. case_bool_decide; [done|].
  apply bool_decide_eq_true_2.
  destruct (decide (a = group)) as [->|Hne]; [by rewrite Hg|].
  destruct Ha as [Ha | Ha]; [|done]. by rewrite (Hanc a Ha Hne).
Qed.

(** X25. Removing all the memberships of a user. For a user other than
    the superuser, [RemoveAllMembershipsForUser] leaves the user a member
    of no group but the group of everyone; for the superuser, it leaves
    the superuser a native member of the admin group (when [inheritedBy]
    returns for that group). The memberships of the other users are as
    they were. *)
Theorem X25_RemoveAllMembershipsForUser_spec (fuel : nat) (gc : GroupCollection) (uid : Z) :
  (uid ≠ SuperUserID ->
   exists gc' : GroupCollection,
     RemoveAllMembershipsForUser heap GroupAdmin fuel gc uid = Ok gc'
     /\ (forall g, HasMembership GroupEveryone gc' uid g = bool_decide (g = GroupEveryone))
     /\ (forall uid' g, uid' ≠ uid -> membership gc' uid' g = membership gc uid' g))
  /\ (forall l : list groupPtr,
        uid = SuperUserID ->
        parentsOf (S fuel) GroupAdmin [] = Ok l ->
        exists gc' : GroupCollection,
          RemoveAllMembershipsForUser heap GroupAdmin (S fuel) gc uid = Ok gc'
          /\ membership gc' SuperUserID GroupAdmin = Some NativeGroup
          /\ HasMembership GroupEveryone gc' SuperUserID GroupAdmin = true
          /\ (forall g, g ∉ l -> g ≠ GroupAdmin -> g ≠ GroupEveryone ->
                HasMembership GroupEveryone gc' SuperUserID g = false)
          /\ (forall uid' g, uid' ≠ uid -> membership gc' uid' g = membership gc uid' g)).
Proof.
  split.
  - intros Hne. unfold RemoveAllMembershipsForUser.
    rewrite bool_decide_eq_false_2 by done. eexists. split; [done|]. split.
    + intros g.
      assert (membership (doRemoveAllMembershipsForUser gc uid) uid g = None) as Hm.
      { unfold membership, doRemoveAllMembershipsForUser. simpl.
        by rewrite lookup_delete_eq. }
      unfold HasMembership. rewrite Hm. case_bool_decide; [done|].
      apply bool_decide_eq_false_2. by intros [? ?].
    + intros uid' g Hu. unfold membership, doRemoveAllMembershipsForUser. simpl.
      by rewrite lookup_delete_ne.
  - intros l -> Hl. unfold RemoveAllMembershipsForUser.
    rewrite bool_decide_eq_true_2 by done.
    set (gc0 := doRemoveAllMembershipsForUser gc SuperUserID).
    destruct (AddMembership_spec fuel gc0 SuperUserID GroupAdmin false l Hl)
      as (gc' & Hadd & Hg & Hanc & Hout & Hoth & Hgr).
    exists gc'. split; [done|]. split; [done|]. split; [|split].
    + unfold HasMembership. case_bool_decide; [done|]. by rewrite Hg.
    + intros g Hgl Hga Hge.
      assert (membership gc0 SuperUserID g = None) as Hm.
      { unfold membership, gc0, doRemoveAllMembershipsForUser. simpl.
        by rewrite lookup_delete_eq. }
      unfold HasMembership.
      rewrite bool_decide_eq_false_2 by done. rewrite (Hout g Hgl Hga), Hm.
      apply bool_decide_eq_false_2. by intros [? ?].
    + intros uid' g Hu. rewrite (Hoth uid' g Hu).
      unfold membership, gc0, doRemoveAllMembershipsForUser. simpl.
      by rewrite lookup_delete_ne.
Qed.

(** X26. The groups of a user. [UserGroups] holds exactly the groups for
    which [HasMembership] answers yes: the group of everyone, as a native
    membership, and the groups of which the user is a member, with the
    kind of the membership. *)
Theorem X26_UserGroups_HasMembership (gc : GroupCollection) (uid : Z) :
  (forall g, is_Some (UserGroups GroupEveryone gc uid !! g)
             <-> HasMembership GroupEveryone gc uid g = true)
  /\ UserGroups GroupEveryone gc uid !! GroupEveryone = Some NativeGroup
  /\ (forall g, g ≠ GroupEveryone ->
        UserGroups GroupEveryone gc uid !! g = membership gc uid g).
Proof.
  assert (forall g, g ≠ GroupEveryone ->
            UserGroups GroupEveryone gc uid !! g = membership gc uid g) as Hne.
  { intros g Hg. unfold UserGroups, membership. rewrite lookup_insert_ne by done.
    by destruct (memberships gc !! uid). }
  split; [|split; [apply lookup_insert_eq | exact Hne]].
  intros g. unfold HasMembership. case_bool_decide as Hg.
  - subst g. unfold UserGroups. rewrite lookup_insert_eq. split; [done | by eexists].
  - rewrite (Hne g Hg). by rewrite bool_decide_eq_true.
Qed.

(** X27. Registering a group. [RegisterGroup] panics on a nil group and
    on a group whose id is already registered; otherwise [GetGroup] then
    returns the group for its id, the other ids are as they were, and
    registering the group a second time panics. *)
Theorem X27_RegisterGroup_GetGroup (gc : GroupCollection) (group : groupPtr) :
  (derefGroup heap group = Panic "nil Group" ->
   RegisterGroup heap gc group = Panic "nil Group")
  /\ (forall g : Group,
        derefGroup heap group = Ok g ->
        (is_Some (groups gc !! ID g) ->
         RegisterGroup heap gc group
         = Panic "Trying register a new group with an existing ID")
        /\ (groups gc !! ID g = None ->
            exists gc' : GroupCollection,
              RegisterGroup heap gc group = Ok gc'
              /\ GetGroup gc' (ID g) = group
              /\ (forall id, id ≠ ID g -> GetGroup gc' id = GetGroup gc id)
              /\ memberships gc' = memberships gc
              /\ RegisterGroup heap gc' group
                 = Panic "Trying register a new group with an existing ID")).
Proof.
  split.
  - intros H. unfold RegisterGroup. by rewrite H.
  - intros g Hg. unfold RegisterGroup. rewrite Hg. cbn [mbind result_bind]. split.
    + intros [p Hp]. by rewrite Hp.
    + intros Hn. rewrite Hn. eexists. split; [done|]. simpl.
      split; [|split; [|split; [done|]]].
      * unfold GetGroup. simpl. by rewrite lookup_insert_eq.
      * intros id Hid. unfold GetGroup. simpl. by rewrite lookup_insert_ne.
      * by rewrite lookup_insert_eq.
Qed.

End GroupFacts.

(** ** The properties on the small schema *)

Lemma X2_removeM2MLinks_exact_witness :
  (1%Z ∈ getM2MLinks
          (removeM2MLinks (addM2MLink newCache Demo.Post_Tags 7 [1%Z; 2%Z]) Demo.Post_Tags 8)
          Demo.Post_Tags 7
   <-> 7%Z ≠ 8%Z /\ 1%Z ∈ getM2MLinks (addM2MLink newCache Demo.Post_Tags 7 [1%Z; 2%Z])
                          Demo.Post_Tags 7)
  /\ (7%Z ∈ getM2MLinks
             (removeM2MLinks (addM2MLink newCache Demo.Post_Tags 7 [1%Z; 2%Z])
                Demo.Post_Tags 7)
             Demo.Tag_Posts 1
      <-> 7%Z ≠ 7%Z /\ 7%Z ∈ getM2MLinks (addM2MLink newCache Demo.Post_Tags 7 [1%Z; 2%Z])
                             Demo.Tag_Posts 1).
Proof.
  split.
  - apply (X2_removeM2MLinks_exact (addM2MLink newCache Demo.Post_Tags 7 [1%Z; 2%Z])
             Demo.Post_Tags 8%Z).
  - apply (X2_removeM2MLinks_exact (addM2MLink newCache Demo.Post_Tags 7 [1%Z; 2%Z])
             Demo.Post_Tags 7%Z);
      [reflexivity | reflexivity | reflexivity | discriminate].
Defined.

Lemma X3_updateEntryByRef_one2many_witness :
  exists (c' : cache) (l : list Z),
    updateEntryByRef Demo.Registry 2 newCache ("User", 7%Z) "posts_ids" (VIds [5%Z; 6%Z])
    = Ok c'
    /\ (forall id, id ∈ [5%Z; 6%Z] -> cell c' ("Post", id) "user_id" = Some (VInt64 7))
    /\ cell c' ("User", 7%Z) "posts_ids" = Some (VBool true)
    /\ getByRef Demo.Registry c' ("User", 7%Z) "posts_ids" = Ok (VIds l)
    /\ (forall id, id ∈ [5%Z; 6%Z] -> id ∈ l).
Proof.
  apply (X3_updateEntryByRef_one2many Demo.Registry 0 newCache ("User", 7%Z) "posts_ids"
           [5%Z; 6%Z] Demo.User_Posts Demo.Post_User "Post");
    try reflexivity.
  repeat split; discriminate.
Defined.

Lemma X4_path_not_in_cache_witness :
  updateEntry Demo.Registry 2 newCache "Post" 5 "User.Name" (VString "Ann")
  = Ok (newCache, true)
  /\ get Demo.Registry 2 newCache "Post" 5 "User.Name" = Ok VNil
  /\ checkIfInCache Demo.Registry 2 newCache "Post" [5%Z] ["User.Name"] = Ok false
  /\ removeEntry Demo.Registry 2 newCache "Post" 5 "User.Name" = Ok newCache.
Proof.
  apply (X4_path_not_in_cache Demo.Registry 0 newCache "Post" 5%Z "User.Name"
           "user_id" "name" [] Demo.Post_User Demo.Post_User (VString "Ann"));
    try reflexivity.
  - repeat split; discriminate.
  - intros n. vm_compute. discriminate.
Defined.

Lemma X5_path_round_trip_witness :
  exists c' : cache,
    updateEntry Demo.Registry 2 (writeCell newCache ("Post", 5%Z) "user_id" (VInt64 7))
      "Post" 5 "User.Name" (VString "Ann") = Ok (c', false)
    /\ cell c' ("User", 7%Z) "name" = Some (VString "Ann")
    /\ get Demo.Registry 2 c' "Post" 5 "User.Name" = Ok (VString "Ann")
    /\ get Demo.Registry 1 c' "User" 7 "name" = Ok (VString "Ann").
Proof.
  apply (X5_path_round_trip Demo.Registry 0
           (writeCell newCache ("Post", 5%Z) "user_id" (VInt64 7)) "Post" 5%Z "User.Name"
           "user_id" "name" Demo.Post_User Demo.Post_User
           (Demo.field "User" "Name" "name" Char) (Demo.field "User" "Name" "name" Char)
           7%Z "User" (VString "Ann"));
    try reflexivity; try discriminate; repeat split; discriminate.
Defined.

Lemma X6_removeEntry_cell_witness :
  exists c' : cache,
    removeEntry Demo.Registry 1 (writeCell newCache ("User", 7%Z) "name" (VString "Ann"))
      "User" 7 "name" = Ok c'
    /\ cell c' ("User", 7%Z) "name" = None
    /\ get Demo.Registry 1 c' "User" 7 "name" = Ok VNil
    /\ checkIfInCache Demo.Registry 1 c' "User" [7%Z] ["name"] = Ok false
    /\ (forall ref k, (ref, k) ≠ (("User", 7%Z), "name") ->
          cell c' ref k
          = cell (writeCell newCache ("User", 7%Z) "name" (VString "Ann")) ref k)
    /\ m2mLinks c' = m2mLinks (writeCell newCache ("User", 7%Z) "name" (VString "Ann")).
Proof.
  apply (X6_removeEntry_cell Demo.Registry 0 0
           (writeCell newCache ("User", 7%Z) "name" (VString "Ann")) "User" 7%Z "name"
           (Demo.field "User" "Name" "name" Char));
    try reflexivity.
  repeat split; discriminate.
Defined.

Lemma X7_removeEntry_by_name_witness :
  exists c' : cache,
    removeEntry Demo.Registry 1 (writeCell newCache ("User", 7%Z) "name" (VString "Ann"))
      "User" 7 "Name" = Ok c'
    /\ (forall ref,
          cell c' ref "name"
          = cell (writeCell newCache ("User", 7%Z) "name" (VString "Ann")) ref "name")
    /\ checkIfInCache Demo.Registry 1 c' "User" [7%Z] ["Name"]
       = checkIfInCache Demo.Registry 1
           (writeCell newCache ("User", 7%Z) "name" (VString "Ann")) "User" [7%Z] ["Name"].
Proof.
  apply (X7_removeEntry_by_name Demo.Registry 0 0
           (writeCell newCache ("User", 7%Z) "name" (VString "Ann")) "User" 7%Z "Name"
           (Demo.field "User" "Name" "name" Char));
    [reflexivity | reflexivity | discriminate].
Defined.

Lemma X8_checkIfInCache_all_witness :
  checkIfInCache Demo.Registry 1 newCache "User" [7%Z] [] = Ok true
  /\ (checkIfInCache Demo.Registry 1 newCache "User" [7%Z; 8%Z] ["name"] = Ok true
      <-> forall id f, id ∈ [7%Z; 8%Z] -> f ∈ ["name"] ->
            checkIfInCache Demo.Registry 1 newCache "User" [id] [f] = Ok true).
Proof.
  destruct (X8_checkIfInCache_all Demo.Registry 1 newCache "User") as (_ & H2 & H3).
  split; [apply H2; discriminate | apply H3; discriminate].
Defined.

Lemma X9_getRecord_entry_witness :
  getRecord Demo.Registry 1
    (mkCache {[ ("User", 7%Z) := {[ "id" := VInt64 7; "name" := VString "Ann" ]} ]} ∅)
    "User" 7
  = Ok {[ "id" := VInt64 7; "name" := VString "Ann" ]}.
Proof.
  destruct (X9_getRecord_entry Demo.Registry 1
              (mkCache {[ ("User", 7%Z) := {[ "id" := VInt64 7; "name" := VString "Ann" ]} ]} ∅)
              "User" 7%Z) as (_ & _ & H).
  apply (H 0%nat); [reflexivity | reflexivity |].
  intros k [v Hk]. apply elem_of_map_to_list in Hk.
  assert (map_to_list ({[ "id" := VInt64 7; "name" := VString "Ann" ]} : FieldMap)
          = [("id", VInt64 7); ("name", VString "Ann")]) as Hlist
    by (vm_compute; reflexivity).
  rewrite Hlist in Hk. apply elem_of_cons in Hk as [[= -> ->] | Hk].
  - split; [reflexivity|]. exists (Demo.field "User" "ID" "id" Integer).
    repeat split; try reflexivity; discriminate.
  - apply list_elem_of_singleton in Hk as [= -> ->].
    split; [reflexivity|]. exists (Demo.field "User" "Name" "name" Char).
    repeat split; try reflexivity; discriminate.
Defined.

Lemma X10_addRecord_round_trip_witness :
  exists c' : cache,
    addRecord Demo.Registry 1 newCache "User" 7
      {[ "id" := VInt64 7; "name" := VString "Ann" ]} = Ok c'
    /\ (forall k v,
          ({[ "id" := VInt64 7; "name" := VString "Ann" ]} : FieldMap) !! k = Some v ->
          get Demo.Registry 1 c' "User" 7 k = Ok v)
    /\ (forall k,
          is_Some (({[ "id" := VInt64 7; "name" := VString "Ann" ]} : FieldMap) !! k) ->
          checkIfInCache Demo.Registry 1 c' "User" [7%Z] [k] = Ok true).
Proof.
  apply (X10_addRecord_round_trip Demo.Registry 0 0 newCache "User" 7%Z
           {[ "id" := VInt64 7; "name" := VString "Ann" ]}).
  intros k [v Hk]. apply elem_of_map_to_list in Hk.
  assert (map_to_list ({[ "id" := VInt64 7; "name" := VString "Ann" ]} : FieldMap)
          = [("id", VInt64 7); ("name", VString "Ann")]) as Hlist
    by (vm_compute; reflexivity).
  rewrite Hlist in Hk. apply elem_of_cons in Hk as [[= -> ->] | Hk].
  - split; [reflexivity|]. exists (Demo.field "User" "ID" "id" Integer).
    repeat split; try reflexivity; discriminate.
  - apply list_elem_of_singleton in Hk as [= -> ->].
    split; [reflexivity|]. exists (Demo.field "User" "Name" "name" Char).
    repeat split; try reflexivity; discriminate.
Defined.

Lemma X11_invalidateRecord_frame_witness :
  exists c' : cache,
    invalidateRecord Demo.Registry
      (addM2MLink (writeCell newCache ("Post", 6%Z) "title" (VString "Hello"))
         Demo.Post_Tags 6 [1%Z])
      "Post" 5 = Ok c'
    /\ (forall ref, ref ≠ ("Post", 5%Z) ->
          data c' !! ref
          = data (addM2MLink (writeCell newCache ("Post", 6%Z) "title" (VString "Hello"))
                    Demo.Post_Tags 6 [1%Z]) !! ref)
    /\ (forall (fi : Field) (x y : Z),
          x ≠ 5%Z -> y ≠ 5%Z ->
          y ∈ getM2MLinks c' fi x
          <-> y ∈ getM2MLinks
                    (addM2MLink (writeCell newCache ("Post", 6%Z) "title" (VString "Hello"))
                       Demo.Post_Tags 6 [1%Z]) fi x).
Proof.
  apply (X11_invalidateRecord_frame Demo.Registry _ "Post" 5%Z Demo.Post).
  vm_compute. reflexivity.
Defined.

Lemma X12_side_clauses_empty_witness :
  sqlLimitOffsetClause DemoMore.allPosts = ""
  /\ sqlOrderByClause Demo.Registry Demo.quoteTableName Demo.sqlSep DemoMore.TrimSpace
       DemoMore.allPosts = Ok ""
  /\ getOrderByExpressions Demo.Registry DemoMore.TrimSpace DemoMore.allPosts = Ok [].
Proof.
  destruct (X12_side_clauses_empty Demo.Registry Demo.quoteTableName Demo.sqlSep
              DemoMore.TrimSpace DemoMore.allPosts) as [_ H].
  apply H. reflexivity.
Defined.

Lemma X13_conditionSQLClause_params_witness :
  conditionSQLClause Demo.Registry Demo.quoteTableName Demo.sqlSep Demo.IsEmpty
    Demo.operatorSQL Demo.CastToInteger "Post" (q_cond DemoMore.postsOfUser)
  = Ok (Demo.quoteTableName "post" +:+ ".user_id" +:+ " " +:+ "= ?", [VInt64 7]).
Proof.
  destruct (X13_conditionSQLClause_params Demo.Registry Demo.quoteTableName Demo.sqlSep
              Demo.IsEmpty Demo.operatorSQL Demo.CastToInteger "Post"
              (q_cond DemoMore.postsOfUser)) as (_ & _ & H).
  apply (H (Demo.leaf ["User"] operator.Equals (VInt64 7))); reflexivity.
Defined.

Lemma X14_predicateSQLClause_leaf_witness :
  predicateSQLClause Demo.Registry Demo.quoteTableName Demo.sqlSep Demo.IsEmpty
    Demo.operatorSQL Demo.CastToInteger "User"
    (Demo.leaf ["Age"] operator.Equals (VInt64 0))
  = Ok (Demo.quoteTableName "user" +:+ ".age" +:+ " " +:+ "= ?", [VInt64 0])
  /\ predicateSQLClause Demo.Registry Demo.quoteTableName Demo.sqlSep Demo.IsEmpty
       Demo.operatorSQL Demo.CastToInteger "User"
       (Demo.leaf ["Age"] operator.NotEquals VNil)
     = Ok (Demo.quoteTableName "user" +:+ ".age" +:+ " IS NOT NULL", []).
Proof.
  split.
  - destruct (X14_predicateSQLClause_leaf Demo.Registry Demo.quoteTableName Demo.sqlSep
                Demo.IsEmpty Demo.operatorSQL Demo.CastToInteger "User"
                (Demo.leaf ["Age"] operator.Equals (VInt64 0)) ["age"]
                (Demo.computedField "User" "Age" "age" Integer "ComputeAge" "InverseSetAge")
                (Demo.quoteTableName "user" +:+ ".age")
                eq_refl eq_refl eq_refl eq_refl) as [_ H].
    apply H; [discriminate | by left].
  - destruct (X14_predicateSQLClause_leaf Demo.Registry Demo.quoteTableName Demo.sqlSep
                Demo.IsEmpty Demo.operatorSQL Demo.CastToInteger "User"
                (Demo.leaf ["Age"] operator.NotEquals VNil) ["age"]
                (Demo.computedField "User" "Age" "age" Integer "ComputeAge" "InverseSetAge")
                (Demo.quoteTableName "user" +:+ ".age")
                eq_refl eq_refl eq_refl eq_refl) as [H _].
    apply H; reflexivity.
Defined.

Lemma X15_deleteQuery_where_witness :
  (sqlWhereClause Demo.Registry Demo.quoteTableName Demo.sqlSep Demo.IsEmpty
     Demo.operatorSQL Demo.CastToInteger DemoMore.evaluateArgFunctions DemoMore.allPosts
   = Ok ("", [])
   /\ deleteQuery Demo.Registry Demo.quoteTableName Demo.sqlSep Demo.IsEmpty
        Demo.operatorSQL Demo.CastToInteger DemoMore.evaluateArgFunctions DemoMore.allPosts
      = Ok ("DELETE FROM " +:+ Demo.quoteTableName "post" +:+ " ", []))
  /\ deleteQuery Demo.Registry Demo.quoteTableName Demo.sqlSep Demo.IsEmpty
       Demo.operatorSQL Demo.CastToInteger DemoMore.evaluateArgFunctions
       DemoMore.postsOfUser
     = Ok ("DELETE FROM " +:+ Demo.quoteTableName "post" +:+ " "
           +:+ "WHERE " +:+ Demo.quoteTableName "post" +:+ ".user_id" +:+ " " +:+ "= ?",
           [VInt64 7]).
Proof.
  split.
  - destruct (X15_deleteQuery_where Demo.Registry Demo.quoteTableName Demo.sqlSep
                Demo.IsEmpty Demo.operatorSQL Demo.CastToInteger
                DemoMore.evaluateArgFunctions DemoMore.allPosts (mkCondition []) Demo.Post
                eq_refl eq_refl) as [_ H].
    apply H. reflexivity.
  - destruct (X15_deleteQuery_where Demo.Registry Demo.quoteTableName Demo.sqlSep
                Demo.IsEmpty Demo.operatorSQL Demo.CastToInteger
                DemoMore.evaluateArgFunctions DemoMore.postsOfUser
                (q_cond DemoMore.postsOfUser) Demo.Post eq_refl eq_refl) as [H _].
    destruct (H (Demo.quoteTableName "post" +:+ ".user_id" +:+ " " +:+ "= ?") [VInt64 7]
                eq_refl) as [_ Hd].
    exact Hd.
Defined.

Lemma X16_insertQuery_shape_witness :
  exists (sql : string) (vals : list dataValue) (m : Model) (cols : list string)
         (kept : list (string * dataValue)),
    insertQuery Demo.Registry Demo.quoteTableName "User"
      {[ "name" := DValue (VString "Ann"); "profile_id" := DPointer ]} = Ok (sql, vals)
    /\ Demo.Registry !! "User" = Some m
    /\ sql = "INSERT INTO " +:+ Demo.quoteTableName (tableName m) +:+ " ("
             +:+ String.concat ", " cols +:+ ") VALUES ("
             +:+ String.concat ", " (replicate (length vals) "?") +:+ ") RETURNING id"
    /\ length cols = length vals
    /\ vals ≠ []
    /\ vals = kept.*2
    /\ Forall2 (fun col kv => inserted Demo.Registry "User" col kv) cols kept
    /\ (forall kv, kv ∈ kept ->
          ({[ "name" := DValue (VString "Ann"); "profile_id" := DPointer ]}
             : gmap string dataValue) !! kv.1 = Some kv.2)
    /\ (forall k v,
          ({[ "name" := DValue (VString "Ann"); "profile_id" := DPointer ]}
             : gmap string dataValue) !! k = Some v ->
          (k, v) ∈ kept \/ skipped Demo.Registry "User" (k, v)).
Proof.
  destruct (insertQuery Demo.Registry Demo.quoteTableName "User"
              {[ "name" := DValue (VString "Ann"); "profile_id" := DPointer ]})
    as [[sql vals]| |] eqn:E;
    [|vm_compute in E; discriminate E|vm_compute in E; discriminate E].
  destruct (X16_insertQuery_shape Demo.Registry Demo.quoteTableName "User" _ sql vals E)
    as (m & cols & kept & H).
  exists sql, vals, m, cols, kept. split; [reflexivity | exact H].
Defined.

Lemma X17_insertQuery_nothing_witness :
  insertQuery Demo.Registry Demo.quoteTableName "User" ∅ = Panic "No data given for insert"
  /\ insertQuery Demo.Registry Demo.quoteTableName "User" {[ "profile_id" := DPointer ]}
     = Panic "strings: negative Repeat count".
Proof.
  split.
  - apply (X17_insertQuery_nothing Demo.Registry Demo.quoteTableName "User" ∅). reflexivity.
  - apply (X17_insertQuery_nothing Demo.Registry Demo.quoteTableName "User"
             {[ "profile_id" := DPointer ]}).
    + intros H. apply (f_equal (fun m : gmap string dataValue => m !! "profile_id")) in H.
      vm_compute in H. discriminate H.
    + intros k v Hk. apply lookup_singleton_Some in Hk as [<- <-].
      exists (Demo.relField "User" "Profile" "profile_id" Many2One false "Profile" "" "").
      repeat split; reflexivity.
Defined.

Lemma X18_updateQuery_shape_witness :
  exists (sql : string) (vals : SQLParams) (m : Model) (cols : list string)
         (whereSQL : string) (args : SQLParams),
    updateQuery Demo.Registry Demo.quoteTableName Demo.sqlSep Demo.IsEmpty
      Demo.operatorSQL Demo.CastToInteger DemoMore.evaluateArgFunctions
      DemoMore.postsOfUser {[ "title" := VString "Hello" ]} = Ok (sql, vals)
    /\ Demo.Registry !! "Post" = Some m
    /\ sqlWhereClause Demo.Registry Demo.quoteTableName Demo.sqlSep Demo.IsEmpty
         Demo.operatorSQL Demo.CastToInteger DemoMore.evaluateArgFunctions
         DemoMore.postsOfUser = Ok (whereSQL, args)
    /\ sql = "UPDATE " +:+ Demo.quoteTableName (tableName m) +:+ " SET "
             +:+ String.concat ", " cols +:+ " " +:+ whereSQL
    /\ vals = (map_to_list ({[ "title" := VString "Hello" ]} : FieldMap)).*2 ++ args
    /\ Forall2 (fun col kv => exists fi, MustGet Demo.Registry "Post" kv.1 = Ok fi
                                         /\ col = json fi +:+ " = ?")
               cols (map_to_list ({[ "title" := VString "Hello" ]} : FieldMap)).
Proof.
  destruct (updateQuery Demo.Registry Demo.quoteTableName Demo.sqlSep Demo.IsEmpty
              Demo.operatorSQL Demo.CastToInteger DemoMore.evaluateArgFunctions
              DemoMore.postsOfUser {[ "title" := VString "Hello" ]})
    as [[sql vals]| |] eqn:E;
    [|vm_compute in E; discriminate E|vm_compute in E; discriminate E].
  destruct (X18_updateQuery_shape Demo.Registry Demo.quoteTableName Demo.sqlSep
              Demo.IsEmpty Demo.operatorSQL Demo.CastToInteger
              DemoMore.evaluateArgFunctions DemoMore.postsOfUser
              {[ "title" := VString "Hello" ]}) as [_ H].
  destruct (H sql vals E) as (m & cols & whereSQL & args & H').
  exists sql, vals, m, cols, whereSQL, args. split; [reflexivity | exact H'].
Defined.

Lemma X19_generateTableJoins_chain_witness :
  exists js : list tableJoin,
    generateTableJoins Demo.Registry Demo.quoteTableName Demo.sqlSep "Post"
      ["tags_ids"; "name"] = Ok js
    /\ (exists m, Demo.Registry !! "Post" = Some m
                  /\ js !! 0%nat = Some (rootJoin Demo.quoteTableName m ["tags_ids"; "name"]))
    /\ hangsOn js
    /\ (forall j, j ∈ js -> isOk (sqlString j))
    /\ (forall withAlias,
          isOk (joinedFieldExpression Demo.Registry Demo.quoteTableName Demo.sqlSep "Post"
                  ["tags_ids"; "name"] withAlias)).
Proof.
  destruct (generateTableJoins Demo.Registry Demo.quoteTableName Demo.sqlSep "Post"
              ["tags_ids"; "name"]) as [js| |] eqn:E;
    [|vm_compute in E; discriminate E|vm_compute in E; discriminate E].
  exists js. split; [reflexivity|].
  exact (X19_generateTableJoins_chain Demo.Registry Demo.quoteTableName Demo.sqlSep "Post"
           ["tags_ids"; "name"] js E).
Defined.

Lemma X20_generateTableJoins_prefix_witness :
  exists js1 js2 : list tableJoin,
    generateTableJoins Demo.Registry Demo.quoteTableName Demo.sqlSep "Post" ["tags_ids"]
    = Ok js1
    /\ generateTableJoins Demo.Registry Demo.quoteTableName Demo.sqlSep "Post"
         (["tags_ids"] ++ ["name"]) = Ok js2
    /\ length js1 = 3%nat
    /\ (tj_alias <$> js1) `prefix_of` (tj_alias <$> js2).
Proof.
  destruct (generateTableJoins Demo.Registry Demo.quoteTableName Demo.sqlSep "Post"
              ["tags_ids"]) as [js1| |] eqn:E1;
    [|vm_compute in E1; discriminate E1|vm_compute in E1; discriminate E1].
  destruct (generateTableJoins Demo.Registry Demo.quoteTableName Demo.sqlSep "Post"
              (["tags_ids"] ++ ["name"])) as [js2| |] eqn:E2;
    [|vm_compute in E2; discriminate E2|vm_compute in E2; discriminate E2].
  exists js1, js2. split; [reflexivity|]. split; [reflexivity|]. split.
  - vm_compute in E1. injection E1 as <-. reflexivity.
  - exact (X20_generateTableJoins_prefix Demo.Registry Demo.quoteTableName Demo.sqlSep
             "Post" ["tags_ids"] ["name"] js1 js2 E1 E2).
Defined.

Lemma X21_tablesSQL_covers_columns_witness :
  exists (res : string) (joinsMap : gmap string string) (js : list tableJoin)
         (j : tableJoin),
    tablesSQL Demo.Registry Demo.quoteTableName Demo.sqlSep "Post"
      [["tags_ids"; "name"]; ["user_id"; "name"]] = Ok (res, joinsMap)
    /\ generateTableJoins Demo.Registry Demo.quoteTableName Demo.sqlSep "Post"
         ["user_id"; "name"] = Ok js
    /\ last js = Some j
    /\ joinedFieldExpression Demo.Registry Demo.quoteTableName Demo.sqlSep "Post"
         ["user_id"; "name"] false = Ok (tj_alias j +:+ "." +:+ tj_expr j)
    /\ is_Some (joinsMap !! tj_alias j).
Proof.
  destruct (tablesSQL Demo.Registry Demo.quoteTableName Demo.sqlSep "Post"
              [["tags_ids"; "name"]; ["user_id"; "name"]]) as [[res joinsMap]| |] eqn:E;
    [|vm_compute in E; discriminate E|vm_compute in E; discriminate E].
  destruct (X21_tablesSQL_covers_columns Demo.Registry Demo.quoteTableName Demo.sqlSep
              "Post" [["tags_ids"; "name"]; ["user_id"; "name"]] res joinsMap
              ["user_id"; "name"] E) as (js & j & H).
  { right. left. }
  exists res, joinsMap, js, j. split; [reflexivity | exact H].
Defined.

Lemma X22_computeFieldStep_cached_witness :
  exists st' : cfState,
    computeFieldStep Demo.Registry Demo.checkFieldPermission Demo.callCompute 1 1%Z
      "User" 7 (mkCfState ∅ newCache [])
      (Demo.computedField "User" "Age" "age" Integer "ComputeAge" "InverseSetAge") = Ok st'
    /\ cf_calls st' = [] ++ ["ComputeAge"]
    /\ cf_params st' = <["age" := VInt 30]> ∅
    /\ cell (cf_cache st') ("User", 7%Z) "age" = Some (VInt 30)
    /\ (forall (params : FieldMap) (calls : list string),
          params !! "Age" = None ->
          computeFieldStep Demo.Registry Demo.checkFieldPermission Demo.callCompute 1 1%Z
            "User" 7 (mkCfState params (cf_cache st') calls)
            (Demo.computedField "User" "Age" "age" Integer "ComputeAge" "InverseSetAge")
          = Ok (mkCfState (<["age" := VInt 30]> params) (cf_cache st') calls)).
Proof.
  apply (X22_computeFieldStep_cached Demo.Registry Demo.checkFieldPermission
           Demo.callCompute 0 1%Z "User" 7%Z (mkCfState ∅ newCache [])
           (Demo.computedField "User" "Age" "age" Integer "ComputeAge" "InverseSetAge")
           (Demo.computedField "User" "Age" "age" Integer "ComputeAge" "InverseSetAge")
           (Demo.computedField "User" "Age" "age" Integer "ComputeAge" "InverseSetAge")
           (Demo.computedField "User" "Age" "age" Integer "ComputeAge" "InverseSetAge")
           Demo.User "age" (VInt 30));
    try reflexivity.
  repeat split; discriminate.
Defined.

Lemma X23_processInverseMethods_calls_witness :
  processInverseMethods Demo.Registry (gmap string value) Demo.HasKey Demo.GetBool
    Demo.FieldMap_Get Demo.IsZero ∅ "User" {[ "name" := VString "Ann" ]} = Ok [].
Proof.
  destruct (X23_processInverseMethods_calls Demo.Registry (gmap string value) Demo.HasKey
              Demo.GetBool Demo.FieldMap_Get Demo.IsZero ∅ "User"
              {[ "name" := VString "Ann" ]}) as [_ H].
  apply H. intros k [v Hk]. apply lookup_singleton_Some in Hk as [<- <-].
  exists (Demo.field "User" "Name" "name" Char). split; [reflexivity|]. left. reflexivity.
Defined.

Lemma X24_AddMembership_inherits_witness :
  exists gc' : security.GroupCollection,
    security.AddMembership DemoMore.heap 3 security.NewGroupCollection 2
      DemoMore.GroupAdmin false = Ok gc'
    /\ security.membership gc' 2 DemoMore.GroupAdmin = Some security.NativeGroup
    /\ (forall a, a ∈ [Some 2%positive; Some 1%positive] -> a ≠ DemoMore.GroupAdmin ->
          security.membership gc' 2 a = Some security.InheritedGroup)
    /\ (forall a, a ∈ [Some 2%positive; Some 1%positive] \/ a = DemoMore.GroupAdmin ->
          security.HasMembership DemoMore.GroupEveryone gc' 2 a = true)
    /\ (forall a, a ∉ [Some 2%positive; Some 1%positive] -> a ≠ DemoMore.GroupAdmin ->
          security.membership gc' 2 a
          = security.membership security.NewGroupCollection 2 a)
    /\ (forall uid' a, uid' ≠ 2%Z ->
          security.membership gc' uid' a
          = security.membership security.NewGroupCollection uid' a)
    /\ security.groups gc' = security.groups security.NewGroupCollection.
Proof.
  apply (X24_AddMembership_inherits DemoMore.heap DemoMore.GroupEveryone 2
           security.NewGroupCollection 2%Z DemoMore.GroupAdmin false
           [Some 2%positive; Some 1%positive]).
  vm_compute. reflexivity.
Defined.

Lemma X25_RemoveAllMembershipsForUser_spec_witness :
  (exists gc' : security.GroupCollection,
     security.RemoveAllMembershipsForUser DemoMore.heap DemoMore.GroupAdmin 3
       (security.setMembership security.NewGroupCollection 2 (Some 1%positive)
          security.NativeGroup) 2 = Ok gc'
     /\ (forall g, security.HasMembership DemoMore.GroupEveryone gc' 2 g
                   = bool_decide (g = DemoMore.GroupEveryone))
     /\ (forall uid' g, uid' ≠ 2%Z ->
           security.membership gc' uid' g
           = security.membership
               (security.setMembership security.NewGroupCollection 2 (Some 1%positive)
                  security.NativeGroup) uid' g))
  /\ (exists gc' : security.GroupCollection,
        security.RemoveAllMembershipsForUser DemoMore.heap DemoMore.GroupAdmin 3
          security.NewGroupCollection security.SuperUserID = Ok gc'
        /\ security.membership gc' security.SuperUserID DemoMore.GroupAdmin
           = Some security.NativeGroup
        /\ security.HasMembership DemoMore.GroupEveryone gc' security.SuperUserID
             DemoMore.GroupAdmin = true
        /\ (forall g, g ∉ [Some 2%positive; Some 1%positive] -> g ≠ DemoMore.GroupAdmin ->
              g ≠ DemoMore.GroupEveryone ->
              security.HasMembership DemoMore.GroupEveryone gc' security.SuperUserID g
              = false)
        /\ (forall uid' g, uid' ≠ security.SuperUserID ->
              security.membership gc' uid' g
              = security.membership security.NewGroupCollection uid' g)).
Proof.
  split.
  - destruct (X25_RemoveAllMembershipsForUser_spec DemoMore.heap DemoMore.GroupAdmin
                DemoMore.GroupEveryone 3
                (security.setMembership security.NewGroupCollection 2 (Some 1%positive)
                   security.NativeGroup) 2%Z) as [H _].
    apply H. discriminate.
  - destruct (X25_RemoveAllMembershipsForUser_spec DemoMore.heap DemoMore.GroupAdmin
                DemoMore.GroupEveryone 2 security.NewGroupCollection security.SuperUserID)
      as [_ H].
    apply (H [Some 2%positive; Some 1%positive]); [reflexivity|].
    vm_compute. reflexivity.
Defined.

Lemma X27_RegisterGroup_GetGroup_witness :
  exists gc' : security.GroupCollection,
    security.RegisterGroup DemoMore.heap security.NewGroupCollection (Some 1%positive)
    = Ok gc'
    /\ security.GetGroup gc' "user" = Some 1%positive
    /\ (forall id, id ≠ "user" ->
          security.GetGroup gc' id = security.GetGroup security.NewGroupCollection id)
    /\ security.memberships gc' = security.memberships security.NewGroupCollection
    /\ security.RegisterGroup DemoMore.heap gc' (Some 1%positive)
       = Panic "Trying register a new group with an existing ID".
Proof.
  destruct (X27_RegisterGroup_GetGroup DemoMore.heap security.NewGroupCollection
              (Some 1%positive)) as [_ H].
  destruct (H (security.mkGroup "user" "Users" []) eq_refl) as [_ H'].
  apply H'. reflexivity.
Defined.
